(** * Tensor columns over a numpy-like numeric engine

    A shallow embedding of [text_extensions_for_pandas/array/tensor.py]:
    the classes [TensorElement] and [TensorArray] and the operator mixin
    [TensorOpsMixin], over a model of the part of numpy they call.

    numpy arrays are handles on buffers that live in a heap, so that two
    arrays can expose the same memory (a slice is a view of its source).
    A buffer is a list of rows, each row the C-order flattening of one
    row tensor; an array exposes a list of row positions of its buffer. *)

From Stdlib Require Import ZArith List Lia Bool String.
From Stdlib Require Import Floats.PrimFloat Floats.FloatOps Floats.SpecFloat.
From stdpp Require Import base list.

Local Open Scope nat_scope.

(** ** Scalars and dtypes *)

Inductive dtype := bool_ | int64 | float64.

Inductive scalar :=
  | SBool (b : bool)
  | SInt (z : Z)
  | SFloat (f : float).

Definition dtype_of (s : scalar) : dtype :=
  match s with SBool _ => bool_ | SInt _ => int64 | SFloat _ => float64 end.

Definition dtype_eqb (a b : dtype) : bool :=
  match a, b with
  | bool_, bool_ | int64, int64 | float64, float64 => true
  | _, _ => false
  end.

(** Two's complement wrap-around of a 64-bit signed integer. *)
Definition wrap64 (z : Z) : Z := ((z + 2 ^ 63) mod 2 ^ 64 - 2 ^ 63)%Z.

Definition int64_min : Z := (- 2 ^ 63)%Z.

(** C conversion of a double to int64: truncation toward zero. NaN,
    infinities and values out of range have no defined result in C; the
    value numpy yields on x86-64 is used. *)
Definition float_to_int64 (f : float) : Z :=
  match Prim2SF f with
  | S754_zero _ => 0%Z
  | S754_finite s m e =>
      let mag := if (0 <=? e)%Z then (Z.pos m * 2 ^ e)%Z
                 else Z.shiftr (Z.pos m) (- e) in
      let v := if s then (- mag)%Z else mag in
      if ((int64_min <=? v) && (v <? 2 ^ 63))%Z then v else int64_min
  | _ => int64_min
  end.

(** Conversion of an int64 to the nearest double (ties to even). *)
Definition int64_to_float (z : Z) : float :=
  SF2Prim (binary_normalize prec emax z 0 false).

Definition to_bool (s : scalar) : bool :=
  match s with
  | SBool b => b
  | SInt z => negb (z =? 0)%Z
  | SFloat f => negb (PrimFloat.eqb f 0)
  end.

Definition to_int (s : scalar) : Z :=
  match s with
  | SBool b => if b then 1%Z else 0%Z
  | SInt z => z
  | SFloat f => float_to_int64 f
  end.

Definition to_float (s : scalar) : float :=
  match s with
  | SBool b => if b then 1%float else 0%float
  | SInt z => int64_to_float z
  | SFloat f => f
  end.

(** What storing [s] into an array of dtype [d] leaves there (numpy
    assigns with unsafe casting). *)
Definition cast (d : dtype) (s : scalar) : scalar :=
  match d with
  | bool_ => SBool (to_bool s)
  | int64 => SInt (to_int s)
  | float64 => SFloat (to_float s)
  end.

(** numpy's result type of two dtypes, on the chain bool < int64 < float64. *)
Definition promote (a b : dtype) : dtype :=
  match a, b with
  | float64, _ | _, float64 => float64
  | int64, _ | _, int64 => int64
  | bool_, bool_ => bool_
  end.

Definition NaN : scalar := SFloat nan.

(** [np.isnan] on one element. *)
Definition isnan (s : scalar) : bool :=
  match s with SFloat f => PrimFloat.is_nan f | _ => false end.

(** [np.add] on one pair of elements. *)
Definition add (x y : scalar) : scalar :=
  match promote (dtype_of x) (dtype_of y) with
  | bool_ => SBool (to_bool x || to_bool y)
  | int64 => SInt (wrap64 (to_int x + to_int y))
  | float64 => SFloat (to_float x + to_float y)
  end.

(** The additive identity of a dtype, what [np.sum] starts from. *)
Definition zero_of (d : dtype) : scalar := cast d (SInt 0).

(** ** Errors and the heap monad *)

Inductive pyerr := TypeError | ValueError | IndexError | NotImplementedError.

Inductive res (A : Type) :=
  | Ok (a : A)
  | Raise (e : pyerr).
Arguments Ok {A} a.
Arguments Raise {A} e.

(** A buffer: its rows, each the flattened tensor of one row. *)
Abbreviation buffer := (list (list scalar)).
Abbreviation heap := (list (list (list scalar))).

Definition M (A : Type) : Type := heap -> res (A * heap).

Definition ret {A} (a : A) : M A := fun h => Ok (a, h).
Definition raise {A} (e : pyerr) : M A := fun _ => Raise e.
Definition bind {A B} (m : M A) (k : A -> M B) : M B :=
  fun h => match m h with
           | Ok (a, h') => k a h'
           | Raise e => Raise e
           end.
Definition lift {A} (r : res A) : M A :=
  fun h => match r with Ok a => Ok (a, h) | Raise e => Raise e end.
Definition get_heap : M heap := fun h => Ok (h, h).

Declare Scope py_scope.
Delimit Scope py_scope with py.
Notation "x <- c ;; k" := (bind c (fun x => k))
  (at level 100, c at next level, right associativity) : py_scope.
Notation "c ;;; k" := (bind c (fun _ => k))
  (at level 100, right associativity) : py_scope.
Local Open Scope py_scope.

Definition rbind {A B} (r : res A) (k : A -> res B) : res B :=
  match r with Ok a => k a | Raise e => Raise e end.

Fixpoint rmapM {A B} (f : A -> res B) (l : list A) : res (list B) :=
  match l with
  | [] => Ok []
  | x :: l' => rbind (f x) (fun y => rbind (rmapM f l') (fun ys => Ok (y :: ys)))
  end.

(** A [for] loop over a list, for its effects. *)
Fixpoint for_each {A} (l : list A) (body : A -> M unit) : M unit :=
  match l with
  | [] => ret tt
  | x :: l' => body x ;;; for_each l' body
  end.

(** ** Arrays *)

(** The number of elements of a shape. *)
Definition prod (s : list nat) : nat := foldr Nat.mul 1 s.

(** An array of one or more dimensions: a window on buffer [base] that
    exposes the buffer rows [rows], in this order; every row has shape
    [rshape], so the array has shape [length rows :: rshape]. *)
Record ndarray := {
  base : nat;
  rows : list nat;
  rshape : list nat;
  dtype_ : dtype
}.

(** What numpy returns from a computation: a new array, or a numpy
    scalar when the result has no dimension. *)
Inductive npout :=
  | OutArr (a : ndarray)
  | OutScalar (s : scalar).

(** What a row wraps and what an operator is given: an array, the view
    [a[p]] of one row of an array of two or more dimensions, a scalar
    (which [a[p]] is when [a] has one dimension, and which owns no
    memory), or the tuple of two results that [divmod] returns. *)
Inductive npval :=
  | NArr (a : ndarray)
  | NRow (b p : nat) (rs : list nat) (d : dtype)
  | NScalar (s : scalar)
  | NPair (q r : npout).

(** The value of an array at one moment: dtype, shape, C-order elements. *)
Record tval := {
  tdtype : dtype;
  tshape : list nat;
  tdata : list scalar
}.

Definition len (a : ndarray) : nat := length (rows a).
Definition shape (a : ndarray) : list nat := len a :: rshape a.

Definition buf_row (h : heap) (b p : nat) : list scalar :=
  default [] (h !! b ≫= (.!! p)).

(** The rows an array exposes, read through the heap. *)
Definition view_rows (h : heap) (a : ndarray) : list (list scalar) :=
  map (buf_row h (base a)) (rows a).

Definition value_of (h : heap) (a : ndarray) : tval :=
  {| tdtype := dtype_ a; tshape := shape a; tdata := concat (view_rows h a) |}.

Definition npout_value (h : heap) (o : npout) : tval :=
  match o with
  | OutArr a => value_of h a
  | OutScalar s => {| tdtype := dtype_of s; tshape := []; tdata := [s] |}
  end.

(** The array numpy makes of a tuple of two values of one shape
    ([np.asarray((q, r))]): the two stacked, in their common dtype. *)
Definition pair_value (q r : tval) : tval :=
  let d := promote (tdtype q) (tdtype r) in
  {| tdtype := d; tshape := 2 :: tshape q;
     tdata := map (cast d) (tdata q) ++ map (cast d) (tdata r) |}.

Definition npval_value (h : heap) (v : npval) : tval :=
  match v with
  | NArr a => value_of h a
  | NRow b p rs d => {| tdtype := d; tshape := rs; tdata := buf_row h b p |}
  | NScalar s => {| tdtype := dtype_of s; tshape := []; tdata := [s] |}
  | NPair q r => pair_value (npout_value h q) (npout_value h r)
  end.

(** [flags.c_contiguous]: the rows of a buffer lie one after the other,
    so an array is contiguous when it exposes consecutive rows; numpy
    ignores an axis of extent one and counts every array without
    elements as contiguous. *)
Definition c_contiguous (a : ndarray) : bool :=
  (len a <=? 1) || (prod (rshape a) =? 0)
  || bool_decide (rows a = seq (hd 0 (rows a)) (len a)).

(** A new buffer holding [rws], and the array that exposes all of it. *)
Definition alloc_rows (d : dtype) (rs : list nat) (rws : list (list scalar))
  : M ndarray :=
  fun h => Ok ({| base := length h; rows := seq 0 (length rws);
                  rshape := rs; dtype_ := d |}, h ++ [rws]).

(** [chunks n size l]: the first [n] pieces of [size] elements of [l]. *)
Fixpoint chunks {A} (n size : nat) (l : list A) : list (list A) :=
  match n with
  | 0 => []
  | S n' => take size l :: chunks n' size (drop size l)
  end.


(** ** Well-formed arrays *)

(** A row of [size] elements, all of dtype [d]. *)
Definition wf_row (d : dtype) (size : nat) (r : list scalar) : bool :=
  (length r =? size) && forallb (fun s => dtype_eqb (dtype_of s) d) r.

(** An array is well formed in a heap when its buffer is allocated,
    it exposes no row twice, and every row it exposes is there and has
    the extent and dtype the array announces. *)
Definition wf_array (h : heap) (a : ndarray) : bool :=
  (base a <? length h) && bool_decide (NoDup (rows a))
  && forallb (fun p => match h !! base a ≫= (.!! p) with
                       | Some r => wf_row (dtype_ a) (prod (rshape a)) r
                       | None => false
                       end) (rows a).

(** ** Indexing *)

(** An index that selects several rows: a slice [start:stop:step], a
    sequence of integer positions, a boolean mask, or [...]. *)
Inductive indexer :=
  | KSlice (start stop step : option Z)
  | KIdx (l : list Z)
  | KMask (m : list bool)
  | KEllipsis.

(** An index: an integer, which selects one row, or an indexer. *)
Inductive key :=
  | KInt (i : Z)
  | KSel (ix : indexer).

(** One integer index against [n] positions: a negative index counts
    from the end, and an index outside [-n, n) is an [IndexError]. *)
Definition norm_index (n : nat) (i : Z) : res nat :=
  let j := if (i <? 0)%Z then (i + Z.of_nat n)%Z else i in
  if ((0 <=? j) && (j <? Z.of_nat n))%Z then Ok (Z.to_nat j)
  else Raise IndexError.

(** The position an index in [-n, n) denotes. *)
Definition position (n : nat) (i : Z) : nat :=
  Z.to_nat (if (i <? 0)%Z then Z.of_nat n + i else i)%Z.

(** Python's [slice.indices]: start, stop and step clipped to [n]. *)
Definition slice_indices (n : nat) (start stop step : option Z)
  : res (Z * Z * Z) :=
  let ln := Z.of_nat n in
  let st := default 1%Z step in
  if (st =? 0)%Z then Raise ValueError else
  let lower := if (st <? 0)%Z then (-1)%Z else 0%Z in
  let upper := if (st <? 0)%Z then (ln - 1)%Z else ln in
  let clip v := if (v <? 0)%Z then Z.max (v + ln) lower else Z.min v upper in
  let s := match start with
           | None => if (st <? 0)%Z then upper else lower
           | Some v => clip v
           end in
  let e := match stop with
           | None => if (st <? 0)%Z then lower else upper
           | Some v => clip v
           end in
  Ok (s, e, st).

Definition slice_length (s e st : Z) : nat :=
  if (st <? 0)%Z
  then (if (e <? s)%Z then Z.to_nat ((s - e - 1) / (- st) + 1) else 0)
  else (if (s <? e)%Z then Z.to_nat ((e - s - 1) / st + 1) else 0).

Definition slice_positions (n : nat) (start stop step : option Z)
  : res (list nat) :=
  rbind (slice_indices n start stop step) (fun '(s, e, st) =>
    Ok (map (fun k => Z.to_nat (s + Z.of_nat k * st)) (seq 0 (slice_length s e st)))).

(** The positions at which a mask is true. *)
Fixpoint mask_positions (i : nat) (m : list bool) : list nat :=
  match m with
  | [] => []
  | b :: m' => (if b then [i] else []) ++ mask_positions (S i) m'
  end.

(** The positions an indexer selects among [n] rows. *)
Definition index_positions (n : nat) (ix : indexer) : res (list nat) :=
  match ix with
  | KSlice start stop step => slice_positions n start stop step
  | KIdx l => rmapM (norm_index n) l
  | KMask m => if length m =? n then Ok (mask_positions 0 m) else Raise IndexError
  | KEllipsis => Ok (seq 0 n)
  end.

Definition view_row (h : heap) (a : ndarray) (i : nat) : list scalar :=
  default [] (view_rows h a !! i).

(** The array that exposes the rows of [a] at positions [ps]: a view. *)
Definition sub_view (a : ndarray) (ps : list nat) : ndarray :=
  {| base := base a; rows := map (fun p => rows a !!! p) ps;
     rshape := rshape a; dtype_ := dtype_ a |}.

(** [a[p]] for a valid position [p]: a view of the row, or a numpy
    scalar when the rows are scalars. *)
Definition row_item (h : heap) (a : ndarray) (p : nat) : npval :=
  match rshape a with
  | [] => NScalar (default (zero_of (dtype_ a)) (head (view_row h a p)))
  | _ :: _ => NRow (base a) (rows a !!! p) (rshape a) (dtype_ a)
  end.

(** [a[i]] for an integer [i]. *)
Definition np_getitem_int (a : ndarray) (i : Z) : M npval :=
  p <- lift (norm_index (len a) i) ;;
  h <- get_heap ;;
  ret (row_item h a p).

(** [a[ix]]: a slice or [...] gives a view, a sequence of positions or
    a mask a new array (numpy's advanced indexing copies). *)
Definition np_getitem (a : ndarray) (ix : indexer) : M ndarray :=
  ps <- lift (index_positions (len a) ix) ;;
  match ix with
  | KSlice _ _ _ | KEllipsis => ret (sub_view a ps)
  | KIdx _ | KMask _ =>
      h <- get_heap ;;
      alloc_rows (dtype_ a) (rshape a) (map (view_row h a) ps)
  end.

(** ** Broadcasting *)

(** [bcast s t data]: the elements of a value of shape [s] stretched to
    the shape [t] of the same number of dimensions; an axis stretches
    when its extent is one. *)
Fixpoint bcast (s t : list nat) (data : list scalar) : res (list scalar) :=
  match s, t with
  | [], [] => Ok data
  | sd :: s', td :: t' =>
      if sd =? td then
        rbind (rmapM (bcast s' t') (chunks sd (prod s') data))
              (fun parts => Ok (concat parts))
      else if sd =? 1 then
        rbind (bcast s' t' data) (fun part => Ok (concat (replicate td part)))
      else Raise ValueError
  | _, _ => Raise ValueError
  end.

(** [np.broadcast_to], as assignment uses it: a shorter shape is padded
    with leading ones, and a longer one may only have leading ones more. *)
Definition broadcast_to (s t : list nat) (data : list scalar)
  : res (list scalar) :=
  let ls := length s in
  let lt := length t in
  if ls <=? lt then bcast (replicate (lt - ls) 1 ++ s) t data
  else if forallb (Nat.eqb 1) (take (ls - lt) s)
       then bcast (drop (ls - lt) s) t data
       else Raise ValueError.

Fixpoint broadcast_dims (s t : list nat) : res (list nat) :=
  match s, t with
  | [], [] => Ok []
  | sd :: s', td :: t' =>
      rbind (broadcast_dims s' t') (fun r =>
        if sd =? td then Ok (sd :: r)
        else if sd =? 1 then Ok (td :: r)
        else if td =? 1 then Ok (sd :: r)
        else Raise ValueError)
  | _, _ => Raise ValueError
  end.

(** [np.broadcast_shapes] of two shapes. *)
Definition broadcast_shapes (s t : list nat) : res (list nat) :=
  let n := max (length s) (length t) in
  broadcast_dims (replicate (n - length s) 1 ++ s)
                 (replicate (n - length t) 1 ++ t).

(** An elementwise binary function of the numeric engine (a ufunc):
    the dtype of its result for the dtypes of its operands, which the
    engine settles first and which may be refused (a [TypeError], as
    for the difference of two booleans), and what it does to one pair
    of elements, which may fail too (a [ValueError], as for an integer
    raised to a negative integer). *)
Record ufunc := {
  uf_dtype : dtype -> dtype -> res dtype;
  uf_fn : scalar -> scalar -> res scalar
}.

(** A ufunc that accepts every pair of dtypes and of elements. *)
Definition total_ufunc (dt : dtype -> dtype -> dtype)
    (f : scalar -> scalar -> scalar) : ufunc :=
  {| uf_dtype := fun a b => Ok (dt a b); uf_fn := fun x y => Ok (f x y) |}.

Definition np_add : ufunc := total_ufunc promote add.

(** A ufunc on two values: the dtype is resolved, the operands are
    broadcast to their common shape ([ValueError] when there is none),
    and the function is applied element by element. *)
Definition np_elementwise (u : ufunc) (x y : tval) : res tval :=
  rbind (uf_dtype u (tdtype x) (tdtype y)) (fun d =>
  rbind (broadcast_shapes (tshape x) (tshape y)) (fun s =>
  rbind (broadcast_to (tshape x) s (tdata x)) (fun dx =>
  rbind (broadcast_to (tshape y) s (tdata y)) (fun dy =>
  rbind (rmapM (fun p => uf_fn u p.1 p.2) (zip dx dy)) (fun data =>
    Ok {| tdtype := d; tshape := s; tdata := data |}))))).

(** The callable [op] that [_create_method] is given, as it acts on
    operands of the numeric engine. pandas installs the arithmetic
    operators [+ - * / // % **] with their reflected forms and the
    orderings [< <= > >=], each of which is one ufunc (a reflected
    operator is the ufunc with its operands exchanged) and fails when
    the ufunc fails; [==] and [!=], which answer with the Python
    boolean [False] and [True] instead of failing when the ufunc fails
    (numpy declines the comparison and Python falls back on identity);
    and [divmod] with its reflected form, which returns the tuple of
    the results of two ufuncs. *)
Inductive operator :=
  | Elementwise (u : ufunc)
  | Equality (u : ufunc) (otherwise : bool)
  | Paired (u1 u2 : ufunc).

(** What an operator computes: one value or a tuple of two. *)
Inductive opval :=
  | One (t : tval)
  | Two (q r : tval).

(** [op(x, y)] on two values. *)
Definition np_binop (op : operator) (x y : tval) : res opval :=
  match op with
  | Elementwise u => rbind (np_elementwise u x y) (fun t => Ok (One t))
  | Equality u otherwise =>
      match np_elementwise u x y with
      | Ok t => Ok (One t)
      | Raise _ =>
          Ok (One {| tdtype := bool_; tshape := [];
                     tdata := [SBool otherwise] |})
      end
  | Paired u1 u2 =>
      rbind (np_elementwise u1 x y) (fun q =>
      rbind (np_elementwise u2 x y) (fun r => Ok (Two q r)))
  end.

(** ** Assignment *)

(** Store [rws] at the positions [ps] of [a], in order, cast to the
    dtype of [a]: the only operation that changes an existing buffer. *)
Definition write_rows (a : ndarray) (ps : list nat) (rws : list (list scalar))
  : M unit :=
  fun h =>
    Ok (tt, alter (fun buf =>
                     foldl (fun b pr => <[rows a !!! pr.1 := map (cast (dtype_ a)) pr.2]> b)
                           buf (zip ps rws))
                  (base a) h).

(** [a[k] = v]: [v] is broadcast to the shape of [a[k]] and stored
    cast to the dtype of [a], as numpy does with an array [v]. The
    value has been read before anything is written. (numpy is stricter
    in two cases, which are let through here: an integer array refuses
    a bare Python float that is NaN, infinite or out of range, and an
    array of one dimension refuses a value of two or more dimensions
    under a boolean mask.) *)
Definition np_setitem (a : ndarray) (k : key) (v : tval) : M unit :=
  match k with
  | KInt i =>
      p <- lift (norm_index (len a) i) ;;
      data <- lift (broadcast_to (tshape v) (rshape a) (tdata v)) ;;
      write_rows a [p] [data]
  | KSel ix =>
      ps <- lift (index_positions (len a) ix) ;;
      data <- lift (broadcast_to (tshape v) (length ps :: rshape a) (tdata v)) ;;
      write_rows a ps (chunks (length ps) (prod (rshape a)) data)
  end.

(** ** Array creation and whole-array functions *)

(** [np.full((n,) + rs, fill)]: the dtype is that of the fill value. *)
Definition np_full (n : nat) (rs : list nat) (fill : scalar) : M ndarray :=
  alloc_rows (dtype_of fill) rs (replicate n (replicate (prod rs) fill)).

(** [np.full_like(t, fill)]: shape and dtype of [t], the fill value cast. *)
Definition np_full_like (t : tval) (fill : scalar) : tval :=
  {| tdtype := tdtype t; tshape := tshape t;
     tdata := replicate (prod (tshape t)) (cast (tdtype t) fill) |}.

(** [a.copy()]: a new buffer with the rows [a] exposes. *)
Definition np_copy (a : ndarray) : M ndarray :=
  h <- get_heap ;;
  alloc_rows (dtype_ a) (rshape a) (view_rows h a).

(** [np.ascontiguousarray(a)]: [a] itself when it is contiguous. *)
Definition np_ascontiguousarray (a : ndarray) : M ndarray :=
  if c_contiguous a then ret a else np_copy a.

(** [a.astype(d, copy=copy)]: [a] itself when nothing is to convert and
    no copy is asked for. *)
Definition np_astype (a : ndarray) (d : dtype) (copy : bool) : M ndarray :=
  if negb copy && dtype_eqb (dtype_ a) d then ret a
  else h <- get_heap ;;
       alloc_rows d (rshape a) (map (map (cast d)) (view_rows h a)).

(** [np.array(a, dtype=d, copy=True)]: always a new array. *)
Definition np_array (a : ndarray) (d : dtype) : M ndarray :=
  h <- get_heap ;;
  alloc_rows d (rshape a) (map (map (cast d)) (view_rows h a)).

(** [np.asarray(a, dtype=d)]: [a] itself when no dtype is given or the
    dtype is already that of [a]. *)
Definition np_asarray (a : ndarray) (d : option dtype) : M ndarray :=
  match d with
  | None => ret a
  | Some d => np_astype a d false
  end.

(** [a.take(indices, axis=0)], in numpy's default mode [raise]. *)
Definition np_take (a : ndarray) (indices : list Z) : M ndarray :=
  ps <- lift (rmapM (norm_index (len a)) indices) ;;
  h <- get_heap ;;
  alloc_rows (dtype_ a) (rshape a) (map (view_row h a) ps).

Definition result_type (l : list dtype) : dtype := foldr promote bool_ l.

(** [np.stack(items, axis=0)]: the items must have one shape, and each
    becomes one row; it fails with [ValueError] otherwise. *)
Definition np_stack (items : list tval) : M ndarray :=
  match items with
  | [] => raise ValueError
  | t0 :: _ =>
      if forallb (fun t => bool_decide (tshape t = tshape t0)) items then
        let d := result_type (map tdtype items) in
        alloc_rows d (tshape t0) (map (fun t => map (cast d) (tdata t)) items)
      else raise ValueError
  end.

(** [np.concatenate(arrs)] along the row axis: the row shapes must
    agree; it fails with [ValueError] otherwise. *)
Definition np_concatenate (arrs : list ndarray) : M ndarray :=
  match arrs with
  | [] => raise ValueError
  | a0 :: _ =>
      if forallb (fun a => bool_decide (rshape a = rshape a0)) arrs then
        h <- get_heap ;;
        let d := result_type (map dtype_ arrs) in
        alloc_rows d (rshape a0)
          (concat (map (fun a => map (map (cast d)) (view_rows h a)) arrs))
      else raise ValueError
  end.

Definition npval_of_out (o : npout) : npval :=
  match o with OutArr a => NArr a | OutScalar s => NScalar s end.

(** A value of one or more dimensions made into a new array; a value of
    no dimension is a numpy scalar. *)
Definition alloc_value (t : tval) : M npout :=
  match tshape t with
  | [] => ret (OutScalar (default (zero_of (tdtype t)) (head (tdata t))))
  | n :: rs =>
      a <- alloc_rows (tdtype t) rs (chunks n (prod rs) (tdata t)) ;;
      ret (OutArr a)
  end.

(** The dtype [np.sum] accumulates in. *)
Definition sum_dtype (d : dtype) : dtype :=
  match d with bool_ => int64 | _ => d end.

(** How eight partial sums are combined. *)
Definition combine8 (r : list float) : float :=
  match r with
  | [r0; r1; r2; r3; r4; r5; r6; r7] =>
      (((r0 + r1) + (r2 + r3)) + ((r4 + r5) + (r6 + r7)))%float
  | _ => 0%float
  end.

(** numpy's sum of a run of floats (its [pairwise_sum]): fewer than 8
    are added to zero one after the other; up to 128 are added in 8
    interleaved partial sums, which are then combined two by two, and
    the elements after the last full block of 8 are added at the end;
    more are split in two runs, the first of a length that is a
    multiple of 8, which are summed apart. The recursion is on [fuel];
    the length of the run is enough. *)
Fixpoint pairwise_sum (fuel : nat) (a : list float) {struct fuel} : float :=
  let n := length a in
  if n <? 8 then foldl PrimFloat.add 0%float a
  else if n <=? 128 then
    let r := foldl (zip_with PrimFloat.add) (take 8 a)
                   (chunks (n / 8 - 1) 8 (drop 8 a)) in
    foldl PrimFloat.add (combine8 r) (drop (8 * (n / 8)) a)
  else
    match fuel with
    | 0 => 0%float
    | S fuel' =>
        let n2 := n / 2 - (n / 2) mod 8 in
        (pairwise_sum fuel' (take n2 a) + pairwise_sum fuel' (drop n2 a))%float
    end.

(** The elementwise sum of rows of [size] elements, in the order in
    which [np.sum(a, axis=0)] adds. The result starts as zeros. When a
    row has two elements or more, the rows are added to it one after
    the other, first to last. When a row is a single element, the
    elements form one run in memory: floats are then summed by
    [pairwise_sum] and the sum is added to the zero, which can round
    differently; integers are added one after the other, where the
    order does not matter. *)
Definition sum_rows (d : dtype) (size : nat) (rws : list (list scalar))
  : list scalar :=
  match d, size with
  | float64, 1 =>
      [SFloat (0 + pairwise_sum (length rws)
                     (map (fun r => to_float (default (zero_of d) (head r))) rws))]
  | _, _ => foldl (zip_with add) (replicate size (zero_of d)) rws
  end.

(** [np.sum(a, axis=0)]: a value of the row shape. *)
Definition np_sum0 (a : ndarray) : M npout :=
  h <- get_heap ;;
  let d := sum_dtype (dtype_ a) in
  alloc_value {| tdtype := d; tshape := rshape a;
                 tdata := sum_rows d (prod (rshape a))
                            (map (map (cast d)) (view_rows h a)) |}.

(** [np.isnan(t)]. *)
Definition np_isnan (t : tval) : tval :=
  {| tdtype := bool_; tshape := tshape t;
     tdata := map (fun s => SBool (isnan s)) (tdata t) |}.

(** [np.all(t, axis=-1)]: the last axis is reduced away. *)
Definition np_all_last (t : tval) : tval :=
  let outer := removelast (tshape t) in
  {| tdtype := bool_; tshape := outer;
     tdata := map (fun c => SBool (forallb to_bool c))
                  (chunks (prod outer) (List.last (tshape t) 1) (tdata t)) |}.

(** ** pandas helpers the column calls *)

(** [pandas.core.indexers.check_array_indexer(array, indexer)] for an
    array of [n] rows: an integer, a slice or [...] is returned as it
    is; a boolean mask must have length [n] ([IndexError] otherwise); a
    sequence of integers becomes an array of positions. *)
Definition check_indexer (n : nat) (ix : indexer) : res indexer :=
  match ix with
  | KMask m => if length m =? n then Ok ix else Raise IndexError
  | _ => Ok ix
  end.

Definition check_array_indexer (n : nat) (k : key) : res key :=
  match k with
  | KInt _ => Ok k
  | KSel ix => rbind (check_indexer n ix) (fun ix' => Ok (KSel ix'))
  end.

(** [pandas.core.indexers.validate_indices(indices, n)]: no index below
    -1 ([ValueError]) and none at or above [n] ([IndexError]). *)
Definition validate_indices (indices : list Z) (n : nat) : res unit :=
  if existsb (fun i => (i <? -1)%Z) indices then Raise ValueError
  else if existsb (fun i => (Z.of_nat n <=? i)%Z) indices then Raise IndexError
  else Ok tt.

(** ** The classes *)

(** [TensorElement]: one row of a column, a wrapper over what numpy
    returned for it ([_tensor] in the source). *)
Record TensorElement := { _etensor : npval }.

(** [TensorArray]: a column of tensors of one shape, a wrapper over an
    array whose first axis is the row axis. *)
Record TensorArray := { _tensor : ndarray }.

(** One element of a sequence given to the constructor or assigned. *)
Inductive row_arg :=
  | RElem (e : TensorElement)
  | RScalar (s : scalar)
  | RArr (a : ndarray).

(** What the constructor may be given: an array, a sequence, a row, a
    scalar, a column, or anything else. *)
Inductive init_arg :=
  | VArr (a : ndarray)
  | VSeq (l : list row_arg)
  | VElem (e : TensorElement)
  | VScalar (s : scalar)
  | VCol (c : TensorArray)
  | VOther.

(** [np.asarray(e)] for a row [e], as a value. *)
Definition asarray_elem (h : heap) (e : TensorElement) : tval :=
  npval_value h (_etensor e).

Module TensorArray.

(** The coercion of one element of the sequence in [__init__]:
    [np.asarray(v)] for a row, [np.array([v])] for a scalar, [v]
    itself otherwise. *)
Definition coerce_row (h : heap) (v : row_arg) : tval :=
  match v with
  | RElem e => asarray_elem h e
  | RScalar s => {| tdtype := dtype_of s; tshape := [1]; tdata := [s] |}
  | RArr a => value_of h a
  end.

(** [TensorArray(values, make_contiguous)]: the branches of the
    source in its order. An array is adopted as it is; a column is
    refused. *)
Definition __init__ (values : init_arg) (make_contiguous : bool)
  : M TensorArray :=
  t <- match values with
       | VArr a => ret a
       | VSeq l =>
           if length l =? 0 then alloc_rows float64 [] []
           else h <- get_heap ;; np_stack (map (coerce_row h) l)
       | VElem e => h <- get_heap ;; np_stack [asarray_elem h e]
       | VScalar s => alloc_rows (dtype_of s) [1] [[s]]
       | VCol _ => raise TypeError
       | VOther => raise TypeError
       end ;;
  t' <- (if negb (c_contiguous t) && make_contiguous
         then np_ascontiguousarray t else ret t) ;;
  ret {| _tensor := t' |}.

(** [_from_sequence(scalars, copy=copy)]: unlike the constructor it
    accepts a column, whose buffer it copies only when asked to. *)
Definition _from_sequence (scalars : init_arg) (copy : bool)
  : M TensorArray :=
  scalars' <- match scalars with
              | VArr a => if copy then a' <- np_copy a ;; ret (VArr a')
                          else ret scalars
              | VCol c => if copy then a' <- np_copy (_tensor c) ;; ret (VArr a')
                          else ret (VArr (_tensor c))
              | _ => ret scalars
              end ;;
  __init__ scalars' true.

(** [_concat_same_type(to_concat)]. *)
Definition _concat_same_type (to_concat : list TensorArray)
  : M TensorArray :=
  r <- np_concatenate (map _tensor to_concat) ;;
  __init__ (VArr r) true.

(** [isna()]: [np.all(np.isnan(self._tensor), axis=-1)], as a value. *)
Definition isna (self : TensorArray) : M tval :=
  h <- get_heap ;;
  ret (np_all_last (np_isnan (value_of h (_tensor self)))).

(** [copy()]. *)
Definition copy (self : TensorArray) : M TensorArray :=
  r <- np_copy (_tensor self) ;;
  __init__ (VArr r) true.

(** [take(indices, allow_fill, fill_value)]: with [allow_fill] the
    result is allocated full of the fill value and the rows of the
    indices that are not negative are stored into it one by one. *)
Definition take (self : TensorArray) (indices : list Z)
    (allow_fill : bool) (fill_value : option scalar) : M TensorArray :=
  values <-
    (if allow_fill then
       lift (validate_indices indices (len (_tensor self))) ;;;
       let fill_value := default NaN fill_value in
       values <- np_full (length indices) (rshape (_tensor self)) fill_value ;;
       for_each (zip (seq 0 (length indices)) indices) (fun '(i, idx) =>
         if (0 <=? idx)%Z then
           row <- np_getitem_int (_tensor self) idx ;;
           h <- get_heap ;;
           np_setitem values (KInt (Z.of_nat i)) (npval_value h row)
         else ret tt) ;;;
       ret values
     else np_take (_tensor self) indices) ;;
  __init__ (VArr values) true.

(** The target of [astype]: the tensor type itself or a numeric
    dtype (the conversion to strings is left out). *)
Inductive astype_target :=
  | ToTensorType
  | ToDtype (d : dtype).

Inductive astype_result :=
  | AsColumn (c : TensorArray)
  | AsArray (a : ndarray).

(** [astype(dtype, copy=copy)]: a column for the tensor type, an
    array for a numeric dtype. *)
Definition astype (self : TensorArray) (target : astype_target) (copy : bool)
  : M astype_result :=
  match target with
  | ToTensorType =>
      t <- (if copy then np_copy (_tensor self) else ret (_tensor self)) ;;
      c <- __init__ (VArr t) true ;;
      ret (AsColumn c)
  | ToDtype d =>
      a <- np_astype (_tensor self) d copy ;;
      ret (AsArray a)
  end.

Definition __len__ (self : TensorArray) : nat := len (_tensor self).

Inductive getitem_result :=
  | Element (e : TensorElement)
  | Column (c : TensorArray).

(** [self[item]]: a row for an integer, a column over
    [self._tensor[item]] otherwise. *)
Definition __getitem__ (self : TensorArray) (item : key)
  : M getitem_result :=
  match item with
  | KInt i =>
      value <- np_getitem_int (_tensor self) i ;;
      ret (Element {| _etensor := value |})
  | KSel ix =>
      ix' <- lift (check_indexer (__len__ self) ix) ;;
      r <- np_getitem (_tensor self) ix' ;;
      c <- __init__ (VArr r) true ;;
      ret (Column c)
  end.

(** What may be assigned: nothing, a row, a list, an array, a scalar
    or a column. *)
Inductive set_arg :=
  | SNone
  | SElem (e : TensorElement)
  | SList (l : list row_arg)
  | SArr (a : ndarray)
  | SScalar (s : scalar)
  | SCol (c : TensorArray).

(** One element of an assigned list as numpy reads it: a row has been
    replaced by [np.asarray] of it, a scalar has no dimension. *)
Definition list_item (h : heap) (v : row_arg) : tval :=
  match v with
  | RElem e => asarray_elem h e
  | RScalar s => {| tdtype := dtype_of s; tshape := []; tdata := [s] |}
  | RArr a => value_of h a
  end.

(** The value numpy makes of the right-hand side of an assignment. *)
Definition assigned_value (h : heap) (value : set_arg) : res tval :=
  match value with
  | SNone => Raise TypeError
  | SElem e => Ok (asarray_elem h e)
  | SList l =>
      let items := map (list_item h) l in
      match items with
      | [] => Ok {| tdtype := float64; tshape := [0]; tdata := [] |}
      | t0 :: _ =>
          if forallb (fun t => bool_decide (tshape t = tshape t0)) items then
            Ok {| tdtype := result_type (map tdtype items);
                  tshape := length items :: tshape t0;
                  tdata := concat (map tdata items) |}
          else Raise ValueError
      end
  | SArr a => Ok (value_of h a)
  | SScalar s => Ok {| tdtype := dtype_of s; tshape := []; tdata := [s] |}
  | SCol c => Ok (value_of h (_tensor c))
  end.

(** [value is None or isinstance(value, Sequence) and len(value) == 0]. *)
Definition is_empty_value (value : set_arg) : bool :=
  match value with
  | SNone | SList [] => true
  | _ => false
  end.

(** [self[key] = value] (a pandas Series as the value is left out):
    [None] or an empty sequence stores NaN at the key; the last branch
    of the source refuses a key that is no integer, slice or array. *)
Definition __setitem__ (self : TensorArray) (key : key) (value : set_arg)
  : M unit :=
  key <- lift (check_array_indexer (__len__ self) key) ;;
  if is_empty_value value then
    sel <- match key with
           | KInt i => np_getitem_int (_tensor self) i
           | KSel ix => r <- np_getitem (_tensor self) ix ;; ret (NArr r)
           end ;;
    h <- get_heap ;;
    let nan_fill := np_full_like (npval_value h sel) NaN in
    np_setitem (_tensor self) key nan_fill
  else
    match key with
    | KInt _ | KSel (KSlice _ _ _) | KSel (KIdx _) | KSel (KMask _) =>
        h <- get_heap ;;
        v <- lift (assigned_value h value) ;;
        np_setitem (_tensor self) key v
    | KSel KEllipsis => raise NotImplementedError
    end.

(** [_reduce(name)]: the constructor is given what [np.sum] returned,
    an array or, for a column of scalars, a numpy scalar. *)
Definition _reduce (self : TensorArray) (name : string) : M TensorArray :=
  if String.eqb name "sum"%string then
    s <- np_sum0 (_tensor self) ;;
    __init__ (match s with OutArr a => VArr a | OutScalar x => VScalar x end) true
  else raise NotImplementedError.

(** [to_numpy(dtype, copy, na_value)]; the source does not use
    [na_value]. Without a dtype and without [copy] the array of the
    column itself is returned; [astype] is called with its default
    [copy=True]. *)
Definition to_numpy (self : TensorArray) (dtype : option dtype) (copy : bool)
  : M ndarray :=
  match dtype with
  | Some d =>
      if copy then np_array (_tensor self) d
      else np_astype (_tensor self) d true
  | None =>
      if copy then np_copy (_tensor self) else ret (_tensor self)
  end.

(** [__array__(dtype)]. *)
Definition __array__ (self : TensorArray) (dtype : option dtype)
  : M ndarray :=
  np_asarray (_tensor self) dtype.

End TensorArray.

(** ** The operator mixin *)

(** What [op] returned, once in memory: one result or a tuple of two. *)
Inductive opout :=
  | Single (o : npout)
  | Tuple (q r : npout).

(** [op(lvalues, rvalues)] in the numeric engine: both operands are
    read, each result is new. The model covers operands in the dtypes
    of the engine. Two cases are outside it, and the statements leave
    them out: a Python integer beyond int64, which the engine treats
    as an object, and a tuple as the left operand, to which Python
    applies its own operators (as a right operand a tuple is read as
    the array numpy makes of it). *)
Definition apply_op (op : operator) (lvalues rvalues : npval) : M opout :=
  h <- get_heap ;;
  v <- lift (np_binop op (npval_value h lvalues) (npval_value h rvalues)) ;;
  match v with
  | One t => o <- alloc_value t ;; ret (Single o)
  | Two q r =>
      q' <- alloc_value q ;;
      r' <- alloc_value r ;;
      ret (Tuple q' r')
  end.

(** The right operand of a binary operator: a column, a row, or
    anything the numeric engine takes as it is (an array or a scalar). *)
Inductive operand :=
  | OfColumn (c : TensorArray)
  | OfElement (e : TensorElement)
  | OfValue (v : npval).

(** What [TensorOpsMixin] needs of a class [cls] that mixes it in: the
    attribute [_tensor] of an instance and the constructor [cls(res)]. *)
Class TensorOpsMixin (cls : Type) := {
  tensor_of : cls -> npval;
  construct : opout -> M cls
}.

(** [TensorElement(res)] keeps what it is given. *)
#[export] Instance TensorElement_ops : TensorOpsMixin TensorElement := {|
  tensor_of := _etensor;
  construct := fun res =>
    ret {| _etensor := match res with
                       | Single o => npval_of_out o
                       | Tuple q r => NPair q r
                       end |}
|}.

(** One element of a tuple of results, as the constructor meets it in
    a sequence. *)
Definition row_of_out (o : npout) : row_arg :=
  match o with OutArr a => RArr a | OutScalar s => RScalar s end.

(** [TensorArray(res)]: an array is adopted, a scalar takes the scalar
    branch of the constructor, and a tuple its sequence branch. *)
#[export] Instance TensorArray_ops : TensorOpsMixin TensorArray := {|
  tensor_of := fun self => NArr (_tensor self);
  construct := fun res =>
    TensorArray.__init__
      (match res with
       | Single (OutArr a) => VArr a
       | Single (OutScalar s) => VScalar s
       | Tuple q r => VSeq [row_of_out q; row_of_out r]
       end) true
|}.

(** [_create_method(cls, op)] returns the method [_binop]. *)
Definition _create_method (cls : Type) `{TensorOpsMixin cls} (op : operator)
  : cls -> operand -> M cls :=
  fun self other =>
    let lvalues := tensor_of self in
    let rvalues := match other with
                   | OfColumn c => NArr (_tensor c)
                   | OfElement e => _etensor e
                   | OfValue v => v
                   end in
    res <- apply_op op lvalues rvalues ;;
    construct res.

Definition __add__ (cls : Type) `{TensorOpsMixin cls} : cls -> operand -> M cls :=
  _create_method cls (Elementwise np_add).

(** [np.equal] on one pair of elements, compared in their common dtype. *)
Definition equal (x y : scalar) : scalar :=
  match promote (dtype_of x) (dtype_of y) with
  | bool_ => SBool (Bool.eqb (to_bool x) (to_bool y))
  | int64 => SBool (to_int x =? to_int y)%Z
  | float64 => SBool (PrimFloat.eqb (to_float x) (to_float y))
  end.

Definition np_equal : ufunc := total_ufunc (fun _ _ => bool_) equal.

(** [np.not_equal] on one pair of elements. *)
Definition not_equal (x y : scalar) : scalar :=
  SBool (negb (to_bool (equal x y))).

Definition np_not_equal : ufunc := total_ufunc (fun _ _ => bool_) not_equal.

(** Two of the comparison operators [_add_comparison_ops] installs. *)
Definition __eq__ (cls : Type) `{TensorOpsMixin cls} : cls -> operand -> M cls :=
  _create_method cls (Equality np_equal false).

Definition __ne__ (cls : Type) `{TensorOpsMixin cls} : cls -> operand -> M cls :=
  _create_method cls (Equality np_not_equal true).

(** ** Vocabulary of the statements *)

(** [h'] is [h] with buffers added: nothing that was there has changed. *)
Definition extends (h h' : heap) : Prop := exists k, h' = h ++ k.

(** From [h] to [h'] no buffer of [h] other than [b] has changed. *)
Definition unchanged_except (b : nat) (h h' : heap) : Prop :=
  length h <= length h' /\
  forall b', b' <> b -> b' < length h -> h' !! b' = h !! b'.

(** The buffer of [a] did not exist in [h]: it shares memory with no
    array of [h]. *)
Definition fresh_in (h : heap) (a : ndarray) : Prop := length h <= base a.

(** Element [j] of a row. *)
Definition elem (r : list scalar) (j : nat) : scalar :=
  default (SInt 0) (r !! j).

(** The rows a key targets in a column of [n] rows, when the key is
    valid. *)
Definition targets (n : nat) (k : key) : res (list nat) :=
  match k with
  | KInt i => rbind (norm_index n i) (fun p => Ok [p])
  | KSel ix => rbind (check_indexer n ix) (index_positions n)
  end.

(** What [isna] is to say of each row: whether all its elements are NaN. *)
Definition all_nan (r : list scalar) : bool := forallb isnan r.

(** What slot [i] of [take] with fill holds for the index [idx]: the
    source row cast to the dtype of the fill value, or a row of fill
    values when the index is negative. *)
Definition take_fill_row (h : heap) (t : ndarray) (fill : scalar) (idx : Z)
  : list scalar :=
  if (0 <=? idx)%Z
  then map (cast (dtype_of fill)) (view_row h t (Z.to_nat idx))
  else replicate (prod (rshape t)) fill.

(** The raw operand [_binop] hands to the numeric engine for [other]:
    the buffer of a column or of a row, [other] itself otherwise. *)
Definition raw_operand (other : operand) : npval :=
  match other with
  | OfColumn c => NArr (_tensor c)
  | OfElement e => _etensor e
  | OfValue v => v
  end.

(** What numpy handed out is well formed in a heap (a tuple is no
    value of numpy's). *)
Definition wf_npval (h : heap) (v : npval) : bool :=
  match v with
  | NArr a => wf_array h a
  | NRow b p rs d =>
      match h !! b ≫= (.!! p) with
      | Some r => wf_row d (prod rs) r
      | None => false
      end
  | NScalar _ => true
  | NPair _ _ => false
  end.

(** What is assigned is well formed in a heap. *)
Definition wf_row_arg (h : heap) (v : row_arg) : bool :=
  match v with
  | RElem e => wf_npval h (_etensor e)
  | RScalar _ => true
  | RArr a => wf_array h a
  end.

Definition wf_set_arg (h : heap) (value : TensorArray.set_arg) : bool :=
  match value with
  | TensorArray.SNone | TensorArray.SScalar _ => true
  | TensorArray.SElem e => wf_npval h (_etensor e)
  | TensorArray.SList l => forallb (wf_row_arg h) l
  | TensorArray.SArr a => wf_array h a
  | TensorArray.SCol c => wf_array h (_tensor c)
  end.

(** A scalar that assignment stores as it is converted by [cast]: an
    integer must be an int64, and a float goes into an integer array
    only when it is finite and within the range of int64 (numpy raises
    for a Python float that is NaN, infinite or out of range). *)
Definition in_int64 (z : Z) : bool := ((int64_min <=? z) && (z <? 2 ^ 63))%Z.

Definition storable (d : dtype) (s : scalar) : bool :=
  match s with
  | SBool _ => true
  | SInt z => in_int64 z
  | SFloat f =>
      match d with
      | int64 => PrimFloat.leb (-9223372036854775808)%float f
                 && PrimFloat.ltb f 9223372036854775808%float
      | _ => true
      end
  end.

(** An operand that the numeric engine computes with in its own
    dtypes: a well-formed array or row, or a scalar it can hold (a
    Python integer beyond int64 is an object to it). *)
Definition wf_operand (h : heap) (v : npval) : bool :=
  match v with
  | NScalar s => storable (dtype_of s) s
  | _ => wf_npval h v
  end.

(** ** Sample columns *)

Definition frow (l : list float) : list scalar := map SFloat l.
Definition irow (l : list Z) : list scalar := map SInt l.

(** The array that exposes all [n] rows of buffer 0. *)
Definition whole (d : dtype) (rs : list nat) (n : nat) : ndarray :=
  {| base := 0; rows := seq 0 n; rshape := rs; dtype_ := d |}.

(** The column of rows [[1,2],[NaN,NaN],[3,NaN]], alone in its heap. *)
Definition nan_heap : heap := [[frow [1; 2]; [NaN; NaN]; [SFloat 3; NaN]]]%float.
Definition nan_col : TensorArray := {| _tensor := whole float64 [2] 3 |}.

(** The column of rows [[1,1],[2,2],[3,3]] of integers. *)
Definition int_heap : heap := [[irow [1; 1]; irow [2; 2]; irow [3; 3]]]%Z.
Definition int_col : TensorArray := {| _tensor := whole int64 [2] 3 |}.

(** The column with the one row [[1.5]]. *)
Definition half_heap : heap := [[[SFloat 1.5]]].
Definition half_col : TensorArray := {| _tensor := whole float64 [1] 1 |}.

(** The column with the one row [[[NaN, NaN], [1, 2]]], of shape (1, 2, 2). *)
Definition cube_heap : heap := [[[NaN; NaN; SFloat 1; SFloat 2]]].
Definition cube_col : TensorArray := {| _tensor := whole float64 [2; 2] 1 |}.

(** The integer column with the one row [[1, 2, 3]], next to the column
    [[1,1],[2,2],[3,3]]: their shapes (1, 3) and (3, 2) do not
    broadcast. *)
Definition wide_heap : heap := (int_heap ++ [[irow [1; 2; 3]]])%Z.
Definition wide_col : TensorArray :=
  {| _tensor := {| base := 1; rows := [0]; rshape := [3]; dtype_ := int64 |} |}.

(** The integer column with the one row [[1, 2]]. *)
Definition one_heap : heap := [[irow [1; 2]]]%Z.
Definition one_col : TensorArray := {| _tensor := whole int64 [2] 1 |}.

(** * Lemmas on lists of rows *)

Section Chunks.
Context {A : Type}.
Implicit Types (l : list A) (ls : list (list A)).

Lemma length_chunks n size l : length (chunks n size l) = n.
Proof. revert l; induction n as [|n IH]; intros l; simpl; [done|]. by rewrite IH. Qed.

Lemma chunks_concat size ls :
  Forall (fun r => length r = size) ls ->
  chunks (length ls) size (concat ls) = ls.
Proof.
  induction 1 as [|r ls Hr _ IH]; simpl; [done|].
  rewrite take_app_length' by done.
  rewrite drop_app_length' by done.
  by rewrite IH.
Qed.

Lemma concat_chunks n size l :
  length l = n * size -> concat (chunks n size l) = l.
Proof.
  revert l; induction n as [|n IH]; intros l Hl; simpl in *.
  - by destruct l.
  - rewrite IH; [apply take_drop|].
    rewrite length_drop. lia.
Qed.

Lemma Forall_length_chunks n size l :
  length l = n * size -> Forall (fun r => length r = size) (chunks n size l).
Proof.
  revert l; induction n as [|n IH]; intros l Hl; simpl in *; constructor.
  - rewrite length_take. lia.
  - apply IH. rewrite length_drop. lia.
Qed.

End Chunks.

Lemma chunks_fmap {A B} (f : A -> B) n size (l : list A) :
  chunks n size (map f l) = map (map f) (chunks n size l).
Proof.
  revert l; induction n as [|n IH]; intros l; simpl; [done|].
  rewrite <- IH. f_equal.
  - symmetry. apply (fmap_take f).
  - f_equal. symmetry. apply (fmap_drop f).
Qed.

Lemma map_lookup_seq {A} (d : A) (l : list A) :
  map (fun p => default d (l !! p)) (seq 0 (length l)) = l.
Proof.
  apply list_eq. intros i.
  rewrite list_lookup_fmap.
  destruct (decide (i < length l)) as [Hi|Hi].
  - rewrite lookup_seq_lt by done. simpl.
    destruct (lookup_lt_is_Some_2 l i Hi) as [x Hx]. by rewrite Hx.
  - rewrite lookup_seq_ge by lia. simpl.
    symmetry. apply lookup_ge_None. lia.
Qed.

(** * The heap monad *)

Lemma bind_Ok {A B} (m : M A) (k : A -> M B) h r :
  bind m k h = Ok r <-> exists a h1, m h = Ok (a, h1) /\ k a h1 = Ok r.
Proof.
  unfold bind. split.
  - destruct (m h) as [[a h1]|e]; [eauto|discriminate].
  - intros (a & h1 & -> & Hk). done.
Qed.

Lemma lift_Ok {A} (r : res A) h a h' :
  lift r h = Ok (a, h') <-> r = Ok a /\ h' = h.
Proof.
  unfold lift. destruct r; split; try discriminate; try (intros [? ?]; discriminate).
  - by intros [= -> ->].
  - by intros [[= ->] ->].
Qed.

Lemma rbind_Ok {A B} (r : res A) (k : A -> res B) b :
  rbind r k = Ok b <-> exists a, r = Ok a /\ k a = Ok b.
Proof.
  destruct r; simpl; split; eauto; try discriminate.
  - by intros (? & [= ->] & ?).
  - by intros (? & ? & ?).
Qed.

(** Peel one step of a monadic computation in hypothesis or goal. *)
Ltac msimpl :=
  unfold ret, raise, get_heap, lift, bind in *; simpl in *.

(** * Reading rows through the heap *)

Lemma buf_row_app h k b p : b < length h -> buf_row (h ++ k) b p = buf_row h b p.
Proof. intros Hb. unfold buf_row. by rewrite lookup_app_l. Qed.

Lemma view_rows_app h k a :
  base a < length h -> view_rows (h ++ k) a = view_rows h a.
Proof.
  intros Hb. unfold view_rows. apply map_ext. intros p. by apply buf_row_app.
Qed.

Lemma buf_row_new h rws p : buf_row (h ++ [rws]) (length h) p = default [] (rws !! p).
Proof.
  unfold buf_row. rewrite lookup_app_r by lia.
  by rewrite Nat.sub_diag.
Qed.

(** The array that [alloc_rows] returns exposes the rows it was given. *)
Lemma view_rows_alloc h d rs rws :
  view_rows (h ++ [rws])
    {| base := length h; rows := seq 0 (length rws); rshape := rs; dtype_ := d |}
  = rws.
Proof.
  unfold view_rows; simpl.
  etransitivity; [|apply (map_lookup_seq [] rws)].
  apply map_ext. intros p. apply buf_row_new.
Qed.

Lemma length_view_rows h a : length (view_rows h a) = len a.
Proof. unfold view_rows, len. apply length_map. Qed.

Lemma view_row_lookup h a i r :
  view_rows h a !! i = Some r -> view_row h a i = r.
Proof. unfold view_row. by intros ->. Qed.

Lemma view_row_lt h a i :
  i < len a -> view_rows h a !! i = Some (view_row h a i).
Proof.
  intros Hi. unfold view_row.
  destruct (lookup_lt_is_Some_2 (view_rows h a) i) as [r Hr].
  - by rewrite length_view_rows.
  - by rewrite Hr.
Qed.

Lemma view_row_app h k a i :
  base a < length h -> view_row (h ++ k) a i = view_row h a i.
Proof. intros Hb. unfold view_row. by rewrite view_rows_app. Qed.

(** Only the buffer an array is a window on matters to what it shows. *)
Lemma view_rows_ext h h' a :
  h' !! base a = h !! base a -> view_rows h' a = view_rows h a.
Proof.
  intros E. unfold view_rows. apply map_ext. intros p.
  unfold buf_row. by rewrite E.
Qed.

(** * Contiguity *)

Lemma c_contiguous_seq b n rs d :
  c_contiguous {| base := b; rows := seq 0 n; rshape := rs; dtype_ := d |} = true.
Proof.
  unfold c_contiguous, len; simpl.
  rewrite length_seq.
  replace (hd 0 (seq 0 n)) with 0 by (by destruct n).
  rewrite bool_decide_eq_true_2 by done.
  by rewrite orb_true_r.
Qed.

(** The constructor adopts a contiguous array as it is. *)
Lemma init_contiguous a mc h :
  c_contiguous a = true ->
  TensorArray.__init__ (VArr a) mc h = Ok ({| _tensor := a |}, h).
Proof.
  intros Hc. unfold TensorArray.__init__. msimpl. by rewrite Hc.
Qed.

(** What the constructor does with an array: it keeps it, or copies it
    into a new buffer when it is not contiguous. *)
Lemma init_array a h :
  TensorArray.__init__ (VArr a) true h =
    if c_contiguous a then Ok ({| _tensor := a |}, h)
    else Ok ({| _tensor := {| base := length h; rows := seq 0 (len a);
                              rshape := rshape a; dtype_ := dtype_ a |} |},
             h ++ [view_rows h a]).
Proof.
  unfold TensorArray.__init__, np_ascontiguousarray, np_copy, alloc_rows. msimpl.
  destruct (c_contiguous a); simpl; [done|].
  by rewrite length_view_rows.
Qed.

(** * Integer indices *)

Lemma norm_index_nonneg n i :
  (0 <= i < Z.of_nat n)%Z -> norm_index n i = Ok (Z.to_nat i).
Proof.
  intros Hi. unfold norm_index.
  destruct (Z.ltb_spec i 0); [lia|].
  destruct (Z.leb_spec 0 i); [|lia].
  destruct (Z.ltb_spec i (Z.of_nat n)); [done|lia].
Qed.

Lemma norm_index_neg n i :
  (- Z.of_nat n <= i < 0)%Z -> norm_index n i = Ok (Z.to_nat (Z.of_nat n + i)).
Proof.
  intros Hi. unfold norm_index.
  destruct (Z.ltb_spec i 0); [|lia].
  destruct (Z.leb_spec 0 (i + Z.of_nat n)); [|lia].
  destruct (Z.ltb_spec (i + Z.of_nat n) (Z.of_nat n)); [|lia].
  by rewrite Z.add_comm.
Qed.

Lemma norm_index_out n i :
  (i < - Z.of_nat n \/ Z.of_nat n <= i)%Z -> norm_index n i = Raise IndexError.
Proof.
  intros Hi. unfold norm_index.
  destruct (Z.ltb_spec i 0).
  - destruct (Z.leb_spec 0 (i + Z.of_nat n)); [|done].
    destruct (Z.ltb_spec (i + Z.of_nat n) (Z.of_nat n)); [lia|done].
  - destruct (Z.leb_spec 0 i); [|done].
    destruct (Z.ltb_spec i (Z.of_nat n)); [lia|done].
Qed.

Lemma norm_index_in n i :
  (- Z.of_nat n <= i < Z.of_nat n)%Z -> norm_index n i = Ok (position n i).
Proof.
  intros Hi. unfold position. destruct (Z.ltb_spec i 0).
  - apply norm_index_neg. lia.
  - apply norm_index_nonneg. lia.
Qed.

Lemma norm_index_Ok n i p :
  norm_index n i = Ok p ->
  (- Z.of_nat n <= i < Z.of_nat n)%Z /\ p = position n i /\ p < n.
Proof.
  intros H.
  destruct (decide (- Z.of_nat n <= i < Z.of_nat n)%Z) as [Hi|Hi].
  - rewrite norm_index_in in H by done. injection H as <-.
    split; [done|]. split; [done|].
    unfold position. destruct (Z.ltb_spec i 0); lia.
  - rewrite norm_index_out in H by lia. discriminate.
Qed.

(** Resolving a sequence of indices: all of them in range, or an
    [IndexError]. *)
Lemma rmapM_norm_index_in n l :
  Forall (fun i => (- Z.of_nat n <= i < Z.of_nat n)%Z) l ->
  rmapM (norm_index n) l = Ok (map (position n) l).
Proof.
  induction 1 as [|i l Hi _ IH]; simpl; [done|].
  by rewrite norm_index_in, IH.
Qed.

Lemma rmapM_norm_index_out n l :
  Exists (fun i => (i < - Z.of_nat n \/ Z.of_nat n <= i)%Z) l ->
  rmapM (norm_index n) l = Raise IndexError.
Proof.
  induction l as [|i l IH]; intros HE; [by apply Exists_nil in HE|].
  simpl.
  destruct (decide (- Z.of_nat n <= i < Z.of_nat n)%Z) as [Hi|Hi].
  - rewrite norm_index_in by done. simpl.
    apply Exists_cons in HE as [HE|HE]; [lia|]. by rewrite IH.
  - by rewrite norm_index_out by lia.
Qed.

(** * Well-formed arrays *)

Lemma wf_row_spec d size r :
  wf_row d size r = true <->
  length r = size /\ Forall (fun s => dtype_of s = d) r.
Proof.
  unfold wf_row. rewrite andb_true_iff, Nat.eqb_eq, forallb_forall, Forall_forall.
  split; intros [E F]; (split; [done|]); intros s Hs.
  - apply list_elem_of_In, F in Hs. by destruct (dtype_of s), d.
  - apply list_elem_of_In, F in Hs. by destruct (dtype_of s), d.
Qed.

Lemma wf_array_base h a : wf_array h a = true -> base a < length h.
Proof.
  unfold wf_array. rewrite !andb_true_iff. intros [[H _] _].
  by apply Nat.ltb_lt in H.
Qed.

Lemma wf_array_NoDup h a : wf_array h a = true -> NoDup (rows a).
Proof.
  unfold wf_array. rewrite !andb_true_iff. intros [[_ H] _].
  by apply bool_decide_eq_true in H.
Qed.

Lemma wf_array_rows h a :
  wf_array h a = true ->
  Forall (fun r => wf_row (dtype_ a) (prod (rshape a)) r = true) (view_rows h a).
Proof.
  unfold wf_array. rewrite !andb_true_iff. intros [_ H].
  rewrite forallb_forall in H.
  unfold view_rows. apply Forall_fmap, Forall_forall. intros p Hp.
  apply list_elem_of_In, H in Hp. simpl. unfold buf_row.
  by destruct (h !! base a ≫= (.!! p)).
Qed.

Lemma wf_view_row h a i :
  wf_array h a = true -> i < len a ->
  length (view_row h a i) = prod (rshape a) /\
  Forall (fun s => dtype_of s = dtype_ a) (view_row h a i).
Proof.
  intros Hwf Hi. apply wf_row_spec.
  eapply (Forall_lookup_1 _ _ _ _ (wf_array_rows _ _ Hwf)).
  by apply view_row_lt.
Qed.

Lemma wf_rows_length h a :
  wf_array h a = true ->
  Forall (fun r => length r = prod (rshape a)) (view_rows h a).
Proof.
  intros Hwf. eapply Forall_impl; [by apply wf_array_rows|].
  intros r Hr. simpl in Hr. by apply wf_row_spec in Hr as [? _].
Qed.

Lemma view_row_buf h a i :
  i < len a -> view_row h a i = buf_row h (base a) (rows a !!! i).
Proof.
  intros Hi. unfold view_row, view_rows.
  rewrite list_lookup_fmap.
  destruct (lookup_lt_is_Some_2 (rows a) i Hi) as [p Hp].
  rewrite Hp. simpl. by rewrite (list_lookup_total_correct _ _ _ Hp).
Qed.

(** The value of [a[p]] is row [p] of [a]. *)
Lemma row_item_value h a p :
  wf_array h a = true -> p < len a ->
  npval_value h (row_item h a p) =
    {| tdtype := dtype_ a; tshape := rshape a; tdata := view_row h a p |}.
Proof.
  intros Hwf Hp. unfold row_item.
  destruct (wf_view_row h a p Hwf Hp) as [Hlen Hty].
  destruct (rshape a) as [|d rs] eqn:Ers; simpl.
  - simpl in Hlen.
    destruct (view_row h a p) as [|s [|? ?]]; try discriminate. simpl.
    apply Forall_cons in Hty as [-> _]. done.
  - by rewrite <- view_row_buf.
Qed.

(** * Integer row access *)

(** C10: for a column of n rows and an integer i with -n <= i < 0,
    [column[i]] does not fail and returns the row view of the row at
    position n + i; the heap is left as it was. *)
Theorem getitem_negative_index h (self : TensorArray) (i : Z) :
  wf_array h (_tensor self) = true ->
  (- Z.of_nat (TensorArray.__len__ self) <= i < 0)%Z ->
  exists e,
    TensorArray.__getitem__ self (KInt i) h = Ok (TensorArray.Element e, h) /\
    npval_value h (_etensor e) =
      {| tdtype := dtype_ (_tensor self);
         tshape := rshape (_tensor self);
         tdata := view_row h (_tensor self)
                    (Z.to_nat (Z.of_nat (TensorArray.__len__ self) + i)) |}.
Proof.
  intros Hwf Hi. unfold TensorArray.__len__ in *.
  eexists. split.
  - unfold TensorArray.__getitem__, np_getitem_int. msimpl.
    rewrite norm_index_neg by done. reflexivity.
  - simpl. apply row_item_value; [done|]. lia.
Qed.

Lemma getitem_negative_index_witness :
  exists e,
    TensorArray.__getitem__ nan_col (KInt (-1)) nan_heap
      = Ok (TensorArray.Element e, nan_heap) /\
    npval_value nan_heap (_etensor e) =
      {| tdtype := float64; tshape := [2]; tdata := [SFloat 3; NaN] |}.
Proof.
  apply (getitem_negative_index nan_heap nan_col (-1)).
  - reflexivity.
  - unfold TensorArray.__len__, len. simpl. lia.
Defined.

(** * Gather without fill *)

Lemma take_gather_eq (self : TensorArray) indices fv h :
  TensorArray.take self indices false fv h =
    match rmapM (norm_index (TensorArray.__len__ self)) indices with
    | Ok ps =>
        Ok ({| _tensor := {| base := length h; rows := seq 0 (length ps);
                             rshape := rshape (_tensor self);
                             dtype_ := dtype_ (_tensor self) |} |},
            h ++ [map (view_row h (_tensor self)) ps])
    | Raise e => Raise e
    end.
Proof.
  unfold TensorArray.take, np_take, TensorArray.__len__, alloc_rows. msimpl.
  destruct (rmapM _ indices) as [ps|e]; [|done]. simpl.
  rewrite length_map.
  pose proof (c_contiguous_seq (length h) (length ps) (rshape (_tensor self))
                (dtype_ (_tensor self))) as Hc.
  unfold TensorArray.__init__. msimpl. by rewrite Hc.
Qed.

(** C5, as amended: with [allow_fill] false, [take] on a column of n
    rows succeeds when every index lies in [-n, n), and row k of the
    result is the source row at the position indices[k] denotes
    (indices[k] itself when it is not negative, n + indices[k] when it
    is); it fails with an [IndexError] when some index lies outside
    [-n, n). *)
Theorem take_no_fill h (self : TensorArray) (indices : list Z) fv :
  let n := TensorArray.__len__ self in
  (Forall (fun i => (- Z.of_nat n <= i < Z.of_nat n)%Z) indices ->
   exists c h',
     TensorArray.take self indices false fv h = Ok (c, h') /\
     dtype_ (_tensor c) = dtype_ (_tensor self) /\
     shape (_tensor c) = length indices :: rshape (_tensor self) /\
     view_rows h' (_tensor c) =
       map (fun i => view_row h (_tensor self) (position n i)) indices) /\
  (Exists (fun i => (i < - Z.of_nat n \/ Z.of_nat n <= i)%Z) indices ->
   TensorArray.take self indices false fv h = Raise IndexError).
Proof.
  intros n. split.
  - intros Hin. rewrite take_gather_eq.
    fold n. rewrite (rmapM_norm_index_in n indices Hin).
    eexists _, _. split; [reflexivity|]. simpl.
    split; [done|]. split.
    + unfold shape, len. simpl. by rewrite length_seq, length_map.
    + rewrite <- (length_map (view_row h (_tensor self)) (map (position n) indices)).
      rewrite view_rows_alloc. by rewrite map_map.
  - intros Hout. rewrite take_gather_eq.
    fold n. by rewrite (rmapM_norm_index_out n indices Hout).
Qed.

Lemma take_no_fill_witness :
  (exists c h',
     TensorArray.take nan_col [2; 0; -1]%Z false None nan_heap = Ok (c, h') /\
     dtype_ (_tensor c) = float64 /\
     shape (_tensor c) = [3; 2] /\
     view_rows h' (_tensor c) = [[SFloat 3; NaN]; frow [1; 2]; [SFloat 3; NaN]]%float) /\
  TensorArray.take nan_col [2; 3]%Z false None nan_heap = Raise IndexError.
Proof.
  split.
  - apply (take_no_fill nan_heap nan_col [2; 0; -1]%Z None).
    unfold TensorArray.__len__, len. simpl.
    repeat constructor; lia.
  - apply (take_no_fill nan_heap nan_col [2; 3]%Z None).
    unfold TensorArray.__len__, len. simpl.
    apply Exists_cons_tl, Exists_cons_hd. lia.
Defined.

(** C5 as stated fails: -1 lies outside [0, 3), yet [take] with
    [allow_fill] false does not fail on it; it returns the last row. *)
Lemma take_no_fill_counterexample :
  ~ (0 <= -1 < Z.of_nat (TensorArray.__len__ nan_col))%Z /\
  exists c h',
    TensorArray.take nan_col [-1]%Z false None nan_heap = Ok (c, h') /\
    view_rows h' (_tensor c) = [[SFloat 3; NaN]].
Proof.
  split; [lia|].
  eexists _, _. split; reflexivity.
Qed.

(** * What an operation changes in the heap *)

Lemma extends_refl h : extends h h.
Proof. exists []. by rewrite app_nil_r. Qed.

Lemma extends_app h k : extends h (h ++ k).
Proof. by exists k. Qed.

Lemma extends_trans h1 h2 h3 : extends h1 h2 -> extends h2 h3 -> extends h1 h3.
Proof. intros [k1 ->] [k2 ->]. exists (k1 ++ k2). by rewrite app_assoc. Qed.

Lemma extends_unchanged b h h' : extends h h' -> unchanged_except b h h'.
Proof.
  intros [k ->]. split.
  - rewrite length_app. lia.
  - intros b' _ Hb'. by rewrite lookup_app_l.
Qed.

Lemma unchanged_trans b h1 h2 h3 :
  unchanged_except b h1 h2 -> unchanged_except b h2 h3 ->
  unchanged_except b h1 h3.
Proof.
  intros [L1 F1] [L2 F2]. split; [lia|].
  intros b' Hne Hb'. rewrite F2 by lia. by apply F1.
Qed.

(** An array on another buffer shows the same rows afterwards. *)
Lemma unchanged_view_rows b h h' a :
  unchanged_except b h h' -> base a <> b -> base a < length h ->
  view_rows h' a = view_rows h a.
Proof. intros [_ F] Hne Hb. apply view_rows_ext. by apply F. Qed.

Lemma unchanged_value_of b h h' a :
  unchanged_except b h h' -> base a <> b -> base a < length h ->
  value_of h' a = value_of h a.
Proof.
  intros HF Hne Hb. unfold value_of.
  by rewrite (unchanged_view_rows b h h' a).
Qed.

Lemma write_rows_unchanged a ps rws h u h' :
  write_rows a ps rws h = Ok (u, h') -> unchanged_except (base a) h h'.
Proof.
  unfold write_rows. intros [= _ <-]. split.
  - by rewrite length_alter.
  - intros b' Hne _. by apply list_lookup_alter_ne.
Qed.

Lemma np_setitem_unchanged a k v h u h' :
  np_setitem a k v h = Ok (u, h') -> unchanged_except (base a) h h'.
Proof.
  unfold np_setitem. destruct k as [i|ix]; intros H.
  - apply bind_Ok in H as (p & h1 & Hp & H). apply lift_Ok in Hp as [_ ->].
    apply bind_Ok in H as (data & h2 & Hd & H). apply lift_Ok in Hd as [_ ->].
    by eapply write_rows_unchanged.
  - apply bind_Ok in H as (p & h1 & Hp & H). apply lift_Ok in Hp as [_ ->].
    apply bind_Ok in H as (data & h2 & Hd & H). apply lift_Ok in Hd as [_ ->].
    by eapply write_rows_unchanged.
Qed.

Lemma np_getitem_int_heap a i h v h' :
  np_getitem_int a i h = Ok (v, h') -> h' = h.
Proof.
  unfold np_getitem_int. intros H.
  apply bind_Ok in H as (p & h1 & Hp & H). apply lift_Ok in Hp as [_ ->].
  msimpl. by injection H.
Qed.

Lemma np_getitem_extends a ix h r h' :
  np_getitem a ix h = Ok (r, h') -> extends h h'.
Proof.
  unfold np_getitem. intros H.
  apply bind_Ok in H as (ps & h1 & Hp & H). apply lift_Ok in Hp as [_ ->].
  destruct ix; msimpl; unfold alloc_rows in H; injection H as <- <-;
    auto using extends_refl, extends_app.
Qed.

(** Assignment to a column changes the buffer of that column only. *)
Lemma setitem_unchanged (self : TensorArray) k value h u h' :
  TensorArray.__setitem__ self k value h = Ok (u, h') ->
  unchanged_except (base (_tensor self)) h h'.
Proof.
  unfold TensorArray.__setitem__. intros H.
  apply bind_Ok in H as (k' & h1 & Hk & H). apply lift_Ok in Hk as [_ ->].
  destruct (TensorArray.is_empty_value value).
  - apply bind_Ok in H as (sel & h1 & Hsel & H).
    apply bind_Ok in H as (hh & h2 & Hh & H).
    unfold get_heap in Hh. injection Hh as <- <-.
    apply np_setitem_unchanged in H.
    eapply unchanged_trans; [|exact H].
    apply extends_unchanged.
    destruct k' as [i|ix].
    + apply np_getitem_int_heap in Hsel as ->. apply extends_refl.
    + apply bind_Ok in Hsel as (r & h3 & Hr & Hret).
      unfold ret in Hret. injection Hret as _ <-.
      by eapply np_getitem_extends.
  - assert (forall h0, (h <- get_heap ;;
                        v <- lift (TensorArray.assigned_value h value) ;;
                        np_setitem (_tensor self) k' v) h0 = Ok (u, h') ->
                       unchanged_except (base (_tensor self)) h0 h') as Hgen.
    { intros h0 H0.
      apply bind_Ok in H0 as (hh & h2 & Hh & H0).
      unfold get_heap in Hh. injection Hh as <- <-.
      apply bind_Ok in H0 as (v & h3 & Hv & H0). apply lift_Ok in Hv as [_ ->].
      by eapply np_setitem_unchanged. }
    destruct k' as [i|[| | |]]; by apply Hgen || discriminate.
Qed.

(** * Copy *)

Lemma copy_eq (self : TensorArray) h :
  TensorArray.copy self h =
    Ok ({| _tensor := {| base := length h; rows := seq 0 (len (_tensor self));
                         rshape := rshape (_tensor self);
                         dtype_ := dtype_ (_tensor self) |} |},
        h ++ [view_rows h (_tensor self)]).
Proof.
  unfold TensorArray.copy, np_copy, alloc_rows. msimpl.
  rewrite length_view_rows.
  pose proof (c_contiguous_seq (length h) (len (_tensor self))
                (rshape (_tensor self)) (dtype_ (_tensor self))) as Hc.
  unfold TensorArray.__init__. msimpl. by rewrite Hc.
Qed.

(** C9: [copy()] returns a column equal in content to the source
    (same dtype, same shape, same elements) on a buffer of its own, so
    that an indexed assignment to the copy leaves the source as it was,
    and an indexed assignment to the source leaves the copy as it was. *)
Theorem copy_independent h (self : TensorArray) :
  base (_tensor self) < length h ->
  exists c h',
    TensorArray.copy self h = Ok (c, h') /\
    value_of h' (_tensor c) = value_of h (_tensor self) /\
    value_of h' (_tensor self) = value_of h (_tensor self) /\
    fresh_in h (_tensor c) /\
    (forall key value h'',
       TensorArray.__setitem__ c key value h' = Ok (tt, h'') ->
       value_of h'' (_tensor self) = value_of h (_tensor self)) /\
    (forall key value h'',
       TensorArray.__setitem__ self key value h' = Ok (tt, h'') ->
       value_of h'' (_tensor c) = value_of h' (_tensor c)).
Proof.
  intros Hb. rewrite copy_eq. eexists _, _. split; [reflexivity|].
  assert (value_of (h ++ [view_rows h (_tensor self)]) (_tensor self)
          = value_of h (_tensor self)) as Hsame.
  { unfold value_of. by rewrite view_rows_app. }
  assert (length (h ++ [view_rows h (_tensor self)]) = S (length h)) as Hlen.
  { rewrite length_app. simpl. lia. }
  simpl. split; [|split; [done|split; [|split]]].
  - unfold value_of, shape. f_equal.
    + unfold len. simpl. by rewrite length_seq.
    + f_equal. simpl. rewrite <- (length_view_rows h (_tensor self)).
      apply view_rows_alloc.
  - unfold fresh_in. simpl. lia.
  - intros key value h'' Hset.
    apply setitem_unchanged in Hset. simpl in Hset.
    rewrite (unchanged_value_of _ _ _ _ Hset); [done| |lia]. lia.
  - intros key value h'' Hset.
    apply setitem_unchanged in Hset.
    apply (unchanged_value_of _ _ _ _ Hset); simpl; lia.
Qed.

Lemma copy_independent_witness :
  exists c h',
    TensorArray.copy nan_col nan_heap = Ok (c, h') /\
    value_of h' (_tensor c) = value_of nan_heap (_tensor nan_col) /\
    value_of h' (_tensor nan_col) = value_of nan_heap (_tensor nan_col) /\
    fresh_in nan_heap (_tensor c) /\
    (forall key value h'',
       TensorArray.__setitem__ c key value h' = Ok (tt, h'') ->
       value_of h'' (_tensor nan_col) = value_of nan_heap (_tensor nan_col)) /\
    (forall key value h'',
       TensorArray.__setitem__ nan_col key value h' = Ok (tt, h'') ->
       value_of h'' (_tensor c) = value_of h' (_tensor c)).
Proof.
  apply (copy_independent nan_heap nan_col). simpl. lia.
Defined.

(** * Broadcasting a value to its own shape *)

Lemma rmapM_id {A} (f : A -> res A) (l : list A) :
  Forall (fun x => f x = Ok x) l -> rmapM f l = Ok l.
Proof.
  induction 1 as [|x l Hx _ IH]; simpl; [done|]. by rewrite Hx, IH.
Qed.

Lemma bcast_same s data :
  length data = prod s -> bcast s s data = Ok data.
Proof.
  revert data. induction s as [|d s IH]; intros data Hlen; simpl; [done|].
  rewrite Nat.eqb_refl.
  rewrite rmapM_id.
  - simpl. by rewrite concat_chunks.
  - eapply Forall_impl; [by apply Forall_length_chunks|].
    intros c Hc. by apply IH.
Qed.

Lemma broadcast_to_same s data :
  length data = prod s -> broadcast_to s s data = Ok data.
Proof.
  intros Hlen. unfold broadcast_to.
  rewrite Nat.leb_refl, Nat.sub_diag. simpl. by apply bcast_same.
Qed.

(** * Well-formedness and heap extension *)

Lemma wf_array_app h k a : wf_array h a = true -> wf_array (h ++ k) a = true.
Proof.
  unfold wf_array. rewrite !andb_true_iff. intros [[Hb Hn] Hr].
  apply Nat.ltb_lt in Hb.
  split; [split; [|done]|].
  - apply Nat.ltb_lt. rewrite length_app. lia.
  - rewrite forallb_forall in *. intros p Hp.
    rewrite lookup_app_l by done. by apply Hr.
Qed.

Lemma cast_same d s : dtype_of s = d -> cast d s = s.
Proof. intros <-. by destruct s as [[]| |]. Qed.

Lemma map_cast_same d r :
  Forall (fun s => dtype_of s = d) r -> map (cast d) r = r.
Proof.
  induction 1 as [|s r Hs _ IH]; simpl; [done|].
  by rewrite cast_same, IH.
Qed.

(** * Writing one row of a new array *)

Lemma alter_new {A} (f : A -> A) (h : list A) (x : A) :
  alter f (length h) (h ++ [x]) = h ++ [f x].
Proof.
  induction h as [|y h IH]; simpl; [done|]. by rewrite <- IH.
Qed.

Lemma lookup_total_seq0 m k : k < m -> seq 0 m !!! k = k.
Proof.
  intros Hk. apply list_lookup_total_correct. by rewrite lookup_seq_lt.
Qed.

Lemma setitem_row_new h buf m rs d k v :
  k < m -> tshape v = rs -> length (tdata v) = prod rs ->
  np_setitem {| base := length h; rows := seq 0 m; rshape := rs; dtype_ := d |}
             (KInt (Z.of_nat k)) v (h ++ [buf])
  = Ok (tt, h ++ [<[k := map (cast d) (tdata v)]> buf]).
Proof.
  intros Hk Hs Hlen. unfold np_setitem, len. simpl. msimpl.
  rewrite length_seq.
  rewrite norm_index_nonneg by lia. rewrite Nat2Z.id.
  rewrite Hs, broadcast_to_same by done.
  unfold write_rows. simpl.
  by rewrite alter_new, lookup_total_seq0.
Qed.

Lemma np_getitem_int_eq a i h p :
  norm_index (len a) i = Ok p ->
  np_getitem_int a i h = Ok (row_item h a p, h).
Proof. intros E. unfold np_getitem_int. msimpl. by rewrite E. Qed.

(** * Gather with fill *)

Section TakeFill.
Variables (h : heap) (t : ndarray) (fill : scalar).
Hypothesis Hwf : wf_array h t = true.

Let n := len t.
Let d := dtype_of fill.
Let fill_row := replicate (prod (rshape t)) fill.

(** One turn of the loop of [take], on the new array [values] whose
    buffer is [buf]. *)
Lemma take_loop_body m buf k idx :
  k < m -> (idx < Z.of_nat n)%Z ->
  let values := {| base := length h; rows := seq 0 m;
                   rshape := rshape t; dtype_ := d |} in
  (if (0 <=? idx)%Z then
     row <- np_getitem_int t idx ;;
     h <- get_heap ;;
     np_setitem values (KInt (Z.of_nat k)) (npval_value h row)
   else ret tt) (h ++ [buf])
  = Ok (tt, h ++ [if (0 <=? idx)%Z
                  then <[k := map (cast d) (view_row h t (Z.to_nat idx))]> buf
                  else buf]).
Proof.
  intros Hk Hidx values.
  destruct (Z.leb_spec 0 idx) as [Hpos|Hneg]; [|done].
  assert (Z.to_nat idx < len t) as Hp by (fold n; lia).
  pose proof (wf_array_app h [buf] t Hwf) as Hwf'.
  destruct (wf_view_row h t _ Hwf Hp) as [Hlen _].
  unfold bind, get_heap.
  rewrite (np_getitem_int_eq t idx _ (Z.to_nat idx))
    by (apply norm_index_nonneg; fold n; lia).
  cbv beta iota.
  rewrite (row_item_value _ _ _ Hwf' Hp).
  rewrite view_row_app by (by eapply wf_array_base).
  by apply setitem_row_new.
Qed.

(** The loop, started when the slots before the current one hold
    [done] and the others the fill row, leaves the rows [take_fill_row]
    describes in the remaining slots. *)
Lemma take_loop rest : forall acc m,
  Forall (fun idx => (idx < Z.of_nat n)%Z) rest ->
  m = length acc + length rest ->
  let values := {| base := length h; rows := seq 0 m;
                   rshape := rshape t; dtype_ := d |} in
  for_each (zip (seq (length acc) (length rest)) rest)
     (fun '(i, idx) =>
        if (0 <=? idx)%Z then
          row <- np_getitem_int t idx ;;
          h <- get_heap ;;
          np_setitem values (KInt (Z.of_nat i)) (npval_value h row)
        else ret tt)
     (h ++ [acc ++ replicate (length rest) fill_row])
  = Ok (tt, h ++ [acc ++ map (take_fill_row h t fill) rest]).
Proof.
  induction rest as [|idx rest IH]; intros acc m Hin Hm values; [done|].
  apply Forall_cons in Hin as [Hidx Hin].
  subst values.
  cbn [length seq zip zip_with for_each replicate map].
  unfold bind at 1.
  rewrite take_loop_body; [|simpl in Hm; lia|done].
  specialize (IH (acc ++ [take_fill_row h t fill idx]) m Hin).
  rewrite length_app, Nat.add_1_r in IH. cbn [length] in IH.
  rewrite <- !app_assoc in IH. cbn [app] in IH.
  rewrite <- IH by (simpl in Hm; lia).
  f_equal. f_equal. f_equal. unfold take_fill_row.
  destruct (0 <=? idx)%Z; [|done].
  rewrite insert_app_r_alt by lia. by rewrite Nat.sub_diag.
Qed.
End TakeFill.

(** * Validation of the indices of a gather with fill *)

Lemma validate_indices_Ok indices n :
  Forall (fun i => (-1 <= i < Z.of_nat n)%Z) indices ->
  validate_indices indices n = Ok tt.
Proof.
  intros H. unfold validate_indices.
  replace (existsb (fun i => (i <? -1)%Z) indices) with false.
  - replace (existsb (fun i => (Z.of_nat n <=? i)%Z) indices) with false; [done|].
    symmetry. apply not_true_is_false. intros E.
    apply existsb_exists in E as (i & Hi & E).
    apply list_elem_of_In in Hi. rewrite Forall_forall in H.
    apply H in Hi. apply Z.leb_le in E. lia.
  - symmetry. apply not_true_is_false. intros E.
    apply existsb_exists in E as (i & Hi & E).
    apply list_elem_of_In in Hi. rewrite Forall_forall in H.
    apply H in Hi. apply Z.ltb_lt in E. lia.
Qed.

Lemma validate_indices_low indices n :
  Exists (fun i => (i < -1)%Z) indices ->
  validate_indices indices n = Raise ValueError.
Proof.
  intros H. unfold validate_indices.
  replace (existsb (fun i => (i <? -1)%Z) indices) with true; [done|].
  symmetry. apply existsb_exists.
  apply Exists_exists in H as (i & Hi & E).
  exists i. split; [by apply list_elem_of_In|]. by apply Z.ltb_lt.
Qed.

Lemma validate_indices_high indices n :
  Forall (fun i => (-1 <= i)%Z) indices ->
  Exists (fun i => (Z.of_nat n <= i)%Z) indices ->
  validate_indices indices n = Raise IndexError.
Proof.
  intros Hlow H. unfold validate_indices.
  replace (existsb (fun i => (i <? -1)%Z) indices) with false.
  - replace (existsb (fun i => (Z.of_nat n <=? i)%Z) indices) with true; [done|].
    symmetry. apply existsb_exists.
    apply Exists_exists in H as (i & Hi & E).
    exists i. split; [by apply list_elem_of_In|]. by apply Z.leb_le.
  - symmetry. apply not_true_is_false. intros E.
    apply existsb_exists in E as (i & Hi & E).
    apply list_elem_of_In in Hi. rewrite Forall_forall in Hlow.
    apply Hlow in Hi. apply Z.ltb_lt in E. lia.
Qed.

(** What [take] with fill returns on valid indices. *)
Lemma take_filled_eq h (self : TensorArray) indices fv :
  wf_array h (_tensor self) = true ->
  Forall (fun i => (-1 <= i < Z.of_nat (TensorArray.__len__ self))%Z) indices ->
  TensorArray.take self indices true fv h =
    Ok ({| _tensor := {| base := length h; rows := seq 0 (length indices);
                         rshape := rshape (_tensor self);
                         dtype_ := dtype_of (default NaN fv) |} |},
        h ++ [map (take_fill_row h (_tensor self) (default NaN fv)) indices]).
Proof.
  intros Hwf Hin. unfold TensorArray.take.
  unfold bind at 1. unfold bind at 1.
  unfold TensorArray.__len__ in Hin.
  unfold lift. rewrite validate_indices_Ok by done.
  unfold bind at 1. unfold np_full, alloc_rows.
  rewrite length_replicate.
  unfold bind at 1.
  pose proof (take_loop h (_tensor self) (default NaN fv) Hwf indices []
                (length indices)) as Hloop.
  cbn [length app Nat.add] in Hloop.
  rewrite Hloop; [|eapply Forall_impl; [exact Hin|]; simpl; lia|done].
  unfold ret at 1.
  apply init_contiguous, c_contiguous_seq.
Qed.

(** C4: with [allow_fill] true, [take] on a well-formed column of n
    rows validates the indices first: it fails with a [ValueError]
    when one is below -1 and with an [IndexError] when one is n or
    more. Otherwise it returns a column of shape
    [len(indices), row_shape...] in which slot k is a row of fill
    values when indices[k] is -1. But the result is allocated by
    [np.full] with the dtype of the fill value (NaN, a float, when
    none is given) and the rows are stored into it, so slot k holds
    the source row at indices[k] cast to the dtype of the fill value:
    it is the source row itself only when the fill value has the dtype
    of the column (as in [take([2,-1,0], allow_fill=True,
    fill_value=0)] on integer rows), and a float row taken with an
    integer fill value loses its fractions. *)
Theorem take_with_fill h (self : TensorArray) (indices : list Z) fv :
  wf_array h (_tensor self) = true ->
  let n := TensorArray.__len__ self in
  let fill := default NaN fv in
  (Exists (fun i => (i < -1)%Z) indices ->
   TensorArray.take self indices true fv h = Raise ValueError) /\
  (Forall (fun i => (-1 <= i)%Z) indices ->
   Exists (fun i => (Z.of_nat n <= i)%Z) indices ->
   TensorArray.take self indices true fv h = Raise IndexError) /\
  (Forall (fun i => (-1 <= i < Z.of_nat n)%Z) indices ->
   exists c h',
     TensorArray.take self indices true fv h = Ok (c, h') /\
     dtype_ (_tensor c) = dtype_of fill /\
     shape (_tensor c) = length indices :: rshape (_tensor self) /\
     forall k idx, indices !! k = Some idx ->
       ((0 <= idx)%Z ->
        view_row h' (_tensor c) k =
          map (cast (dtype_of fill)) (view_row h (_tensor self) (Z.to_nat idx))) /\
       ((0 <= idx)%Z -> dtype_of fill = dtype_ (_tensor self) ->
        view_row h' (_tensor c) k = view_row h (_tensor self) (Z.to_nat idx)) /\
       ((idx < 0)%Z ->
        view_row h' (_tensor c) k = replicate (prod (rshape (_tensor self))) fill)).
Proof.
  intros Hwf n fill. split; [|split].
  - intros Hlow. unfold TensorArray.take.
    unfold bind at 1. unfold bind at 1. unfold lift.
    by rewrite validate_indices_low.
  - intros Hlow Hhigh. unfold TensorArray.take.
    unfold bind at 1. unfold bind at 1. unfold lift.
    by rewrite validate_indices_high.
  - intros Hin. rewrite take_filled_eq by done.
    eexists _, _. split; [reflexivity|]. cbn [_tensor dtype_].
    split; [done|]. split.
    { unfold shape, len. cbn [rows rshape]. by rewrite length_seq. }
    intros k idx Hk.
    assert (view_row (h ++ [map (take_fill_row h (_tensor self) fill) indices])
              {| base := length h; rows := seq 0 (length indices);
                 rshape := rshape (_tensor self); dtype_ := dtype_of fill |} k
            = take_fill_row h (_tensor self) fill idx) as Hrow.
    { apply view_row_lookup.
      rewrite <- (length_map (take_fill_row h (_tensor self) fill) indices).
      rewrite view_rows_alloc. rewrite list_lookup_fmap. by rewrite Hk. }
    fold fill. rewrite Hrow. unfold take_fill_row.
    split; [|split].
    + intros Hpos. by destruct (Z.leb_spec 0 idx); [|lia].
    + intros Hpos Hd. destruct (Z.leb_spec 0 idx); [|lia].
      apply map_cast_same. rewrite Hd.
      apply (wf_view_row h (_tensor self) (Z.to_nat idx) Hwf).
      rewrite Forall_forall in Hin.
      apply list_elem_of_lookup_2, Hin in Hk.
      unfold n, TensorArray.__len__ in Hk. lia.
    + intros Hneg. by destruct (Z.leb_spec 0 idx); [lia|].
Qed.

Lemma take_with_fill_witness :
  exists c h',
    TensorArray.take int_col [2; -1; 0]%Z true (Some (SInt 0)) int_heap
      = Ok (c, h') /\
    dtype_ (_tensor c) = int64 /\
    shape (_tensor c) = [3; 2] /\
    forall k idx, [2; -1; 0]%Z !! k = Some idx ->
      ((0 <= idx)%Z ->
       view_row h' (_tensor c) k =
         map (cast int64) (view_row int_heap (_tensor int_col) (Z.to_nat idx))) /\
      ((0 <= idx)%Z -> int64 = int64 ->
       view_row h' (_tensor c) k = view_row int_heap (_tensor int_col) (Z.to_nat idx)) /\
      ((idx < 0)%Z -> view_row h' (_tensor c) k = replicate 2 (SInt 0)).
Proof.
  apply (take_with_fill int_heap int_col [2; -1; 0]%Z (Some (SInt 0))).
  - reflexivity.
  - unfold TensorArray.__len__, len. simpl. repeat constructor; lia.
Defined.

(** The defect of C4 on the float column [[1.5]]:
    [take([0], allow_fill=True, fill_value=0)] allocates the result
    with the integer dtype of the fill value, and slot 0 holds [1],
    not the source row [1.5] that [take([0])] without fill returns. *)
Lemma take_with_fill_counterexample :
  (exists c h',
     TensorArray.take half_col [0]%Z true (Some (SInt 0)) half_heap = Ok (c, h') /\
     dtype_ (_tensor c) = int64 /\
     view_row h' (_tensor c) 0 = [SInt 1] /\
     view_row h' (_tensor c) 0 <> view_row half_heap (_tensor half_col) 0) /\
  (exists c h',
     TensorArray.take half_col [0]%Z false (Some (SInt 0)) half_heap = Ok (c, h') /\
     dtype_ (_tensor c) = float64 /\
     view_row h' (_tensor c) 0 = [SFloat 1.5]) /\
  view_row half_heap (_tensor half_col) 0 = [SFloat 1.5].
Proof.
  split; [|split; [|reflexivity]].
  - eexists _, _. split; [vm_compute; reflexivity|].
    split; [reflexivity|]. split; [reflexivity|]. discriminate.
  - eexists _, _. split; [vm_compute; reflexivity|].
    split; reflexivity.
Qed.

(** * Which results live on a buffer of their own *)

Lemma validate_indices_inv indices n u :
  validate_indices indices n = Ok u ->
  Forall (fun i => (-1 <= i < Z.of_nat n)%Z) indices.
Proof.
  unfold validate_indices.
  destruct (existsb (fun i => (i <? -1)%Z) indices) eqn:E1; [discriminate|].
  destruct (existsb (fun i => (Z.of_nat n <=? i)%Z) indices) eqn:E2; [discriminate|].
  intros _. apply Forall_forall. intros i Hi. apply list_elem_of_In in Hi.
  split.
  - destruct (Z.ltb_spec i (-1)) as [Hlt|]; [|done].
    assert (existsb (fun i => (i <? -1)%Z) indices = true); [|congruence].
    apply existsb_exists. exists i. split; [done|]. by apply Z.ltb_lt.
  - destruct (Z.leb_spec (Z.of_nat n) i) as [Hle|]; [|done].
    assert (existsb (fun i => (Z.of_nat n <=? i)%Z) indices = true); [|congruence].
    apply existsb_exists. exists i. split; [done|]. by apply Z.leb_le.
Qed.

Lemma take_fresh h (self : TensorArray) indices allow_fill fv c h' :
  wf_array h (_tensor self) = true ->
  TensorArray.take self indices allow_fill fv h = Ok (c, h') ->
  fresh_in h (_tensor c) /\ extends h h'.
Proof.
  intros Hwf. destruct allow_fill.
  - intros H.
    assert (Forall (fun i => (-1 <= i < Z.of_nat (TensorArray.__len__ self))%Z)
              indices) as Hin.
    { unfold TensorArray.take in H.
      apply bind_Ok in H as (v & h1 & H & _).
      apply bind_Ok in H as (u & h2 & H & _).
      apply lift_Ok in H as [H _]. by eapply validate_indices_inv. }
    rewrite take_filled_eq in H by done. injection H as <- <-.
    split; [unfold fresh_in; simpl; lia|apply extends_app].
  - rewrite take_gather_eq. destruct (rmapM _ indices); [|discriminate].
    intros [= <- <-].
    split; [unfold fresh_in; simpl; lia|apply extends_app].
Qed.

Lemma concat_fresh l h c h' :
  TensorArray._concat_same_type l h = Ok (c, h') ->
  fresh_in h (_tensor c) /\ extends h h'.
Proof.
  unfold TensorArray._concat_same_type, np_concatenate. intros H.
  apply bind_Ok in H as (r & h1 & Hr & H).
  destruct (map _tensor l) as [|a0 arrs]; [discriminate|].
  destruct (forallb _ (a0 :: arrs)); [|discriminate].
  unfold bind, get_heap, alloc_rows in Hr. injection Hr as <- <-.
  rewrite init_contiguous in H by apply c_contiguous_seq.
  injection H as <- <-.
  split; [unfold fresh_in; simpl; lia|apply extends_app].
Qed.

Lemma astype_copy_eq (self : TensorArray) h :
  TensorArray.astype self TensorArray.ToTensorType true h =
    Ok (TensorArray.AsColumn
          {| _tensor := {| base := length h; rows := seq 0 (len (_tensor self));
                           rshape := rshape (_tensor self);
                           dtype_ := dtype_ (_tensor self) |} |},
        h ++ [view_rows h (_tensor self)]).
Proof.
  pose proof (copy_eq self h) as Hc.
  unfold TensorArray.copy in Hc. unfold TensorArray.astype.
  unfold bind in *.
  destruct (np_copy (_tensor self) h) as [[r h1]|]; [|discriminate].
  destruct (TensorArray.__init__ (VArr r) true h1) as [[c h2]|]; [|discriminate].
  unfold ret. by injection Hc as -> ->.
Qed.

(** A column taken with a slice: the view itself when it is
    contiguous, a copy of it otherwise. *)
Lemma getitem_slice (self : TensorArray) start stop step h r h' :
  TensorArray.__getitem__ self (KSel (KSlice start stop step)) h = Ok (r, h') ->
  exists ps c,
    slice_positions (TensorArray.__len__ self) start stop step = Ok ps /\
    r = TensorArray.Column c /\
    if c_contiguous (sub_view (_tensor self) ps)
    then _tensor c = sub_view (_tensor self) ps /\ h' = h
    else fresh_in h (_tensor c) /\ extends h h'.
Proof.
  unfold TensorArray.__getitem__, np_getitem, TensorArray.__len__. intros H.
  apply bind_Ok in H as (ix' & h1 & Hix & H). apply lift_Ok in Hix as [[= <-] ->].
  apply bind_Ok in H as (a & h1 & Ha & H).
  apply bind_Ok in Ha as (ps & h2 & Hps & Ha). apply lift_Ok in Hps as [Hps ->].
  simpl in Hps. unfold ret in Ha. injection Ha as <- <-.
  apply bind_Ok in H as (c & h2 & Hc & H).
  unfold ret in H. injection H as <- <-.
  exists ps, c. split; [done|]. split; [done|].
  rewrite init_array in Hc.
  destruct (c_contiguous (sub_view (_tensor self) ps)); injection Hc as <- <-.
  - done.
  - split; [unfold fresh_in; simpl; lia|apply extends_app].
Qed.

Lemma getitem_advanced_fresh (self : TensorArray) ix h c h' :
  (exists l, ix = KIdx l) \/ (exists m, ix = KMask m) ->
  TensorArray.__getitem__ self (KSel ix) h = Ok (TensorArray.Column c, h') ->
  fresh_in h (_tensor c) /\ extends h h'.
Proof.
  intros Hix. unfold TensorArray.__getitem__, np_getitem. intros H.
  apply bind_Ok in H as (ix' & h1 & Hix' & H). apply lift_Ok in Hix' as [Hix' ->].
  assert ((exists l, ix' = KIdx l) \/ (exists m, ix' = KMask m)) as Hix''.
  { destruct Hix as [[l ->]|[m ->]]; simpl in Hix'.
    - injection Hix' as <-. eauto.
    - destruct (length m =? _); [|discriminate]. injection Hix' as <-. eauto. }
  clear Hix Hix'.
  apply bind_Ok in H as (a & h1 & Ha & H).
  apply bind_Ok in Ha as (ps & h2 & Hps & Ha). apply lift_Ok in Hps as [Hps ->].
  assert (a = {| base := length h; rows := seq 0 (length ps);
                 rshape := rshape (_tensor self); dtype_ := dtype_ (_tensor self) |}
          /\ h1 = h ++ [map (view_row h (_tensor self)) ps]) as [-> ->].
  { destruct Hix'' as [[l ->]|[m ->]];
      unfold bind, get_heap, alloc_rows in Ha; rewrite length_map in Ha;
      by injection Ha as <- <-. }
  apply bind_Ok in H as (c0 & h3 & Hc & H).
  rewrite init_contiguous in Hc by apply c_contiguous_seq.
  injection Hc as <- <-. unfold ret in H. injection H as <- <-.
  split; [unfold fresh_in; simpl; lia|apply extends_app].
Qed.

Lemma astype_share_eq (self : TensorArray) h :
  c_contiguous (_tensor self) = true ->
  TensorArray.astype self TensorArray.ToTensorType false h
    = Ok (TensorArray.AsColumn {| _tensor := _tensor self |}, h).
Proof.
  intros Hc. unfold TensorArray.astype.
  unfold bind at 1. unfold ret at 1. unfold bind.
  by rewrite init_contiguous.
Qed.

Lemma from_sequence_share_eq (self : TensorArray) h :
  c_contiguous (_tensor self) = true ->
  TensorArray._from_sequence (VCol self) false h
    = Ok ({| _tensor := _tensor self |}, h).
Proof.
  intros Hc. unfold TensorArray._from_sequence.
  unfold bind at 1. unfold ret at 1.
  by rewrite init_contiguous.
Qed.

(** C1, as amended: [take], concatenation, [copy], [astype] with
    [copy=True], and [__getitem__] with a sequence of positions or a
    mask return a column on a newly allocated buffer, and leave every
    existing buffer as it was. [__getitem__] with a slice returns a
    view: the column is a window on the buffer of the source whenever
    the selected rows are contiguous, and only otherwise a copy.
    [astype] with [copy=False] and [_from_sequence] with [copy=False]
    return a column on the buffer of the source. *)
Theorem result_buffers h (self : TensorArray) :
  wf_array h (_tensor self) = true ->
  (forall indices allow_fill fv c h',
     TensorArray.take self indices allow_fill fv h = Ok (c, h') ->
     fresh_in h (_tensor c) /\ extends h h') /\
  (forall others c h',
     TensorArray._concat_same_type (self :: others) h = Ok (c, h') ->
     fresh_in h (_tensor c) /\ extends h h') /\
  (exists c h',
     TensorArray.copy self h = Ok (c, h') /\
     fresh_in h (_tensor c) /\ extends h h') /\
  (exists c h',
     TensorArray.astype self TensorArray.ToTensorType true h
       = Ok (TensorArray.AsColumn c, h') /\
     fresh_in h (_tensor c) /\ extends h h') /\
  (forall ix c h',
     (exists l, ix = KIdx l) \/ (exists m, ix = KMask m) ->
     TensorArray.__getitem__ self (KSel ix) h = Ok (TensorArray.Column c, h') ->
     fresh_in h (_tensor c) /\ extends h h') /\
  (forall start stop step r h',
     TensorArray.__getitem__ self (KSel (KSlice start stop step)) h = Ok (r, h') ->
     exists ps c,
       slice_positions (TensorArray.__len__ self) start stop step = Ok ps /\
       r = TensorArray.Column c /\
       if c_contiguous (sub_view (_tensor self) ps)
       then _tensor c = sub_view (_tensor self) ps /\ h' = h
       else fresh_in h (_tensor c) /\ extends h h') /\
  (c_contiguous (_tensor self) = true ->
   TensorArray.astype self TensorArray.ToTensorType false h
     = Ok (TensorArray.AsColumn {| _tensor := _tensor self |}, h) /\
   TensorArray._from_sequence (VCol self) false h
     = Ok ({| _tensor := _tensor self |}, h)).
Proof.
  intros Hwf. split; [|split; [|split; [|split; [|split; [|split]]]]].
  - intros indices allow_fill fv c h' H. by eapply take_fresh.
  - intros others c h' H. by eapply concat_fresh.
  - rewrite copy_eq. eexists _, _. split; [reflexivity|].
    split; [unfold fresh_in; simpl; lia|apply extends_app].
  - rewrite astype_copy_eq. eexists _, _. split; [reflexivity|].
    split; [unfold fresh_in; simpl; lia|apply extends_app].
  - intros ix c h' Hix H. by eapply getitem_advanced_fresh.
  - intros start stop step r h' H. by apply getitem_slice.
  - intros Hc. split; [by apply astype_share_eq|by apply from_sequence_share_eq].
Qed.

Lemma result_buffers_witness :
  (exists c h',
     TensorArray.copy nan_col nan_heap = Ok (c, h') /\
     fresh_in nan_heap (_tensor c) /\ extends nan_heap h') /\
  (forall c h',
     TensorArray.take nan_col [2; 0]%Z false None nan_heap = Ok (c, h') ->
     fresh_in nan_heap (_tensor c) /\ extends nan_heap h') /\
  (forall r h',
     TensorArray.__getitem__ nan_col (KSel (KSlice (Some 1%Z) None None)) nan_heap
       = Ok (r, h') ->
     exists ps c,
       slice_positions 3 (Some 1%Z) None None = Ok ps /\
       r = TensorArray.Column c /\
       if c_contiguous (sub_view (_tensor nan_col) ps)
       then _tensor c = sub_view (_tensor nan_col) ps /\ h' = nan_heap
       else fresh_in nan_heap (_tensor c) /\ extends nan_heap h').
Proof.
  destruct (result_buffers nan_heap nan_col eq_refl)
    as (Htake & _ & Hcopy & _ & _ & Hslice & _).
  split; [exact Hcopy|]. split.
  - intros c h'. apply Htake.
  - intros r h'. apply Hslice.
Defined.

(** C1 as stated fails: the column [nan_col[1:]] is a window on the
    buffer of [nan_col], and writing 7 into its first row changes row 1
    of [nan_col]. *)
Lemma slice_shares_buffer_counterexample :
  exists c h1 h2,
    TensorArray.__getitem__ nan_col (KSel (KSlice (Some 1%Z) None None)) nan_heap
      = Ok (TensorArray.Column c, h1) /\
    base (_tensor c) = base (_tensor nan_col) /\
    TensorArray.__setitem__ c (KInt 0) (TensorArray.SScalar (SFloat 7)) h1
      = Ok (tt, h2) /\
    view_rows nan_heap (_tensor nan_col)
      = [frow [1; 2]; [NaN; NaN]; [SFloat 3; NaN]]%float /\
    view_rows h2 (_tensor nan_col)
      = [frow [1; 2]; frow [7; 7]; [SFloat 3; NaN]]%float.
Proof.
  eexists _, _, _. split; [vm_compute; reflexivity|].
  split; [reflexivity|]. split; [vm_compute; reflexivity|].
  split; reflexivity.
Qed.

(** * Construction from a sequence of rows *)

Lemma forallb_false_differ {A} (f : A -> list nat) (l : list A) (x0 : A) :
  (exists i j vi vj, l !! i = Some vi /\ l !! j = Some vj /\ f vi <> f vj) ->
  forallb (fun t => bool_decide (f t = f x0)) l = false.
Proof.
  intros (i & j & vi & vj & Hi & Hj & Hne).
  apply not_true_is_false. intros Hall.
  rewrite forallb_forall in Hall.
  assert (f vi = f x0) as Ei.
  { eapply bool_decide_eq_true_1, Hall, list_elem_of_In, list_elem_of_lookup_2, Hi. }
  assert (f vj = f x0) as Ej.
  { eapply bool_decide_eq_true_1, Hall, list_elem_of_In, list_elem_of_lookup_2, Hj. }
  congruence.
Qed.

Lemma np_stack_Ok items a h h' :
  np_stack items h = Ok (a, h') ->
  Forall (fun t => tshape t = rshape a) items /\
  len a = length items /\ base a = length h /\ extends h h' /\
  c_contiguous a = true.
Proof.
  unfold np_stack. destruct items as [|t0 items]; [discriminate|].
  destruct (forallb _ (t0 :: items)) eqn:Hall; [|discriminate].
  unfold alloc_rows. intros [= <- <-].
  split; [|split; [|split; [|split]]]; [| | | |exact (c_contiguous_seq _ (S _) _ _)]; simpl.
  - rewrite forallb_forall in Hall. apply Forall_forall. intros t Ht.
    apply list_elem_of_In, Hall in Ht. by apply bool_decide_eq_true_1 in Ht.
  - unfold len. simpl. by rewrite length_seq, length_map.
  - done.
  - apply extends_app.
Qed.

(** C6: constructing a column from a sequence in which two per-row
    tensors (as the constructor coerces them) differ in shape fails
    with the [ValueError] of [np.stack] (the shape mismatch error); and
    whenever the construction from a sequence succeeds, every row
    given has the row shape of the column, so no column of mixed row
    shapes is produced. *)
Theorem init_shape_mismatch h (l : list row_arg) (make_contiguous : bool) :
  ((exists i j vi vj,
      l !! i = Some vi /\ l !! j = Some vj /\
      tshape (TensorArray.coerce_row h vi) <> tshape (TensorArray.coerce_row h vj)) ->
   TensorArray.__init__ (VSeq l) make_contiguous h = Raise ValueError) /\
  (forall c h',
     l <> [] ->
     TensorArray.__init__ (VSeq l) make_contiguous h = Ok (c, h') ->
     Forall (fun v => tshape (TensorArray.coerce_row h v) = rshape (_tensor c)) l /\
     TensorArray.__len__ c = length l).
Proof.
  split.
  - intros Hd. unfold TensorArray.__init__.
    destruct l as [|v0 l].
    { destruct Hd as (i & _ & vi & _ & Hi & _). by destruct i. }
    unfold bind at 1. cbn [length Nat.eqb].
    unfold bind at 1. unfold get_heap. unfold np_stack. cbn [map].
    rewrite <- (map_cons (TensorArray.coerce_row h)).
    rewrite (forallb_false_differ tshape); [done|].
    destruct Hd as (i & j & vi & vj & Hi & Hj & Hne).
    exists i, j, (TensorArray.coerce_row h vi), (TensorArray.coerce_row h vj).
    by rewrite !list_lookup_fmap, Hi, Hj.
  - intros c h' Hne H. unfold TensorArray.__init__ in H.
    apply bind_Ok in H as (t & h1 & Ht & H).
    destruct l as [|v0 l]; [done|]. cbn [length Nat.eqb] in Ht.
    apply bind_Ok in Ht as (hh & h2 & Hh & Ht).
    unfold get_heap in Hh. injection Hh as <- <-.
    apply np_stack_Ok in Ht as (Hsh & Hlen & Hbase & _ & Hc).
    assert (_tensor c = t) as Et.
    { rewrite Hc in H. simpl in H. unfold bind, ret in H. by injection H as <- _. }
    unfold TensorArray.__len__. rewrite Et. split.
    + by apply Forall_fmap in Hsh.
    + by rewrite Hlen, length_map.
Qed.

Lemma init_shape_mismatch_witness :
  TensorArray.__init__ (VSeq [RArr (_tensor nan_col); RScalar (SInt 1)]) true nan_heap
    = Raise ValueError.
Proof.
  apply (init_shape_mismatch nan_heap [RArr (_tensor nan_col); RScalar (SInt 1)] true).
  exists 0, 1, (RArr (_tensor nan_col)), (RScalar (SInt 1)).
  split; [reflexivity|]. split; [reflexivity|]. simpl. discriminate.
Defined.

Lemma promote_same d : promote d d = d.
Proof. by destruct d. Qed.

Lemma promote_bool_r d : promote d bool_ = d.
Proof. by destruct d. Qed.

(** What the constructor returns for a sequence of rows of one shape. *)
Lemma init_sequence_eq h (v0 : row_arg) (rest : list row_arg) mc :
  Forall (fun v => tshape (TensorArray.coerce_row h v)
                   = tshape (TensorArray.coerce_row h v0)) rest ->
  TensorArray.__init__ (VSeq (v0 :: rest)) mc h =
    let items := map (TensorArray.coerce_row h) (v0 :: rest) in
    let d := result_type (map tdtype items) in
    Ok ({| _tensor := {| base := length h; rows := seq 0 (S (length rest));
                         rshape := tshape (TensorArray.coerce_row h v0);
                         dtype_ := d |} |},
        h ++ [map (fun t => map (cast d) (tdata t)) items]).
Proof.
  intros Hall. unfold TensorArray.__init__.
  cbn [length Nat.eqb].
  unfold bind at 1. unfold bind at 1. unfold get_heap. unfold np_stack.
  cbn [map].
  assert (forallb (fun t => bool_decide (tshape t = tshape (TensorArray.coerce_row h v0)))
            (TensorArray.coerce_row h v0 :: map (TensorArray.coerce_row h) rest)
          = true) as ->.
  { cbn [forallb]. rewrite bool_decide_eq_true_2 by done. simpl.
    apply forallb_forall. intros a Ha. apply in_map_iff in Ha as (c & <- & Hc).
    apply bool_decide_eq_true_2.
    apply list_elem_of_In in Hc. by eapply Forall_forall in Hall. }
  unfold alloc_rows. cbn [length]. rewrite !length_map.
  unfold bind.
  rewrite (c_contiguous_seq (length h) (S (length rest))). simpl. done.
Qed.

(** * Reduction *)

Lemma elem_lookup r j : j < length r -> r !! j = Some (elem r j).
Proof.
  intros Hj. unfold elem.
  destruct (lookup_lt_is_Some_2 r j Hj) as [x ->]. done.
Qed.

Lemma elem_zip_with_add r1 r2 j :
  j < length r1 -> j < length r2 ->
  elem (zip_with add r1 r2) j = add (elem r1 j) (elem r2 j).
Proof.
  intros H1 H2. unfold elem at 1. rewrite lookup_zip_with.
  by rewrite (elem_lookup r1 j H1), (elem_lookup r2 j H2).
Qed.

Lemma length_foldl_zip_add size rs : forall r0,
  length r0 = size -> Forall (fun r => length r = size) rs ->
  length (foldl (zip_with add) r0 rs) = size.
Proof.
  induction rs as [|r rs IH]; intros r0 H0 Hrs; simpl; [done|].
  apply Forall_cons in Hrs as [Hr Hrs].
  apply IH; [|done]. rewrite length_zip_with. lia.
Qed.

(** Element [j] of the sum of the rows is the sum, first row to last,
    of their elements [j]. *)
Lemma foldl_zip_add_elem size rs : forall r0 j,
  length r0 = size -> Forall (fun r => length r = size) rs -> j < size ->
  elem (foldl (zip_with add) r0 rs) j
    = foldl add (elem r0 j) (map (fun r => elem r j) rs).
Proof.
  induction rs as [|r rs IH]; intros r0 j H0 Hrs Hj; simpl; [done|].
  apply Forall_cons in Hrs as [Hr Hrs].
  rewrite IH; [|rewrite length_zip_with; lia|done|done].
  by rewrite elem_zip_with_add by lia.
Qed.

Lemma length_sum_rows d size rws :
  Forall (fun r => length r = size) rws ->
  length (sum_rows d size rws) = size.
Proof.
  intros H. unfold sum_rows.
  assert (length (foldl (zip_with add) (replicate size (zero_of d)) rws) = size)
    as Hseq by (apply length_foldl_zip_add; [apply length_replicate|done]).
  destruct d; try exact Hseq.
  destruct size as [|[|size]]; try exact Hseq. done.
Qed.

(** Except for a float column whose rows are single elements, element
    [j] of the sum is the elements [j] of the rows added to zero, first
    row to last. *)
Lemma sum_rows_elem d size rws j :
  Forall (fun r => length r = size) rws -> j < size ->
  d <> float64 \/ size <> 1 ->
  elem (sum_rows d size rws) j
    = foldl add (zero_of d) (map (fun r => elem r j) rws).
Proof.
  intros Hrws Hj Hseq.
  assert (elem (foldl (zip_with add) (replicate size (zero_of d)) rws) j
          = foldl add (zero_of d) (map (fun r => elem r j) rws)) as Hfold.
  { rewrite (foldl_zip_add_elem size) by (apply length_replicate || done).
    f_equal. unfold elem. by rewrite lookup_replicate_2. }
  unfold sum_rows. destruct d; try exact Hfold.
  destruct size as [|[|size]]; try exact Hfold.
  by destruct Hseq.
Qed.

(** The fuel given to [pairwise_sum] is enough: with the length of the
    run or more, the sum does not depend on it. *)
Lemma pairwise_sum_fuel fuel1 : forall fuel2 a,
  length a <= fuel1 -> length a <= fuel2 ->
  pairwise_sum fuel1 a = pairwise_sum fuel2 a.
Proof.
  induction fuel1 as [|fuel1 IH]; intros fuel2 a H1 H2.
  - destruct a; [|simpl in H1; lia]. by destruct fuel2.
  - destruct fuel2 as [|fuel2].
    { destruct a; [done|simpl in H2; lia]. }
    cbn [pairwise_sum].
    destruct (length a <? 8); [done|].
    destruct (Nat.leb_spec (length a) 128) as [|Hbig]; [done|].
    pose proof (Nat.Div0.div_le_upper_bound (length a) 2 (length a)) as Hhalf.
    pose proof (Nat.Div0.mod_le (length a / 2) 8) as Hmod.
    assert (length a / 2 <= length a - 1) as Hle.
    { apply Nat.Div0.div_le_upper_bound. lia. }
    assert (64 <= length a / 2) as Hge.
    { apply Nat.div_le_lower_bound; lia. }
    assert ((length a / 2) `mod` 8 < 8) as Hlt by (apply Nat.mod_upper_bound; lia).
    f_equal; apply IH; rewrite ?length_take, ?length_drop; lia.
Qed.

Lemma Forall_length_map_cast d size rws :
  Forall (fun r : list scalar => length r = size) rws ->
  Forall (fun r => length r = size) (map (map (cast d)) rws).
Proof.
  intros H. apply Forall_fmap. eapply Forall_impl; [exact H|].
  intros r Hr. simpl. by rewrite length_map.
Qed.

Lemma reduce_other (self : TensorArray) name h :
  name <> "sum"%string ->
  TensorArray._reduce self name h = Raise NotImplementedError.
Proof.
  intros Hne. unfold TensorArray._reduce.
  destruct (String.eqb_spec name "sum"); [done|done].
Qed.

(** C3: [_reduce] with the name "sum" gives
    [np.sum(self._tensor, axis=0)], a value of the row shape, to the
    constructor, which takes the first axis of an array for the row
    axis. So on a well-formed column of rows of shape [d1 :: rest] the
    result holds the elementwise sum of the rows, but as a column of
    [d1] rows of shape [rest]: its shape is the row shape, where a
    column of the one row that is the sum has the shape
    [1 :: row shape]. For the rows [[1,1],[2,2],[3,3]] it is the column of
    the two scalars 6 and 6, of length 2, and not the single row
    [6,6]. When the rows are scalars the result is the column of
    shape [1, 1] that holds their sum. Element [j] of the sum is the
    elements [j] of the rows added to zero, first row to last (for
    floats this is so when a row has two elements or more). With any
    other name [_reduce] fails with [NotImplementedError]. *)
Theorem reduce_sum_row_axis h (self : TensorArray) :
  wf_array h (_tensor self) = true ->
  let t := _tensor self in
  let d := sum_dtype (dtype_ t) in
  let rws := map (map (cast d)) (view_rows h t) in
  let total := sum_rows d (prod (rshape t)) rws in
  (forall d1 rest, rshape t = d1 :: rest ->
   exists c h',
     TensorArray._reduce self "sum" h = Ok (c, h') /\
     value_of h' (_tensor c) = {| tdtype := d; tshape := d1 :: rest; tdata := total |} /\
     TensorArray.__len__ c = d1 /\
     rshape (_tensor c) = rest /\
     shape (_tensor c) <> 1 :: rshape t) /\
  (rshape t = [] ->
   exists c h',
     TensorArray._reduce self "sum" h = Ok (c, h') /\
     value_of h' (_tensor c) =
       {| tdtype := dtype_of (elem total 0); tshape := [1; 1];
          tdata := [elem total 0] |}) /\
  (forall j, j < prod (rshape t) ->
     d <> float64 \/ prod (rshape t) <> 1 ->
     elem total j = foldl add (zero_of d) (map (fun r => elem r j) rws)) /\
  (forall name, name <> "sum"%string ->
   TensorArray._reduce self name h = Raise NotImplementedError).
Proof.
  intros Hwf t d rws total.
  assert (Forall (fun r => length r = prod (rshape t)) rws) as Hlens.
  { apply Forall_length_map_cast. by apply wf_rows_length. }
  assert (length total = prod (rshape t)) as Hlen.
  { by apply length_sum_rows. }
  split; [|split; [|split]].
  - intros d1 rest Hrs.
    unfold TensorArray._reduce. cbn [String.eqb Ascii.eqb Bool.eqb].
    unfold np_sum0, alloc_value, alloc_rows.
    unfold bind at 1. unfold bind at 1. unfold get_heap.
    fold t. fold d. fold rws. fold total. cbn [tshape tdtype tdata]. rewrite Hrs.
    unfold bind at 1. unfold ret at 1.
    rewrite init_contiguous by apply c_contiguous_seq.
    eexists _, _. split; [reflexivity|]. cbn [_tensor].
    assert (length (chunks d1 (prod rest) total) = d1) as Hn by apply length_chunks.
    unfold TensorArray.__len__, value_of. rewrite view_rows_alloc.
    unfold shape, len. cbn [_tensor rows rshape dtype_].
    rewrite length_seq, Hn.
    split; [|split; [done|split; [done|]]].
    + f_equal. apply concat_chunks. rewrite Hlen, Hrs. done.
    + intros Heq. apply (f_equal length) in Heq. simpl in Heq. lia.
  - intros Hrs.
    unfold TensorArray._reduce. cbn [String.eqb Ascii.eqb Bool.eqb].
    unfold np_sum0, alloc_value.
    unfold bind at 1. unfold bind at 1. unfold get_heap.
    fold t. fold d. fold rws. fold total. cbn [tshape tdtype tdata]. rewrite Hrs.
    unfold ret at 1.
    assert (exists s, total = [s]) as [s Hs].
    { rewrite Hrs in Hlen. simpl in Hlen.
      destruct total as [|s [|? ?]]; try discriminate. by exists s. }
    rewrite Hs. unfold elem. cbn [head default from_option lookup list_lookup]. unfold id.
    unfold TensorArray.__init__.
    unfold bind at 1. unfold alloc_rows.
    cbn [length seq].
    pose proof (c_contiguous_seq (length h) 1 [1] (dtype_of s)) as Hc.
    cbn [seq] in Hc. rewrite Hc. cbn [negb andb].
    unfold bind, ret.
    eexists _, _. split; [reflexivity|].
    unfold value_of, shape, len. cbn [_tensor rows rshape dtype_ length].
    f_equal.
    change [0] with (seq 0 (length [[s]])).
    by rewrite view_rows_alloc.
  - intros j Hj Hseq. by apply sum_rows_elem.
  - intros name. apply reduce_other.
Qed.

Lemma reduce_sum_row_axis_witness :
  exists c h',
    TensorArray._reduce int_col "sum" int_heap = Ok (c, h') /\
    value_of h' (_tensor c) =
      {| tdtype := int64; tshape := [2]; tdata := irow [6; 6]%Z |} /\
    TensorArray.__len__ c = 2 /\
    rshape (_tensor c) = [] /\
    shape (_tensor c) <> [1; 2].
Proof.
  destruct (reduce_sum_row_axis int_heap int_col eq_refl) as (Hsum & _).
  apply (Hsum 2 []). reflexivity.
Defined.

(** The defect of C3 on the rows [[1,1],[2,2],[3,3]]: the result of
    [_reduce("sum")] holds 6 and 6, but as a column of two rows that
    are scalars (shape (2,)), not as the column of the one row [6,6]
    (shape (1, 2)). *)
Lemma reduce_sum_counterexample :
  exists c h',
    TensorArray._reduce int_col "sum" int_heap = Ok (c, h') /\
    view_rows h' (_tensor c) = [[SInt 6]; [SInt 6]] /\
    shape (_tensor c) = [2] /\
    TensorArray.__len__ c <> 1 /\
    view_rows h' (_tensor c) <> [[SInt 6; SInt 6]].
Proof.
  eexists _, _. split; [vm_compute; reflexivity|].
  split; [reflexivity|]. split; [reflexivity|]. split; discriminate.
Qed.

(** The order of the additions shows on floats: the eight scalar rows
    1e16, 1, 1, 1, 1, 1, 1, 1 sum to 10000000000000006, where adding
    them first to last gives 1e16. *)
Lemma reduce_sum_pairwise :
  let h := [[[SFloat 1e16]; [SFloat 1]; [SFloat 1]; [SFloat 1];
             [SFloat 1]; [SFloat 1]; [SFloat 1]; [SFloat 1]]]%float in
  let self := {| _tensor := whole float64 [] 8 |} in
  (exists c h',
     TensorArray._reduce self "sum" h = Ok (c, h') /\
     view_rows h' (_tensor c) = [[SFloat 10000000000000006]]) /\
  foldl add (SFloat 0) (concat (view_rows h (_tensor self))) = SFloat 1e16.
Proof.
  split; [|reflexivity].
  eexists _, _. split; [vm_compute; reflexivity|]. reflexivity.
Qed.

(** * Missing rows *)

Lemma forallb_to_bool_isnan r :
  forallb to_bool (map (fun s => SBool (isnan s)) r) = all_nan r.
Proof. unfold all_nan. induction r as [|s r IH]; simpl; [done|]. by rewrite IH. Qed.

(** On a column of two dimensions [isna] says of each row whether all
    its elements are NaN. *)
Lemma isna_rows_eq h (self : TensorArray) d :
  wf_array h (_tensor self) = true ->
  rshape (_tensor self) = [d] ->
  TensorArray.isna self h =
    Ok ({| tdtype := bool_; tshape := [TensorArray.__len__ self];
           tdata := map (fun r => SBool (all_nan r)) (view_rows h (_tensor self)) |},
        h).
Proof.
  intros Hwf Hrs. unfold TensorArray.isna, bind, get_heap, ret.
  f_equal. f_equal.
  unfold np_all_last, np_isnan, value_of, shape, TensorArray.__len__.
  cbn [tshape tdata tdtype]. rewrite Hrs.
  cbn [removelast List.last prod foldr].
  f_equal.
  rewrite Nat.mul_1_r, chunks_fmap.
  rewrite <- (length_view_rows h (_tensor self)).
  rewrite chunks_concat.
  - rewrite map_map. apply map_ext. intros r. by rewrite forallb_to_bool_isnan.
  - pose proof (wf_rows_length h _ Hwf) as Hl. rewrite Hrs in Hl.
    simpl in Hl. eapply Forall_impl; [exact Hl|]. simpl. intros; lia.
Qed.

(** C2: [isna] reduces the last axis only. On the column with the one
    row [[NaN, NaN], [1, 2]] (shape (1, 2, 2)), whose row is not all
    NaN, it returns the array [[true, false]] of shape (1, 2) and not
    the sequence [false] of length 1; on the empty column that the
    constructor makes of an empty sequence (shape (0,)) it returns the
    single value true and not an empty sequence. On the two-dimensional
    column [[1,2],[NaN,NaN],[3,NaN]] it returns [false, true, false]. *)
Theorem isna_last_axis_only :
  TensorArray.isna cube_col cube_heap
    = Ok ({| tdtype := bool_; tshape := [1; 2];
             tdata := [SBool true; SBool false] |}, cube_heap) /\
  (exists c h,
     TensorArray.__init__ (VSeq []) true [] = Ok (c, h) /\
     TensorArray.__len__ c = 0 /\
     TensorArray.isna c h
       = Ok ({| tdtype := bool_; tshape := []; tdata := [SBool true] |}, h)) /\
  TensorArray.isna nan_col nan_heap
    = Ok ({| tdtype := bool_; tshape := [3];
             tdata := [SBool false; SBool true; SBool false] |}, nan_heap).
Proof.
  split; [reflexivity|]. split; [|reflexivity].
  eexists _, _. split; [reflexivity|]. split; reflexivity.
Qed.

(** * The positions an indexer selects are rows of the array *)

Lemma rmapM_norm_index_lt n l ps :
  rmapM (norm_index n) l = Ok ps -> Forall (fun p => p < n) ps.
Proof.
  revert ps. induction l as [|i l IH]; intros ps H; simpl in H.
  - injection H as <-. constructor.
  - apply rbind_Ok in H as (p & Hp & H).
    apply rbind_Ok in H as (ps' & Hps & H). injection H as <-.
    constructor; [by apply norm_index_Ok in Hp as (_ & _ & ?)|by apply IH].
Qed.

Lemma mask_positions_bounds m : forall i,
  Forall (fun p => i <= p < i + length m) (mask_positions i m).
Proof.
  induction m as [|b m IH]; intros i; simpl; [constructor|].
  apply Forall_app. split.
  - destruct b; repeat constructor; lia.
  - eapply Forall_impl; [apply IH|]. simpl. intros; lia.
Qed.

(** Every position a slice selects is a row: start + k * step lies in
    [0, n) for every k below the length of the slice. *)
Lemma slice_indices_bounds n start stop step s e st :
  slice_indices n start stop step = Ok (s, e, st) ->
  st <> 0%Z /\
  forall k, k < slice_length s e st ->
    (0 <= s + Z.of_nat k * st < Z.of_nat n)%Z.
Proof.
  unfold slice_indices. intros Hind.
  destruct (Z.eqb_spec (default 1%Z step) 0) as [|Hst]; [discriminate|].
  injection Hind as Hs He Est. rewrite Est in *. clear Est.
  split; [done|]. intros k Hk.
  set (ln := Z.of_nat n) in *.
  assert (0 <= ln)%Z as Hln by (unfold ln; lia).
  unfold slice_length in Hk.
  destruct (Z.ltb_spec st 0) as [Hneg|Hpos].
  - assert (-1 <= s <= ln - 1)%Z as Hsb.
    { rewrite <- Hs. destruct start as [v|]; [|lia].
      destruct (Z.ltb_spec v 0); lia. }
    assert (-1 <= e <= ln - 1)%Z as Heb.
    { rewrite <- He. destruct stop as [v|]; [|lia].
      destruct (Z.ltb_spec v 0); lia. }
    destruct (Z.ltb_spec e s) as [Hes|]; [|lia].
    assert (0 <= (s - e - 1) / - st)%Z by (apply Z.div_pos; lia).
    assert (- st * ((s - e - 1) / - st) <= s - e - 1)%Z
      by (apply Z.mul_div_le; lia).
    assert (Z.of_nat k <= (s - e - 1) / - st)%Z by lia.
    nia.
  - assert (0 <= s <= ln)%Z as Hsb.
    { rewrite <- Hs. destruct start as [v|]; [|lia].
      destruct (Z.ltb_spec v 0); lia. }
    assert (0 <= e <= ln)%Z as Heb.
    { rewrite <- He. destruct stop as [v|]; [|lia].
      destruct (Z.ltb_spec v 0); lia. }
    destruct (Z.ltb_spec s e) as [Hse|]; [|lia].
    assert (0 < st)%Z by lia.
    assert (0 <= (e - s - 1) / st)%Z by (apply Z.div_pos; lia).
    assert (st * ((e - s - 1) / st) <= e - s - 1)%Z
      by (apply Z.mul_div_le; lia).
    assert (Z.of_nat k <= (e - s - 1) / st)%Z by lia.
    nia.
Qed.

Lemma slice_positions_lt n start stop step ps :
  slice_positions n start stop step = Ok ps -> Forall (fun p => p < n) ps.
Proof.
  unfold slice_positions. intros H.
  apply rbind_Ok in H as ([[s e] st] & Hind & H). injection H as <-.
  apply slice_indices_bounds in Hind as [_ Hb].
  apply Forall_fmap, Forall_forall. intros k Hk. simpl.
  apply elem_of_seq in Hk as [_ Hk]. simpl in Hk.
  specialize (Hb k Hk). lia.
Qed.

(** A slice selects no row twice. *)
Lemma slice_positions_NoDup n start stop step ps :
  slice_positions n start stop step = Ok ps -> NoDup ps.
Proof.
  unfold slice_positions. intros H.
  apply rbind_Ok in H as ([[s e] st] & Hind & H). injection H as <-.
  apply slice_indices_bounds in Hind as [Hst Hb].
  apply NoDup_fmap_2_strong; [|apply NoDup_seq].
  intros k1 k2 Hk1 Hk2 E.
  apply elem_of_seq in Hk1 as [_ Hk1]. apply elem_of_seq in Hk2 as [_ Hk2].
  simpl in Hk1, Hk2.
  pose proof (Hb k1 Hk1). pose proof (Hb k2 Hk2).
  assert (Z.of_nat k1 * st = Z.of_nat k2 * st)%Z as Em by lia.
  apply Z.mul_cancel_r in Em; [lia|done].
Qed.

Lemma index_positions_lt n ix ps :
  index_positions n ix = Ok ps -> Forall (fun p => p < n) ps.
Proof.
  destruct ix as [start stop step|l|m|]; simpl; intros H.
  - by eapply slice_positions_lt.
  - by eapply rmapM_norm_index_lt.
  - destruct (Nat.eqb_spec (length m) n) as [<-|]; [|discriminate].
    injection H as <-.
    eapply Forall_impl; [apply mask_positions_bounds|]. simpl. intros; lia.
  - injection H as <-. apply Forall_forall. intros p Hp.
    apply elem_of_seq in Hp. lia.
Qed.

Lemma check_indexer_Ok n ix ix' : check_indexer n ix = Ok ix' -> ix' = ix.
Proof.
  destruct ix as [| |m|]; simpl; try by intros [= <-].
  destruct (length m =? n); [by intros [= <-]|discriminate].
Qed.

Lemma targets_lt n k ps : targets n k = Ok ps -> Forall (fun p => p < n) ps.
Proof.
  destruct k as [i|ix]; simpl; intros H.
  - apply rbind_Ok in H as (p & Hp & H). injection H as <-.
    apply norm_index_Ok in Hp as (_ & _ & Hp). by repeat constructor.
  - apply rbind_Ok in H as (ix' & Hix & H).
    apply check_indexer_Ok in Hix as ->. by eapply index_positions_lt.
Qed.

(** * Writing one and the same row at several positions *)

Lemma chunks_replicate {A} k size (x : A) :
  chunks k size (replicate (k * size) x) = replicate k (replicate size x).
Proof.
  induction k as [|k IH]; simpl; [done|].
  rewrite replicate_add.
  rewrite take_app_length' by (by rewrite length_replicate).
  rewrite drop_app_length' by (by rewrite length_replicate).
  by rewrite IH.
Qed.

Lemma foldl_insert_const {A B} (g : nat -> nat) (f : B -> A) (r : B) ps :
  forall buf : list A,
  foldl (fun b (pr : nat * B) => <[g pr.1 := f pr.2]> b) buf
        (zip ps (replicate (length ps) r))
  = foldl (fun b q => <[q := f r]> b) buf (map g ps).
Proof.
  induction ps as [|p ps IH]; intros buf; simpl; [done|]. apply IH.
Qed.

Lemma lookup_foldl_insert {A} (r : A) qs : forall (buf : list A) q,
  q < length buf ->
  foldl (fun b q => <[q := r]> b) buf qs !! q
  = if decide (q ∈ qs) then Some r else buf !! q.
Proof.
  induction qs as [|q' qs IH]; intros buf q Hq; simpl.
  - destruct (decide (q ∈ [])) as [Hin|]; [|done]. by apply elem_of_nil in Hin.
  - rewrite IH by (by rewrite length_insert).
    destruct (decide (q ∈ qs)) as [Hin|Hnin].
    + rewrite decide_True; [done|]. apply elem_of_cons. by right.
    + destruct (decide (q = q')) as [->|Hne].
      * rewrite decide_True by (apply elem_of_cons; by left).
        by apply list_lookup_insert_eq.
      * rewrite decide_False.
        -- by apply list_lookup_insert_ne.
        -- intros Hin. apply elem_of_cons in Hin as [?|?]; done.
Qed.

Lemma NoDup_lookup_total_inj (l : list nat) i j :
  NoDup l -> i < length l -> j < length l -> l !!! i = l !!! j -> i = j.
Proof.
  intros Hnd Hi Hj E.
  destruct (lookup_lt_is_Some_2 l i Hi) as [x Hx].
  destruct (lookup_lt_is_Some_2 l j Hj) as [y Hy].
  rewrite (list_lookup_total_correct _ _ _ Hx) in E.
  rewrite (list_lookup_total_correct _ _ _ Hy) in E. subst y.
  by eapply NoDup_lookup.
Qed.

Lemma elem_of_map_rows (l : list nat) ps i :
  NoDup l -> i < length l -> Forall (fun p => p < length l) ps ->
  l !!! i ∈ map (fun p => l !!! p) ps <-> i ∈ ps.
Proof.
  intros Hnd Hi Hps. split.
  - intros Hin. apply list_elem_of_fmap in Hin as (p & E & Hp).
    rewrite Forall_forall in Hps.
    assert (i = p) as ->; [|done].
    eapply NoDup_lookup_total_inj; eauto.
  - intros Hin. apply list_elem_of_fmap. by exists i.
Qed.

(** * Assigning an empty value *)

Lemma cast_idem d x : cast d (cast d x) = cast d x.
Proof. by destruct d. Qed.

(** Assigning a value made of one repeated element of the dtype of
    the array writes a row of that element at every targeted position. *)
Lemma np_setitem_const t k ps x sh h :
  targets (len t) k = Ok ps ->
  sh = match k with KInt _ => rshape t | KSel _ => length ps :: rshape t end ->
  np_setitem t k {| tdtype := dtype_ t; tshape := sh;
                    tdata := replicate (prod sh) (cast (dtype_ t) x) |} h
  = Ok (tt, alter (fun buf =>
                     foldl (fun b q => <[q := replicate (prod (rshape t)) (cast (dtype_ t) x)]> b)
                           buf (map (fun p => rows t !!! p) ps))
                  (base t) h).
Proof.
  intros Ht ->. unfold np_setitem. destruct k as [i|ix]; simpl in Ht.
  - apply rbind_Ok in Ht as (p & Hp & Ht). injection Ht as <-.
    unfold bind, lift. rewrite Hp. cbn [tshape tdata].
    rewrite broadcast_to_same by apply length_replicate.
    unfold write_rows. cbn [zip zip_with foldl map fst snd].
    by rewrite fmap_replicate, cast_idem.
  - apply rbind_Ok in Ht as (ix' & Hix & Ht).
    apply check_indexer_Ok in Hix as ->.
    unfold bind, lift. rewrite Ht. cbn [tshape tdata].
    rewrite broadcast_to_same by apply length_replicate.
    unfold write_rows. cbn [prod foldr]. fold (prod (rshape t)).
    rewrite chunks_replicate. f_equal. f_equal.
    apply list_alter_ext; [|done]. intros buf _.
    rewrite (foldl_insert_const (fun p => rows t !!! p) (map (cast (dtype_ t)))).
    by rewrite fmap_replicate, cast_idem.
Qed.

Lemma check_array_indexer_targets n k ps :
  targets n k = Ok ps -> check_array_indexer n k = Ok k.
Proof.
  destruct k as [i|ix]; simpl; [done|]. intros H.
  apply rbind_Ok in H as (ix' & Hix & _).
  rewrite Hix. by apply check_indexer_Ok in Hix as ->.
Qed.

(** What [__setitem__] does with [None] or an empty sequence at a
    valid key: every targeted row becomes a row of NaN cast to the
    dtype of the column; [g] is what reading [self._tensor[key]] may
    have allocated. *)
Lemma setitem_empty_eq h (self : TensorArray) k value ps :
  wf_array h (_tensor self) = true ->
  TensorArray.is_empty_value value = true ->
  targets (TensorArray.__len__ self) k = Ok ps ->
  exists g,
    TensorArray.__setitem__ self k value h
    = Ok (tt, alter (fun buf =>
                       foldl (fun b q => <[q := replicate (prod (rshape (_tensor self)))
                                                  (cast (dtype_ (_tensor self)) NaN)]> b)
                             buf (map (fun p => rows (_tensor self) !!! p) ps))
                    (base (_tensor self)) (h ++ g)).
Proof.
  intros Hwf Hempty Ht. unfold TensorArray.__len__ in Ht.
  set (t := _tensor self) in *.
  unfold TensorArray.__setitem__, TensorArray.__len__. fold t.
  unfold bind at 1. unfold lift at 1.
  rewrite (check_array_indexer_targets _ _ _ Ht). rewrite Hempty.
  destruct k as [i|ix].
  - pose proof Ht as Ht'. simpl in Ht'.
    apply rbind_Ok in Ht' as (p & Hp & Ht'). injection Ht' as <-.
    exists []. rewrite app_nil_r.
    unfold bind at 1. rewrite (np_getitem_int_eq t i h p Hp).
    unfold bind at 1. unfold get_heap.
    rewrite row_item_value;
      [|done|by apply norm_index_Ok in Hp as (_ & _ & ?)].
    unfold np_full_like. cbn [tdtype tshape].
    by apply (np_setitem_const t (KInt i) [p]).
  - pose proof Ht as Ht'. simpl in Ht'.
    apply rbind_Ok in Ht' as (ix' & Hix & Hps).
    apply check_indexer_Ok in Hix as ->.
    assert (exists r g, np_getitem t ix h = Ok (r, h ++ g) /\
                        len r = length ps /\ rshape r = rshape t /\
                        dtype_ r = dtype_ t) as (r & g & Hr & Hlen & Hrs & Hd).
    { unfold np_getitem, bind, lift, get_heap, alloc_rows, ret. rewrite Hps.
      destruct ix; eexists _, _.
      - split; [by rewrite app_nil_r|]. unfold len. simpl. by rewrite length_map.
      - split; [reflexivity|]. unfold len. simpl.
        by rewrite length_seq, length_map.
      - split; [reflexivity|]. unfold len. simpl.
        by rewrite length_seq, length_map.
      - split; [by rewrite app_nil_r|]. unfold len. simpl. by rewrite length_map. }
    exists g.
    unfold bind at 1. unfold bind at 1. rewrite Hr. unfold ret at 1.
    unfold bind at 1. unfold get_heap.
    unfold np_full_like, npval_value, value_of, shape.
    cbn [tdtype tshape]. rewrite Hlen, Hrs, Hd.
    by apply (np_setitem_const t (KSel ix) ps).
Qed.

Lemma view_rows_seq h a :
  view_rows h a = map (view_row h a) (seq 0 (len a)).
Proof.
  apply list_eq. intros i. rewrite list_lookup_fmap.
  destruct (decide (i < len a)) as [Hi|Hi].
  - rewrite lookup_seq_lt by done. simpl. by apply view_row_lt.
  - rewrite lookup_seq_ge by lia. simpl.
    apply lookup_ge_None. rewrite length_view_rows. lia.
Qed.

Lemma wf_array_lookup h a p :
  wf_array h a = true -> p ∈ rows a ->
  exists buf r, h !! base a = Some buf /\ buf !! p = Some r /\
                wf_row (dtype_ a) (prod (rshape a)) r = true.
Proof.
  unfold wf_array. rewrite !andb_true_iff. intros [_ H] Hp.
  rewrite forallb_forall in H. apply list_elem_of_In, H in Hp.
  destruct (h !! base a) as [buf|]; [|done]. simpl in Hp.
  destruct (buf !! p) as [r|] eqn:Er; [|done]. eauto.
Qed.

Section WriteConst.
Variables (h g : heap) (t : ndarray) (qs : list nat) (row : list scalar).
Hypothesis Hwf : wf_array h t = true.

Local Abbreviation h' :=
  (alter (fun buf => foldl (fun b q => <[q := row]> b) buf qs) (base t) (h ++ g)).

(** After one row has been written at the positions [qs] of the
    buffer of [t], a row that [t] exposes is that row at a position
    of [qs] and what it was elsewhere. *)
Lemma written_lookup p :
  p ∈ rows t ->
  h' !! base t ≫= (.!! p)
  = if decide (p ∈ qs) then Some row else h !! base t ≫= (.!! p).
Proof.
  intros Hp. destruct (wf_array_lookup h t p Hwf Hp) as (buf & r & Hb & Hr & _).
  rewrite list_lookup_alter_eq.
  rewrite lookup_app_l by (by apply wf_array_base).
  rewrite Hb. simpl.
  apply lookup_foldl_insert. by eapply lookup_lt_Some.
Qed.

Lemma written_wf :
  wf_row (dtype_ t) (prod (rshape t)) row = true -> wf_array h' t = true.
Proof.
  intros Hrow. pose proof Hwf as Hwf0. unfold wf_array in Hwf0 |- *.
  rewrite !andb_true_iff in Hwf0 |- *. destruct Hwf0 as [[Hb Hnd] Hrows].
  split; [split; [|done]|].
  - apply Nat.ltb_lt. rewrite length_alter, length_app.
    apply Nat.ltb_lt in Hb. lia.
  - rewrite forallb_forall in Hrows |- *. intros p Hp.
    rewrite written_lookup by (by apply list_elem_of_In).
    destruct (decide (p ∈ qs)); [done|]. by apply Hrows.
Qed.

End WriteConst.

Lemma written_view_row h g t row ps i :
  wf_array h t = true ->
  Forall (fun p => p < len t) ps -> i < len t ->
  view_row (alter (fun buf => foldl (fun b q => <[q := row]> b) buf
                                (map (fun p => rows t !!! p) ps))
                  (base t) (h ++ g)) t i
  = if decide (i ∈ ps) then row else view_row h t i.
Proof.
  intros Hwf Hps Hi. rewrite !view_row_buf by done. unfold buf_row.
  assert (rows t !!! i ∈ rows t) as Hin.
  { apply list_elem_of_lookup_total_2. exact Hi. }
  rewrite written_lookup by done.
  pose proof (elem_of_map_rows (rows t) ps i (wf_array_NoDup _ _ Hwf) Hi Hps) as Hiff.
  destruct (decide (i ∈ ps)) as [Hi'|Hi'].
  - rewrite decide_True by (by apply Hiff). done.
  - rewrite decide_False by (by rewrite Hiff). done.
Qed.


Lemma all_nan_replicate n : all_nan (replicate n NaN) = true.
Proof. unfold all_nan. induction n as [|n IH]; simpl; [done|]. exact IH. Qed.

Lemma wf_row_replicate d n x :
  dtype_of x = d -> wf_row d n (replicate n x) = true.
Proof.
  intros <-. apply wf_row_spec. split; [apply length_replicate|].
  apply Forall_forall. intros y Hy. by apply elem_of_replicate in Hy as [-> _].
Qed.

(** C8, as amended: on a well-formed column of dtype float64, assigning
    [None] or an empty sequence at a valid key does not raise; every
    targeted row becomes all NaN and every other row is left as it was,
    and the column stays well formed; when the column has two
    dimensions, [isna] afterwards is true at every targeted row and, at
    every other row, says what it said before. *)
Theorem setitem_empty_marks_missing h (self : TensorArray) k value ps :
  wf_array h (_tensor self) = true ->
  dtype_ (_tensor self) = float64 ->
  TensorArray.is_empty_value value = true ->
  targets (TensorArray.__len__ self) k = Ok ps ->
  let t := _tensor self in
  exists h',
    TensorArray.__setitem__ self k value h = Ok (tt, h') /\
    wf_array h' t = true /\
    (forall i, i < len t ->
       view_row h' t i =
         if decide (i ∈ ps) then replicate (prod (rshape t)) NaN
         else view_row h t i) /\
    (forall d, rshape t = [d] ->
       TensorArray.isna self h' =
         Ok ({| tdtype := bool_; tshape := [len t];
                tdata := map (fun i => SBool (if decide (i ∈ ps) then true
                                               else all_nan (view_row h t i)))
                             (seq 0 (len t)) |}, h')).
Proof.
  intros Hwf Hd Hempty Ht t.
  destruct (setitem_empty_eq h self k value ps Hwf Hempty Ht) as [g Hset].
  fold t in Hset, Hwf, Hd. rewrite Hd in Hset. cbn [cast to_float NaN] in Hset.
  fold NaN in Hset.
  eexists. split; [exact Hset|].
  assert (Forall (fun p => p < len t) ps) as Hps by (by eapply targets_lt).
  assert (wf_array
            (alter (fun buf => foldl (fun b q => <[q := replicate (prod (rshape t)) NaN]> b)
                                 buf (map (fun p => rows t !!! p) ps))
                   (base t) (h ++ g)) t = true) as Hwf'.
  { apply written_wf; [done|]. apply wf_row_replicate. by rewrite Hd. }
  assert (forall i, i < len t ->
            view_row (alter (fun buf => foldl (fun b q => <[q := replicate (prod (rshape t)) NaN]> b)
                                 buf (map (fun p => rows t !!! p) ps))
                   (base t) (h ++ g)) t i
            = if decide (i ∈ ps) then replicate (prod (rshape t)) NaN
              else view_row h t i) as Hrows.
  { intros i Hi. by apply written_view_row. }
  split; [done|]. split; [done|].
  intros d Hrs. rewrite (isna_rows_eq _ self d Hwf' Hrs).
  f_equal. f_equal. unfold TensorArray.__len__. fold t. f_equal.
  rewrite view_rows_seq, map_map. apply map_ext_in. intros i Hi.
  apply in_seq in Hi. rewrite Hrows by lia.
  destruct (decide (i ∈ ps)); [|done]. by rewrite all_nan_replicate.
Qed.

Lemma setitem_empty_marks_missing_witness :
  exists h',
    TensorArray.__setitem__ nan_col (KSel (KMask [true; false; false]))
      TensorArray.SNone nan_heap = Ok (tt, h') /\
    wf_array h' (_tensor nan_col) = true /\
    (forall i, i < 3 ->
       view_row h' (_tensor nan_col) i =
         if decide (i ∈ [0]) then replicate 2 NaN
         else view_row nan_heap (_tensor nan_col) i) /\
    (forall d, [2] = [d] ->
       TensorArray.isna nan_col h' =
         Ok ({| tdtype := bool_; tshape := [3];
                tdata := map (fun i => SBool (if decide (i ∈ [0]) then true
                                               else all_nan (view_row nan_heap (_tensor nan_col) i)))
                             (seq 0 3) |}, h')).
Proof.
  apply (setitem_empty_marks_missing nan_heap nan_col
           (KSel (KMask [true; false; false])) TensorArray.SNone [0]);
    reflexivity.
Defined.

(** C8 as stated fails: on the integer column [[1, 2]], assigning
    [None] at row 0 does not raise, but an integer cannot be NaN: the
    row does not become all NaN and [isna] still reports false for it. *)
Lemma setitem_empty_int_counterexample :
  exists h',
    TensorArray.__setitem__ one_col (KInt 0) TensorArray.SNone one_heap = Ok (tt, h') /\
    view_row h' (_tensor one_col) 0 = irow [int64_min; int64_min] /\
    all_nan (view_row h' (_tensor one_col) 0) = false /\
    TensorArray.isna one_col h' =
      Ok ({| tdtype := bool_; tshape := [1]; tdata := [SBool false] |}, h').
Proof.
  eexists. split; [vm_compute; reflexivity|].
  split; [reflexivity|]. split; reflexivity.
Qed.

(** * Broadcasting *)

Lemma rmapM_Forall2 {A B} (f : A -> res B) l l' :
  rmapM f l = Ok l' -> Forall2 (fun x y => f x = Ok y) l l'.
Proof.
  revert l'. induction l as [|x l IH]; intros l' H; simpl in H.
  - injection H as <-. constructor.
  - apply rbind_Ok in H as (y & Hy & H).
    apply rbind_Ok in H as (ys & Hys & H). injection H as <-.
    constructor; [done|by apply IH].
Qed.

Lemma length_concat_uniform {A} (ls : list (list A)) n :
  Forall (fun l => length l = n) ls -> length (concat ls) = length ls * n.
Proof.
  induction 1 as [|l ls Hl _ IH]; simpl; [done|].
  rewrite length_app, IH, Hl. lia.
Qed.

Lemma prod_app s1 s2 : prod (s1 ++ s2) = prod s1 * prod s2.
Proof.
  unfold prod. induction s1 as [|d s1 IH]; simpl; [lia|].
  rewrite IH. lia.
Qed.

Lemma prod_ones k : prod (replicate k 1) = 1.
Proof. unfold prod. induction k as [|k IH]; simpl; [done|]. rewrite IH. lia. Qed.

Lemma prod_all_ones s : forallb (Nat.eqb 1) s = true -> prod s = 1.
Proof.
  unfold prod. induction s as [|d s IH]; cbn [forallb foldr]; [done|].
  intros H. apply andb_true_iff in H as [Hd Hs].
  apply Nat.eqb_eq in Hd as <-. rewrite IH by done. lia.
Qed.

(** A broadcast value has as many elements as its shape says. *)
Lemma bcast_length s : forall t data r,
  length data = prod s -> bcast s t data = Ok r -> length r = prod t.
Proof.
  induction s as [|sd s IH]; intros [|td t] data r Hlen H; simpl in H;
    try discriminate.
  - by injection H as <-.
  - change (prod (sd :: s)) with (sd * prod s) in Hlen.
    change (prod (td :: t)) with (td * prod t).
    destruct (Nat.eqb_spec sd td) as [->|Hne].
    + apply rbind_Ok in H as (parts & Hparts & H). injection H as <-.
      apply rmapM_Forall2 in Hparts.
      pose proof (Forall2_length _ _ _ Hparts) as Hn.
      rewrite length_chunks in Hn.
      rewrite (length_concat_uniform parts (prod t)); [lia|].
      pose proof (Forall_length_chunks td (prod s) data Hlen) as Hch.
      clear Hn. induction Hparts as [|c p cs ps Hc _ IHp]; constructor.
      * apply Forall_cons in Hch as [Hcl _]. by eapply IH.
      * apply IHp. by apply Forall_cons in Hch as [_ ?].
    + destruct (Nat.eqb_spec sd 1) as [->|]; [|discriminate].
      apply rbind_Ok in H as (part & Hpart & H). injection H as <-.
      rewrite (length_concat_uniform _ (prod t)).
      * by rewrite length_replicate.
      * apply Forall_replicate. eapply IH; [|exact Hpart]. lia.
Qed.

Lemma broadcast_to_length s t data r :
  length data = prod s -> broadcast_to s t data = Ok r -> length r = prod t.
Proof.
  unfold broadcast_to. intros Hlen H.
  destruct (length s <=? length t).
  - eapply bcast_length; [|exact H].
    by rewrite prod_app, prod_ones, Nat.mul_1_l.
  - destruct (forallb _ _) eqn:Hones; [|discriminate].
    eapply bcast_length; [|exact H].
    rewrite Hlen, <- (take_drop (length s - length t) s) at 1.
    rewrite prod_app, (prod_all_ones _ Hones). lia.
Qed.

Lemma broadcast_dims_length s : forall t r,
  broadcast_dims s t = Ok r -> length r = length s.
Proof.
  induction s as [|sd s IH]; intros [|td t] r H; simpl in H; try discriminate.
  - by injection H as <-.
  - apply rbind_Ok in H as (r' & Hr' & H).
    apply IH in Hr'.
    destruct (sd =? td); [|destruct (sd =? 1); [|destruct (td =? 1)]];
      try discriminate; injection H as <-; simpl; lia.
Qed.

Lemma broadcast_shapes_length s t r :
  broadcast_shapes s t = Ok r -> length r = max (length s) (length t).
Proof.
  unfold broadcast_shapes. intros H. apply broadcast_dims_length in H.
  rewrite H, length_app, length_replicate. lia.
Qed.

Lemma rmapM_length {A B} (f : A -> res B) l l' :
  rmapM f l = Ok l' -> length l' = length l.
Proof.
  intros H. apply rmapM_Forall2 in H. symmetry. by eapply Forall2_length.
Qed.

Lemma rmapM_zip_total {A B C} (f : A -> B -> C) (l : list A) : forall (k : list B),
  rmapM (fun p => Ok (f p.1 p.2)) (zip l k) = Ok (zip_with f l k).
Proof.
  induction l as [|x l IH]; intros [|y k]; simpl; try done.
  by rewrite IH.
Qed.

(** The value of a ufunc is well sized and has the broadcast shape. *)
Lemma np_elementwise_length u x y t :
  length (tdata x) = prod (tshape x) -> length (tdata y) = prod (tshape y) ->
  np_elementwise u x y = Ok t ->
  length (tdata t) = prod (tshape t) /\
  broadcast_shapes (tshape x) (tshape y) = Ok (tshape t) /\
  length (tshape t) = max (length (tshape x)) (length (tshape y)) /\
  uf_dtype u (tdtype x) (tdtype y) = Ok (tdtype t).
Proof.
  intros Hx Hy H. unfold np_elementwise in H.
  apply rbind_Ok in H as (d & Hd & H).
  apply rbind_Ok in H as (s & Hs & H).
  apply rbind_Ok in H as (dx & Hdx & H).
  apply rbind_Ok in H as (dy & Hdy & H).
  apply rbind_Ok in H as (data & Hdata & H). injection H as <-. simpl.
  apply broadcast_to_length in Hdx; [|done].
  apply broadcast_to_length in Hdy; [|done].
  apply rmapM_length in Hdata.
  split; [|split; [done|split; [by apply broadcast_shapes_length|done]]].
  rewrite Hdata, length_zip. lia.
Qed.

(** When the shapes do not broadcast the ufunc fails, whatever it is,
    once the dtype is settled. *)
Lemma np_elementwise_mismatch dt f x y e :
  broadcast_shapes (tshape x) (tshape y) = Raise e ->
  np_elementwise (total_ufunc dt f) x y = Raise e.
Proof. intros H. unfold np_elementwise. simpl. by rewrite H. Qed.

(** Two values of one shape: the operator is applied element by element. *)
Lemma broadcast_dims_same s : broadcast_dims s s = Ok s.
Proof.
  induction s as [|d s IH]; simpl; [done|]. rewrite IH. simpl.
  by rewrite Nat.eqb_refl.
Qed.

Lemma broadcast_shapes_same s : broadcast_shapes s s = Ok s.
Proof.
  unfold broadcast_shapes. rewrite Nat.max_id, Nat.sub_diag. simpl.
  apply broadcast_dims_same.
Qed.

Lemma np_elementwise_same_shape dt f x y :
  tshape y = tshape x ->
  length (tdata x) = prod (tshape x) -> length (tdata y) = prod (tshape x) ->
  np_elementwise (total_ufunc dt f) x y =
    Ok {| tdtype := dt (tdtype x) (tdtype y); tshape := tshape x;
          tdata := zip_with f (tdata x) (tdata y) |}.
Proof.
  intros Hs Hx Hy. unfold np_elementwise. cbn [total_ufunc uf_dtype uf_fn rbind].
  rewrite Hs, broadcast_shapes_same. simpl.
  rewrite !broadcast_to_same by done. simpl.
  by rewrite rmapM_zip_total.
Qed.

(** A value and a scalar: the scalar meets every element. *)
Lemma broadcast_dims_ones s :
  broadcast_dims s (replicate (length s) 1) = Ok s.
Proof.
  induction s as [|d s IH]; simpl; [done|]. rewrite IH. simpl.
  by destruct (Nat.eqb_spec d 1) as [->|].
Qed.

Lemma broadcast_shapes_scalar s : broadcast_shapes s [] = Ok s.
Proof.
  unfold broadcast_shapes. simpl.
  rewrite Nat.max_0_r, Nat.sub_diag, Nat.sub_0_r, app_nil_r. simpl.
  apply broadcast_dims_ones.
Qed.

Lemma concat_replicate_replicate {A} n m (x : A) :
  concat (replicate n (replicate m x)) = replicate (n * m) x.
Proof.
  induction n as [|n IH]; simpl; [done|]. by rewrite IH, replicate_add.
Qed.

Lemma bcast_scalar (x : scalar) t :
  bcast (replicate (length t) 1) t [x] = Ok (replicate (prod t) x).
Proof.
  induction t as [|td t IH]; [done|].
  cbn [length replicate bcast]. rewrite prod_ones.
  change (prod (td :: t)) with (td * prod t).
  destruct (Nat.eqb_spec 1 td) as [<-|Hne].
  - cbn [chunks take drop rmapM]. rewrite IH. cbn [rbind concat].
    by rewrite app_nil_r, Nat.mul_1_l.
  - cbn [Nat.eqb]. rewrite IH. cbn [rbind].
    by rewrite concat_replicate_replicate.
Qed.

Lemma broadcast_to_scalar (x : scalar) t :
  broadcast_to [] t [x] = Ok (replicate (prod t) x).
Proof.
  unfold broadcast_to. simpl. rewrite Nat.sub_0_r, app_nil_r.
  apply bcast_scalar.
Qed.

Lemma zip_with_replicate_r {A B C} (f : A -> B -> C) (l : list A) (y : B) :
  zip_with f l (replicate (length l) y) = map (fun x => f x y) l.
Proof. induction l as [|x l IH]; simpl; [done|]. by rewrite IH. Qed.

Lemma np_elementwise_scalar dt f x s :
  length (tdata x) = prod (tshape x) ->
  np_elementwise (total_ufunc dt f) x
      {| tdtype := dtype_of s; tshape := []; tdata := [s] |} =
    Ok {| tdtype := dt (tdtype x) (dtype_of s); tshape := tshape x;
          tdata := map (fun e => f e s) (tdata x) |}.
Proof.
  intros Hx. unfold np_elementwise. cbn [tshape tdata tdtype total_ufunc uf_dtype uf_fn rbind].
  rewrite broadcast_shapes_scalar. simpl.
  rewrite broadcast_to_same by done.
  rewrite broadcast_to_scalar. simpl.
  by rewrite rmapM_zip_total, <- Hx, zip_with_replicate_r.
Qed.

(** * Binary operators *)

Lemma value_of_size h a :
  wf_array h a = true ->
  length (tdata (value_of h a)) = prod (tshape (value_of h a)).
Proof.
  intros Hwf. unfold value_of, shape. cbn [tdata tshape].
  rewrite (length_concat_uniform _ (prod (rshape a))) by (by apply wf_rows_length).
  by rewrite length_view_rows.
Qed.

Lemma npval_value_size h v :
  wf_npval h v = true ->
  length (tdata (npval_value h v)) = prod (tshape (npval_value h v)).
Proof.
  destruct v as [a|b p rs d|s|q r]; simpl; intros Hwf.
  - by apply value_of_size.
  - unfold buf_row. destruct (h !! b ≫= (.!! p)) as [r|]; [|done].
    by apply wf_row_spec in Hwf as [? _].
  - done.
  - done.
Qed.

Lemma extends_npval_value h h' v :
  extends h h' -> wf_npval h v = true -> npval_value h' v = npval_value h v.
Proof.
  intros [k ->]. destruct v as [a|b p rs d|s|q r]; simpl; intros Hwf.
  - unfold value_of. rewrite view_rows_app; [done|]. by eapply wf_array_base.
  - f_equal. unfold buf_row.
    destruct (h !! b) as [buf|] eqn:Hb; [|done].
    by rewrite (lookup_app_l_Some _ _ _ _ Hb).
  - done.
  - done.
Qed.

Lemma wf_operand_npval h v : wf_operand h v = true -> wf_npval h v = true.
Proof. by destruct v. Qed.

Lemma npval_of_out_value h o : npval_value h (npval_of_out o) = npout_value h o.
Proof. by destruct o. Qed.

(** Allocating a value of one or more dimensions gives an array that
    holds it. *)
Lemma alloc_value_array t n rs h :
  tshape t = n :: rs -> length (tdata t) = prod (tshape t) ->
  let a := {| base := length h; rows := seq 0 n; rshape := rs; dtype_ := tdtype t |} in
  let h' := h ++ [chunks n (prod rs) (tdata t)] in
  alloc_value t h = Ok (OutArr a, h') /\
  view_rows h' a = chunks n (prod rs) (tdata t) /\
  value_of h' a = t.
Proof.
  intros Hs Hlen a h'. unfold alloc_value. rewrite Hs.
  unfold bind, alloc_rows, ret. rewrite length_chunks.
  split; [done|].
  assert (view_rows h' a = chunks n (prod rs) (tdata t)) as Hv.
  { unfold a, h'.
    rewrite <- (length_chunks n (prod rs) (tdata t)) at 2.
    apply view_rows_alloc. }
  split; [done|].
  unfold value_of, shape, len. rewrite Hv. cbn [rows rshape dtype_ a].
  rewrite length_seq, concat_chunks by (by rewrite Hlen, Hs).
  destruct t. simpl in *. by rewrite Hs.
Qed.

(** Allocating a well-sized value: what comes back holds its shape and
    its elements, and goes on holding them while the heap grows. *)
Lemma alloc_value_spec t h :
  length (tdata t) = prod (tshape t) ->
  exists o h',
    alloc_value t h = Ok (o, h') /\ extends h h' /\
    tshape (npout_value h' o) = tshape t /\
    tdata (npout_value h' o) = tdata t /\
    (forall k, npout_value (h' ++ k) o = npout_value h' o).
Proof.
  intros Hlen. destruct (tshape t) as [|n rs] eqn:Hs.
  - unfold alloc_value. rewrite Hs. unfold ret.
    eexists _, _. split; [reflexivity|]. split; [apply extends_refl|].
    cbn [npout_value tshape tdata]. split; [done|]. split; [|done].
    simpl in Hlen. by destruct (tdata t) as [|s [|? ?]].
  - destruct (alloc_value_array t n rs h Hs) as (Halloc & _ & Hval);
      [by rewrite Hs|].
    eexists _, _. split; [exact Halloc|]. split; [apply extends_app|].
    cbn [npout_value]. rewrite Hval. split; [done|]. split; [done|].
    intros k. unfold value_of. rewrite view_rows_app; [done|].
    cbn [base]. rewrite length_app. simpl. lia.
Qed.

(** What an operator has computed when it returns one value: the
    value of a ufunc, or the boolean that [==] and [!=] answer with
    when their ufunc fails. *)
Lemma np_binop_One op x y t :
  np_binop op x y = Ok (One t) ->
  (exists u, np_elementwise u x y = Ok t) \/
  (exists u e b, op = Equality u b /\ np_elementwise u x y = Raise e /\
     t = {| tdtype := bool_; tshape := []; tdata := [SBool b] |}).
Proof.
  destruct op as [u|u b|u1 u2]; simpl.
  - destruct (np_elementwise u x y) as [t'|e] eqn:Hu; [|discriminate].
    intros [= <-]. left. by exists u.
  - destruct (np_elementwise u x y) as [t'|e] eqn:Hu.
    + intros [= <-]. left. by exists u.
    + intros [= <-]. right. by exists u, e, b.
  - destruct (np_elementwise u1 x y); [|discriminate]. simpl.
    by destruct (np_elementwise u2 x y).
Qed.

Lemma np_binop_Two op x y q r :
  np_binop op x y = Ok (Two q r) ->
  exists u1 u2, np_elementwise u1 x y = Ok q /\ np_elementwise u2 x y = Ok r.
Proof.
  destruct op as [u|u b|u1 u2]; simpl.
  - by destruct (np_elementwise u x y).
  - by destruct (np_elementwise u x y).
  - destruct (np_elementwise u1 x y) as [q'|] eqn:H1; [|discriminate]. simpl.
    destruct (np_elementwise u2 x y) as [r'|] eqn:H2; [|discriminate]. simpl.
    intros [= <- <-]. by exists u1, u2.
Qed.

Lemma create_method_unfold (cls : Type) `{TensorOpsMixin cls} op
    (self : cls) other h :
  _create_method cls op self other h =
    match np_binop op (npval_value h (tensor_of self))
                      (npval_value h (raw_operand other)) with
    | Ok (One t) => (o <- alloc_value t ;; construct (Single o)) h
    | Ok (Two q r) =>
        (q' <- alloc_value q ;; r' <- alloc_value r ;;
         construct (Tuple q' r')) h
    | Raise e => Raise e
    end.
Proof.
  unfold _create_method, apply_op, bind, get_heap, lift.
  fold (raw_operand other).
  destruct (np_binop op _ _) as [[t|q r]|e]; [| |done].
  - by destruct (alloc_value t h) as [[res h1]|e].
  - destruct (alloc_value q h) as [[q' h1]|e]; [|done].
    by destruct (alloc_value r h1) as [[r' h2]|e].
Qed.

(** The operator on a column, when it computed one value of one or
    more dimensions: the result is a column on a new buffer that holds
    the value. *)
Lemma create_method_array op (self : TensorArray) other h t n rs :
  np_binop op (value_of h (_tensor self))
              (npval_value h (raw_operand other)) = Ok (One t) ->
  tshape t = n :: rs -> length (tdata t) = prod (tshape t) ->
  let a := {| base := length h; rows := seq 0 n; rshape := rs; dtype_ := tdtype t |} in
  let h' := h ++ [chunks n (prod rs) (tdata t)] in
  _create_method TensorArray op self other h = Ok ({| _tensor := a |}, h') /\
  view_rows h' a = chunks n (prod rs) (tdata t) /\
  value_of h' a = t.
Proof.
  intros Hop Hs Hlen a h'.
  destruct (alloc_value_array t n rs h Hs Hlen) as (Halloc & Hv & Hval).
  split; [|done].
  rewrite create_method_unfold. cbn [tensor_of TensorArray_ops npval_value].
  rewrite Hop. unfold bind. rewrite Halloc. cbn [construct TensorArray_ops].
  apply init_contiguous, c_contiguous_seq.
Qed.

(** The operator on a column, when it answered with a scalar: the
    constructor makes the column of shape (1, 1) that holds it. *)
Lemma create_method_scalar op (self : TensorArray) other h d s :
  np_binop op (value_of h (_tensor self))
              (npval_value h (raw_operand other))
    = Ok (One {| tdtype := d; tshape := []; tdata := [s] |}) ->
  let a := {| base := length h; rows := [0]; rshape := [1]; dtype_ := dtype_of s |} in
  let h' := h ++ [[[s]]] in
  _create_method TensorArray op self other h = Ok ({| _tensor := a |}, h') /\
  value_of h' a = {| tdtype := dtype_of s; tshape := [1; 1]; tdata := [s] |}.
Proof.
  intros Hop a h'. split.
  - rewrite create_method_unfold. cbn [tensor_of TensorArray_ops npval_value].
    rewrite Hop. unfold bind, alloc_value. cbn [tshape tdata head default ret from_option].
    unfold id.
    cbn [construct TensorArray_ops].
    unfold TensorArray.__init__, bind, alloc_rows. cbn [length seq].
    pose proof (c_contiguous_seq (length h) 1 [1] (dtype_of s)) as Hc.
    cbn [seq] in Hc. by rewrite Hc.
  - unfold a, h', value_of, shape, len. cbn [rows rshape dtype_ length]. f_equal.
    pose proof (view_rows_alloc h (dtype_of s) [1] [[s]]) as Hv.
    cbn [length seq] in Hv. by rewrite Hv.
Qed.

(** The operator on a column, when it computed a tuple of two values
    of one shape: the constructor stacks them into a column of two
    rows, in their common dtype. *)
Lemma create_method_pair op (self : TensorArray) other h q r n rs :
  np_binop op (value_of h (_tensor self))
              (npval_value h (raw_operand other)) = Ok (Two q r) ->
  tshape q = n :: rs -> tshape r = n :: rs ->
  length (tdata q) = prod (tshape q) -> length (tdata r) = prod (tshape r) ->
  exists c h',
    _create_method TensorArray op self other h = Ok (c, h') /\
    value_of h' (_tensor c) = pair_value q r /\
    fresh_in h (_tensor c) /\ extends h h'.
Proof.
  intros Hop Hsq Hsr Hlq Hlr.
  destruct (alloc_value_array q n rs h Hsq Hlq) as (Haq & _ & Hvq).
  set (h1 := h ++ [chunks n (prod rs) (tdata q)]) in *.
  destruct (alloc_value_array r n rs h1 Hsr Hlr) as (Har & _ & Hvr).
  set (h2 := h1 ++ [chunks n (prod rs) (tdata r)]) in *.
  set (aq := {| base := length h; rows := seq 0 n; rshape := rs; dtype_ := tdtype q |}) in *.
  set (ar := {| base := length h1; rows := seq 0 n; rshape := rs; dtype_ := tdtype r |}) in *.
  assert (value_of h2 aq = q) as Hvq2.
  { rewrite <- Hvq. unfold value_of, h2. rewrite view_rows_app; [done|].
    unfold h1. rewrite length_app. simpl. lia. }
  rewrite create_method_unfold. cbn [tensor_of TensorArray_ops npval_value].
  rewrite Hop. unfold bind at 1. rewrite Haq.
  unfold bind at 1. rewrite Har.
  cbn [construct TensorArray_ops row_of_out].
  rewrite init_sequence_eq.
  2:{ constructor; [|done]. cbn [TensorArray.coerce_row]. rewrite Hvq2, Hvr. congruence. }
  cbv zeta. cbn [map TensorArray.coerce_row length]. rewrite Hvq2, Hvr.
  eexists _, _. split; [reflexivity|]. cbn [_tensor].
  split; [|split].
  - unfold value_of at 1.
    change (seq 0 2) with
      (seq 0 (length [map (cast (result_type [tdtype q; tdtype r])) (tdata q);
                      map (cast (result_type [tdtype q; tdtype r])) (tdata r)])).
    rewrite view_rows_alloc.
    unfold pair_value, shape, len. cbn [rows rshape dtype_ length concat].
    rewrite length_seq, app_nil_r. unfold result_type. cbn [foldr].
    by rewrite promote_bool_r.
  - unfold fresh_in, h2, h1. cbn [base]. rewrite !length_app. lia.
  - exists [chunks n (prod rs) (tdata q); chunks n (prod rs) (tdata r);
            [map (cast (result_type [tdtype q; tdtype r])) (tdata q);
             map (cast (result_type [tdtype q; tdtype r])) (tdata r)]].
    unfold h2, h1. by rewrite <- !app_assoc.
Qed.

Lemma np_binop_elementwise u x y t :
  np_elementwise u x y = Ok t -> np_binop (Elementwise u) x y = Ok (One t).
Proof. intros H. simpl. by rewrite H. Qed.

Lemma np_binop_equality u b x y t :
  np_elementwise u x y = Ok t -> np_binop (Equality u b) x y = Ok (One t).
Proof. intros H. simpl. by rewrite H. Qed.

Lemma np_binop_equality_fail u b x y e :
  np_elementwise u x y = Raise e ->
  np_binop (Equality u b) x y
    = Ok (One {| tdtype := bool_; tshape := []; tdata := [SBool b] |}).
Proof. intros H. simpl. by rewrite H. Qed.

(** The operator on a row, when it computed one value: the result is a
    row that holds the value. *)
Lemma create_method_element op (self : TensorElement) other h t :
  np_binop op (npval_value h (_etensor self))
              (npval_value h (raw_operand other)) = Ok (One t) ->
  length (tdata t) = prod (tshape t) ->
  exists e h',
    _create_method TensorElement op self other h = Ok (e, h') /\
    tshape (npval_value h' (_etensor e)) = tshape t /\
    tdata (npval_value h' (_etensor e)) = tdata t /\
    extends h h'.
Proof.
  intros Hop Hlen.
  destruct (alloc_value_spec t h Hlen) as (o & h' & Halloc & Hext & Hs & Hd & _).
  rewrite create_method_unfold. cbn [tensor_of TensorElement_ops].
  rewrite Hop. unfold bind. rewrite Halloc. cbn [construct TensorElement_ops]. unfold ret.
  eexists _, _. split; [reflexivity|]. cbn [_etensor].
  by rewrite npval_of_out_value.
Qed.

(** The operator on a row, when it computed a tuple: the result is a
    row that wraps the tuple of the two results. *)
Lemma create_method_element_pair op (self : TensorElement) other h q r :
  np_binop op (npval_value h (_etensor self))
              (npval_value h (raw_operand other)) = Ok (Two q r) ->
  length (tdata q) = prod (tshape q) -> length (tdata r) = prod (tshape r) ->
  exists q' r' h',
    _create_method TensorElement op self other h
      = Ok ({| _etensor := NPair q' r' |}, h') /\
    tshape (npout_value h' q') = tshape q /\
    tdata (npout_value h' q') = tdata q /\
    tshape (npout_value h' r') = tshape r /\
    tdata (npout_value h' r') = tdata r /\
    extends h h'.
Proof.
  intros Hop Hlq Hlr.
  destruct (alloc_value_spec q h Hlq) as (q' & h1 & Haq & Hext1 & Hsq & Hdq & Hstable).
  destruct (alloc_value_spec r h1 Hlr) as (r' & h2 & Har & Hext2 & Hsr & Hdr & _).
  rewrite create_method_unfold. cbn [tensor_of TensorElement_ops].
  rewrite Hop. unfold bind at 1. rewrite Haq. unfold bind at 1. rewrite Har.
  cbn [construct TensorElement_ops]. unfold ret.
  exists q', r', h2. split; [done|].
  destruct Hext2 as [k ->]. rewrite Hstable.
  repeat (split; [done|]). by eapply extends_trans; [|apply extends_app].
Qed.

Lemma chunks_zip_with_concat {A B C} (f : A -> B -> C) size :
  forall (xs : list (list A)) (ys : list (list B)),
  Forall (fun r => length r = size) xs ->
  Forall (fun r => length r = size) ys ->
  length ys = length xs ->
  chunks (length xs) size (zip_with f (concat xs) (concat ys))
  = zip_with (zip_with f) xs ys.
Proof.
  induction xs as [|x xs IH]; intros [|y ys] Hx Hy Hlen; simpl in *;
    try done.
  apply Forall_cons in Hx as [Hx Hxs]. apply Forall_cons in Hy as [Hy Hys].
  rewrite zip_with_app by lia.
  rewrite take_app_length' by (rewrite length_zip_with; lia).
  rewrite drop_app_length' by (rewrite length_zip_with; lia).
  rewrite IH by (done || lia). done.
Qed.

(** C7: the operator [_create_method(cls, op)] makes for a class takes
    the raw buffer of [self], the raw buffer of [other] when [other]
    is a column or a row and [other] itself otherwise, applies [op] to
    the two in the numeric engine, and wraps what [op] returned in the
    class of [self]; an error of [op] is the error of the operator.
    Every buffer that existed is left as it was, so neither operand is
    changed. On a column the result is a column on a new buffer: it
    holds the value computed; when [op] is [==] or [!=] and answered
    with a bare boolean, it is the column of shape (1, 1) that holds
    the boolean; when [op] is [divmod] it is the column of two rows
    that holds the quotients and the remainders. On a row the result
    is a row that holds the value computed, or that wraps the tuple of
    the two results of [divmod]. In particular [col + col] on columns
    of one shape adds them row by row, element by element, and
    [col + scalar] adds the scalar to every element of every row; on
    two columns whose shapes do not broadcast [+] fails with a
    [ValueError], [==] returns the column [[False]] and [!=] the
    column [[True]]. *)
Theorem binop_contract (op : operator) (h : heap) :
  (forall (self : TensorArray) (other : operand),
     wf_array h (_tensor self) = true ->
     wf_operand h (raw_operand other) = true ->
     match np_binop op (value_of h (_tensor self))
                       (npval_value h (raw_operand other)) with
     | Raise e => _create_method TensorArray op self other h = Raise e
     | Ok v =>
         exists c h',
           _create_method TensorArray op self other h = Ok (c, h') /\
           value_of h' (_tensor c) =
             match v with
             | One {| tdtype := d; tshape := []; tdata := data |} =>
                 {| tdtype := d; tshape := [1; 1]; tdata := data |}
             | One t => t
             | Two q r =>
                 let d := promote (tdtype q) (tdtype r) in
                 {| tdtype := d; tshape := 2 :: tshape q;
                    tdata := map (cast d) (tdata q) ++ map (cast d) (tdata r) |}
             end /\
           fresh_in h (_tensor c) /\ extends h h' /\
           value_of h' (_tensor self) = value_of h (_tensor self) /\
           npval_value h' (raw_operand other) = npval_value h (raw_operand other)
     end) /\
  (forall (self : TensorElement) (other : operand),
     wf_operand h (_etensor self) = true ->
     wf_operand h (raw_operand other) = true ->
     match np_binop op (npval_value h (_etensor self))
                       (npval_value h (raw_operand other)) with
     | Raise e => _create_method TensorElement op self other h = Raise e
     | Ok (One t) =>
         exists e h',
           _create_method TensorElement op self other h = Ok (e, h') /\
           tshape (npval_value h' (_etensor e)) = tshape t /\
           tdata (npval_value h' (_etensor e)) = tdata t /\
           extends h h' /\
           npval_value h' (_etensor self) = npval_value h (_etensor self) /\
           npval_value h' (raw_operand other) = npval_value h (raw_operand other)
     | Ok (Two q r) =>
         exists q' r' h',
           _create_method TensorElement op self other h
             = Ok ({| _etensor := NPair q' r' |}, h') /\
           tshape (npout_value h' q') = tshape q /\
           tdata (npout_value h' q') = tdata q /\
           tshape (npout_value h' r') = tshape r /\
           tdata (npout_value h' r') = tdata r /\
           extends h h' /\
           npval_value h' (_etensor self) = npval_value h (_etensor self) /\
           npval_value h' (raw_operand other) = npval_value h (raw_operand other)
     end) /\
  (forall self other : TensorArray,
     wf_array h (_tensor self) = true ->
     wf_array h (_tensor other) = true ->
     shape (_tensor other) = shape (_tensor self) ->
     exists c h',
       __add__ TensorArray self (OfColumn other) h = Ok (c, h') /\
       shape (_tensor c) = shape (_tensor self) /\
       view_rows h' (_tensor c) =
         zip_with (zip_with add) (view_rows h (_tensor self))
                                 (view_rows h (_tensor other))) /\
  (forall (self : TensorArray) (s : scalar),
     wf_array h (_tensor self) = true ->
     storable (dtype_of s) s = true ->
     exists c h',
       __add__ TensorArray self (OfValue (NScalar s)) h = Ok (c, h') /\
       shape (_tensor c) = shape (_tensor self) /\
       view_rows h' (_tensor c) =
         map (map (fun x => add x s)) (view_rows h (_tensor self))) /\
  (forall self other : TensorArray,
     broadcast_shapes (shape (_tensor self)) (shape (_tensor other))
       = Raise ValueError ->
     __add__ TensorArray self (OfColumn other) h = Raise ValueError /\
     (exists c h',
        __eq__ TensorArray self (OfColumn other) h = Ok (c, h') /\
        value_of h' (_tensor c)
          = {| tdtype := bool_; tshape := [1; 1]; tdata := [SBool false] |}) /\
     (exists c h',
        __ne__ TensorArray self (OfColumn other) h = Ok (c, h') /\
        value_of h' (_tensor c)
          = {| tdtype := bool_; tshape := [1; 1]; tdata := [SBool true] |})).
Proof.
  split; [|split; [|split; [|split]]].
  - intros self other Hwf Hwfo.
    pose proof (value_of_size h _ Hwf) as Hx.
    pose proof (npval_value_size h _ (wf_operand_npval _ _ Hwfo)) as Hy.
    assert (forall h', extends h h' ->
              value_of h' (_tensor self) = value_of h (_tensor self) /\
              npval_value h' (raw_operand other) = npval_value h (raw_operand other))
      as Hkeep.
    { intros h' Hext. split.
      - destruct Hext as [k ->]. unfold value_of.
        rewrite view_rows_app; [done|]. by eapply wf_array_base.
      - apply extends_npval_value; [done|]. by apply wf_operand_npval. }
    assert (forall u t, np_elementwise u (value_of h (_tensor self))
                          (npval_value h (raw_operand other)) = Ok t ->
              length (tdata t) = prod (tshape t) /\
              broadcast_shapes (shape (_tensor self))
                (tshape (npval_value h (raw_operand other))) = Ok (tshape t) /\
              exists n rs, tshape t = n :: rs) as Hsized.
    { intros u t Hu.
      destruct (np_elementwise_length u _ _ t Hx Hy Hu) as (Hlen & Hsh & Hdims & _).
      split; [done|]. split; [done|].
      destruct (tshape t) as [|n rs]; [|by eauto].
      cbn [value_of tshape shape length] in Hdims. lia. }
    destruct (np_binop op _ _) as [[t|q r]|e] eqn:Hop.
    + apply np_binop_One in Hop as Hcases.
      destruct Hcases as [[u Hu]|(u & e & b & -> & Hu & ->)].
      * destruct (Hsized u t Hu) as (Hlen & _ & n & rs & Hs).
        destruct (create_method_array op self other h t n rs Hop Hs Hlen)
          as (Hrun & _ & Hval).
        eexists _, _. split; [exact Hrun|]. cbn [_tensor].
        split; [rewrite Hval; destruct t as [d sh data]; simpl in Hs; by subst sh|].
        split; [unfold fresh_in; simpl; lia|].
        split; [apply extends_app|]. apply Hkeep, extends_app.
      * destruct (create_method_scalar _ self other h _ _ Hop) as (Hrun & Hval).
        eexists _, _. split; [exact Hrun|]. cbn [_tensor].
        split; [exact Hval|].
        split; [unfold fresh_in; simpl; lia|].
        split; [apply extends_app|]. apply Hkeep, extends_app.
    + apply np_binop_Two in Hop as Hcases.
      destruct Hcases as (u1 & u2 & Hu1 & Hu2).
      destruct (Hsized u1 q Hu1) as (Hlq & Hshq & n & rs & Hsq).
      destruct (Hsized u2 r Hu2) as (Hlr & Hshr & _).
      assert (tshape r = n :: rs) as Hsr by congruence.
      destruct (create_method_pair op self other h q r n rs Hop Hsq Hsr Hlq Hlr)
        as (c & h' & Hrun & Hval & Hfresh & Hext).
      exists c, h'. split; [done|]. split; [done|]. split; [done|].
      split; [done|]. by apply Hkeep.
    + rewrite create_method_unfold. cbn [tensor_of TensorArray_ops npval_value].
      by rewrite Hop.
  - intros self other Hwf Hwfo.
    pose proof (npval_value_size h _ (wf_operand_npval _ _ Hwf)) as Hx.
    pose proof (npval_value_size h _ (wf_operand_npval _ _ Hwfo)) as Hy.
    assert (forall h', extends h h' ->
              npval_value h' (_etensor self) = npval_value h (_etensor self) /\
              npval_value h' (raw_operand other) = npval_value h (raw_operand other))
      as Hkeep.
    { intros h' Hext.
      split; apply extends_npval_value; try done; by apply wf_operand_npval. }
    destruct (np_binop op _ _) as [[t|q r]|e] eqn:Hop.
    + assert (length (tdata t) = prod (tshape t)) as Hlen.
      { apply np_binop_One in Hop as [[u Hu]|(u & e & b & _ & _ & ->)]; [|done].
        by destruct (np_elementwise_length u _ _ t Hx Hy Hu). }
      destruct (create_method_element op self other h t Hop Hlen)
        as (e & h' & Hrun & Hs & Hd & Hext).
      exists e, h'. split; [done|]. split; [done|]. split; [done|].
      split; [done|]. by apply Hkeep.
    + apply np_binop_Two in Hop as Hcases.
      destruct Hcases as (u1 & u2 & Hu1 & Hu2).
      destruct (np_elementwise_length u1 _ _ q Hx Hy Hu1) as (Hlq & _).
      destruct (np_elementwise_length u2 _ _ r Hx Hy Hu2) as (Hlr & _).
      destruct (create_method_element_pair op self other h q r Hop Hlq Hlr)
        as (q' & r' & h' & Hrun & Hsq & Hdq & Hsr & Hdr & Hext).
      exists q', r', h'. repeat (split; [done|]). by apply Hkeep.
    + rewrite create_method_unfold. cbn [tensor_of TensorElement_ops].
      by rewrite Hop.
  - intros self other Hwf Hwfo Hshape.
    injection Hshape as Hlen Hrs.
    pose proof (value_of_size h _ Hwf) as Hx.
    pose proof (value_of_size h _ Hwfo) as Hy.
    assert (tshape (value_of h (_tensor other)) = tshape (value_of h (_tensor self)))
      as Hsh by (unfold value_of, shape; cbn [tshape]; by rewrite Hlen, Hrs).
    rewrite Hsh in Hy.
    pose proof (np_binop_elementwise _ _ _ _
                  (np_elementwise_same_shape promote add _ _ Hsh Hx Hy)) as Hop.
    edestruct (create_method_array (Elementwise np_add) self (OfColumn other) h _
                 (len (_tensor self)) (rshape (_tensor self)) Hop)
      as (Hrun & Hrows & _); [done| |].
    { cbn [tdata tshape]. rewrite length_zip_with. lia. }
    eexists _, _. split; [exact Hrun|]. cbn [_tensor].
    split.
    { unfold shape, len. cbn [rows rshape]. by rewrite length_seq. }
    rewrite Hrows. cbn [tdata value_of].
    rewrite <- (length_view_rows h (_tensor self)).
    apply chunks_zip_with_concat.
    + by apply wf_rows_length.
    + rewrite <- Hrs. by apply wf_rows_length.
    + by rewrite !length_view_rows.
  - intros self s Hwf _.
    pose proof (value_of_size h _ Hwf) as Hx.
    pose proof (np_binop_elementwise _ _ _ _
                  (np_elementwise_scalar promote add _ s Hx)) as Hop.
    edestruct (create_method_array (Elementwise np_add) self (OfValue (NScalar s)) h _
                 (len (_tensor self)) (rshape (_tensor self)) Hop)
      as (Hrun & Hrows & _); [done| |].
    { cbn [tdata tshape]. by rewrite length_map. }
    eexists _, _. split; [exact Hrun|]. cbn [_tensor].
    split.
    { unfold shape, len. cbn [rows rshape]. by rewrite length_seq. }
    rewrite Hrows. cbn [tdata value_of].
    rewrite chunks_fmap. f_equal.
    rewrite <- (length_view_rows h (_tensor self)).
    apply chunks_concat. by apply wf_rows_length.
  - intros self other Hno.
    assert (forall dt f,
              np_elementwise (total_ufunc dt f) (value_of h (_tensor self))
                (npval_value h (raw_operand (OfColumn other))) = Raise ValueError)
      as Hfail by (intros dt f; by apply np_elementwise_mismatch).
    split; [|split].
    + unfold __add__. rewrite create_method_unfold.
      cbn [tensor_of TensorArray_ops npval_value np_binop].
      unfold np_add. by rewrite Hfail.
    + destruct (create_method_scalar _ self (OfColumn other) h _ _
                  (np_binop_equality_fail _ false _ _ _ (Hfail (fun _ _ => bool_) equal)))
        as (Hrun & Hval).
      eexists _, _. split; [exact Hrun|]. exact Hval.
    + destruct (create_method_scalar _ self (OfColumn other) h _ _
                  (np_binop_equality_fail _ true _ _ _ (Hfail (fun _ _ => bool_) not_equal)))
        as (Hrun & Hval).
      eexists _, _. split; [exact Hrun|]. exact Hval.
Qed.

Lemma binop_contract_witness :
  (exists c h',
     __add__ TensorArray nan_col (OfColumn nan_col) nan_heap = Ok (c, h') /\
     shape (_tensor c) = [3; 2] /\
     view_rows h' (_tensor c) =
       [frow [2; 4]; [NaN; NaN]; [SFloat 6; NaN]]%float) /\
  (exists c h',
     __add__ TensorArray int_col (OfValue (NScalar (SInt 1))) int_heap = Ok (c, h') /\
     shape (_tensor c) = [3; 2] /\
     view_rows h' (_tensor c) = [irow [2; 2]; irow [3; 3]; irow [4; 4]]%Z) /\
  __add__ TensorArray int_col (OfColumn wide_col) wide_heap = Raise ValueError /\
  (exists c h',
     __eq__ TensorArray int_col (OfColumn wide_col) wide_heap = Ok (c, h') /\
     value_of h' (_tensor c)
       = {| tdtype := bool_; tshape := [1; 1]; tdata := [SBool false] |}) /\
  (exists c h',
     __ne__ TensorArray int_col (OfColumn wide_col) wide_heap = Ok (c, h') /\
     value_of h' (_tensor c)
       = {| tdtype := bool_; tshape := [1; 1]; tdata := [SBool true] |}).
Proof.
  split; [|split].
  - destruct (binop_contract (Elementwise np_add) nan_heap) as (_ & _ & Hcc & _).
    apply (Hcc nan_col nan_col); reflexivity.
  - destruct (binop_contract (Elementwise np_add) int_heap) as (_ & _ & _ & Hcs & _).
    apply (Hcs int_col (SInt 1)); reflexivity.
  - destruct (binop_contract (Elementwise np_add) wide_heap) as (_ & _ & _ & _ & Hne).
    apply (Hne int_col wide_col). reflexivity.
Defined.

(** * Missing rows of a column of two dimensions *)

(** X1: on a well-formed column of two dimensions, [isna] returns a boolean
    sequence with one entry per row, and entry i is true exactly when
    every element of row i is NaN. *)
Theorem isna_two_dim h (self : TensorArray) d :
  wf_array h (_tensor self) = true ->
  rshape (_tensor self) = [d] ->
  exists flags,
    TensorArray.isna self h =
      Ok ({| tdtype := bool_; tshape := [TensorArray.__len__ self];
             tdata := flags |}, h) /\
    length flags = TensorArray.__len__ self /\
    forall i, i < TensorArray.__len__ self ->
      flags !! i = Some (SBool (all_nan (view_row h (_tensor self) i))).
Proof.
  intros Hwf Hrs. eexists. split; [by eapply isna_rows_eq|].
  unfold TensorArray.__len__. split.
  - by rewrite length_map, length_view_rows.
  - intros i Hi. rewrite list_lookup_fmap, (view_row_lt h _ i Hi). done.
Qed.

Lemma isna_two_dim_witness :
  exists flags,
    TensorArray.isna nan_col nan_heap =
      Ok ({| tdtype := bool_; tshape := [3]; tdata := flags |}, nan_heap) /\
    length flags = 3 /\
    forall i, i < 3 ->
      flags !! i = Some (SBool (all_nan (view_row nan_heap (_tensor nan_col) i))).
Proof.
  apply (isna_two_dim nan_heap nan_col 2); reflexivity.
Defined.

(** * The operations keep columns well formed *)

Lemma dtype_of_cast d s : dtype_of (cast d s) = d.
Proof. by destruct d. Qed.

Lemma wf_row_map_cast d size r :
  length r = size -> wf_row d size (map (cast d) r) = true.
Proof.
  intros Hlen. apply wf_row_spec. split; [by rewrite length_map|].
  apply Forall_fmap, Forall_forall. intros s _. apply dtype_of_cast.
Qed.

(** A new array is well formed when the rows it is given are. *)
Lemma wf_alloc h d rs rws :
  Forall (fun r => wf_row d (prod rs) r = true) rws ->
  wf_array (h ++ [rws])
    {| base := length h; rows := seq 0 (length rws); rshape := rs; dtype_ := d |}
  = true.
Proof.
  intros Hrws. unfold wf_array. cbn [base rows rshape dtype_].
  rewrite !andb_true_iff. split; [split|].
  - apply Nat.ltb_lt. rewrite length_app. simpl. lia.
  - apply bool_decide_eq_true_2, NoDup_seq.
  - apply forallb_forall. intros p Hp. apply in_seq in Hp.
    rewrite lookup_app_r by lia. rewrite Nat.sub_diag. simpl.
    destruct (lookup_lt_is_Some_2 rws p) as [r Hr]; [lia|].
    rewrite Hr. by eapply (Forall_lookup_1 _ _ _ _ Hrws).
Qed.

Lemma mask_positions_NoDup m : forall i, NoDup (mask_positions i m).
Proof.
  induction m as [|b m IH]; intros i; simpl; [constructor|].
  apply NoDup_app. split; [|split].
  - destruct b; [apply NoDup_singleton|constructor].
  - intros p Hp Hp'.
    pose proof (mask_positions_bounds m (S i)) as Hb.
    rewrite Forall_forall in Hb. apply Hb in Hp'.
    destruct b; [|by apply elem_of_nil in Hp].
    apply list_elem_of_singleton in Hp. lia.
  - apply IH.
Qed.

(** A view of a well-formed array on rows it has, none twice, is well
    formed. *)
Lemma wf_sub_view h t ps :
  wf_array h t = true -> NoDup ps -> Forall (fun p => p < len t) ps ->
  wf_array h (sub_view t ps) = true.
Proof.
  intros Hwf Hnd Hps. pose proof Hwf as Hwf0.
  unfold wf_array in Hwf0 |- *. cbn [sub_view base rows rshape dtype_].
  rewrite !andb_true_iff in Hwf0 |- *. destruct Hwf0 as [[Hb Hnd0] Hrows].
  apply bool_decide_eq_true_1 in Hnd0.
  rewrite Forall_forall in Hps.
  split; [split; [done|]|].
  - apply bool_decide_eq_true_2.
    apply NoDup_fmap_2_strong; [|done].
    intros p q Hp Hq E. eapply NoDup_lookup_total_inj; eauto.
  - rewrite forallb_forall in Hrows |- *. intros q Hq.
    apply Hrows. apply in_map_iff in Hq as (p & <- & Hp).
    apply list_elem_of_In, list_elem_of_lookup_total_2, Hps.
    by apply list_elem_of_In.
Qed.

Lemma wf_view_rows_at h t ps :
  wf_array h t = true -> Forall (fun p => p < len t) ps ->
  Forall (fun r => wf_row (dtype_ t) (prod (rshape t)) r = true)
         (map (view_row h t) ps).
Proof.
  intros Hwf Hps. apply Forall_fmap. eapply Forall_impl; [exact Hps|].
  intros p Hp. simpl. apply wf_row_spec. by apply wf_view_row.
Qed.

Lemma init_array_wf a h c h' :
  wf_array h a = true ->
  TensorArray.__init__ (VArr a) true h = Ok (c, h') ->
  wf_array h' (_tensor c) = true /\ rshape (_tensor c) = rshape a /\
  dtype_ (_tensor c) = dtype_ a.
Proof.
  intros Hwf. rewrite init_array.
  destruct (c_contiguous a); intros [= <- <-]; cbn [_tensor]; [done|].
  split; [|done].
  rewrite <- (length_view_rows h a). apply wf_alloc. by apply wf_array_rows.
Qed.

Lemma take_fill_row_wf h t fill idx :
  wf_array h t = true -> (idx < Z.of_nat (len t))%Z ->
  wf_row (dtype_of fill) (prod (rshape t)) (take_fill_row h t fill idx) = true.
Proof.
  intros Hwf Hidx. unfold take_fill_row.
  destruct (Z.leb_spec 0 idx).
  - apply wf_row_map_cast. apply (wf_view_row h t); [done|lia].
  - by apply wf_row_replicate.
Qed.

(** X2: every row has the row shape: [copy], [take] and [__getitem__] with
    an indexer, applied to a well-formed column, return a well-formed
    column (every row it exposes is there, with the extent of the row
    shape and the dtype of the column) of the row shape of the source,
    and the source stays well formed. *)
Theorem results_well_formed h (self : TensorArray) :
  wf_array h (_tensor self) = true ->
  (forall c h',
     TensorArray.copy self h = Ok (c, h') ->
     wf_array h' (_tensor c) = true /\ wf_array h' (_tensor self) = true /\
     rshape (_tensor c) = rshape (_tensor self)) /\
  (forall indices allow_fill fv c h',
     TensorArray.take self indices allow_fill fv h = Ok (c, h') ->
     wf_array h' (_tensor c) = true /\ wf_array h' (_tensor self) = true /\
     rshape (_tensor c) = rshape (_tensor self)) /\
  (forall ix c h',
     TensorArray.__getitem__ self (KSel ix) h = Ok (TensorArray.Column c, h') ->
     wf_array h' (_tensor c) = true /\ wf_array h' (_tensor self) = true /\
     rshape (_tensor c) = rshape (_tensor self)).
Proof.
  intros Hwf. split; [|split].
  - intros c h'. rewrite copy_eq. intros [= <- <-]. cbn [_tensor rshape].
    split; [|split; [by apply wf_array_app|done]].
    rewrite <- (length_view_rows h (_tensor self)).
    apply wf_alloc. by apply wf_array_rows.
  - intros indices [] fv c h' H.
    + assert (Forall (fun i => (-1 <= i < Z.of_nat (TensorArray.__len__ self))%Z)
                indices) as Hin.
      { unfold TensorArray.take in H.
        apply bind_Ok in H as (v & h1 & H & _).
        apply bind_Ok in H as (u & h2 & H & _).
        apply lift_Ok in H as [H _]. by eapply validate_indices_inv. }
      rewrite take_filled_eq in H by done. injection H as <- <-.
      cbn [_tensor rshape].
      split; [|split; [by apply wf_array_app|done]].
      rewrite <- (length_map (take_fill_row h (_tensor self) (default NaN fv)) indices).
      apply wf_alloc, Forall_fmap.
      eapply Forall_impl; [exact Hin|]. intros idx Hidx. simpl.
      apply take_fill_row_wf; [done|].
      unfold TensorArray.__len__ in Hidx. lia.
    + rewrite take_gather_eq in H.
      destruct (rmapM _ indices) as [ps|] eqn:Hps; [|discriminate].
      injection H as <- <-. cbn [_tensor rshape].
      split; [|split; [by apply wf_array_app|done]].
      rewrite <- (length_map (view_row h (_tensor self)) ps).
      apply wf_alloc, wf_view_rows_at; [done|].
      by eapply rmapM_norm_index_lt.
  - intros ix c h' H. unfold TensorArray.__getitem__ in H.
    apply bind_Ok in H as (ix' & h1 & Hix & H). apply lift_Ok in Hix as [Hix ->].
    apply check_indexer_Ok in Hix as ->.
    apply bind_Ok in H as (r & h1 & Hr & H).
    apply bind_Ok in H as (c0 & h2 & Hc & H).
    unfold ret in H. injection H as <- <-.
    pose proof (np_getitem_extends _ _ _ _ _ Hr) as [g ->].
    assert (wf_array (h ++ g) r = true /\ rshape r = rshape (_tensor self))
      as [Hwfr Hrs].
    { unfold np_getitem in Hr.
      apply bind_Ok in Hr as (ps & h3 & Hps & Hr). apply lift_Ok in Hps as [Hps ->].
      pose proof (index_positions_lt _ _ _ Hps) as Hlt.
      destruct ix as [start stop step|l|m|].
      - unfold ret in Hr. injection Hr as <- Hg.
        split; [|done]. rewrite <- Hg. apply wf_sub_view; [done| |done].
        by eapply slice_positions_NoDup.
      - unfold bind, get_heap, alloc_rows in Hr. injection Hr as <- Hg.
        split; [|done]. rewrite <- Hg. by apply wf_alloc, wf_view_rows_at.
      - unfold bind, get_heap, alloc_rows in Hr. injection Hr as <- Hg.
        split; [|done]. rewrite <- Hg. by apply wf_alloc, wf_view_rows_at.
      - unfold ret in Hr. injection Hr as <- Hg.
        split; [|done]. rewrite <- Hg. apply wf_sub_view; [done| |done].
        simpl in Hps. injection Hps as <-. apply NoDup_seq. }
    destruct (init_array_wf r _ _ _ Hwfr Hc) as (Hwfc & Hrsc & _).
    split; [done|]. split; [|congruence].
    rewrite init_array in Hc.
    destruct (c_contiguous r); injection Hc as _ <-.
    + by apply wf_array_app.
    + rewrite <- app_assoc. by apply wf_array_app.
Qed.

Lemma results_well_formed_witness :
  (forall c h',
     TensorArray.copy nan_col nan_heap = Ok (c, h') ->
     wf_array h' (_tensor c) = true /\ wf_array h' (_tensor nan_col) = true /\
     rshape (_tensor c) = [2]) /\
  (forall c h',
     TensorArray.__getitem__ nan_col (KSel (KSlice None None (Some 2%Z))) nan_heap
       = Ok (TensorArray.Column c, h') ->
     wf_array h' (_tensor c) = true /\ wf_array h' (_tensor nan_col) = true /\
     rshape (_tensor c) = [2]).
Proof.
  destruct (results_well_formed nan_heap nan_col eq_refl) as (Hcopy & _ & Hget).
  split.
  - exact Hcopy.
  - intros c h'. apply Hget.
Defined.

(** * Row selection *)

Lemma view_rows_sub_view h t ps :
  Forall (fun p => p < len t) ps ->
  view_rows h (sub_view t ps) = map (view_row h t) ps.
Proof.
  intros Hps. unfold view_rows at 1. cbn [sub_view base rows].
  rewrite map_map. apply Forall_fmap_ext_1.
  eapply Forall_impl; [exact Hps|]. intros p Hp. simpl.
  by rewrite view_row_buf.
Qed.

Lemma targets_sel n ix ps :
  targets n (KSel ix) = Ok ps ->
  check_indexer n ix = Ok ix /\ index_positions n ix = Ok ps.
Proof.
  simpl. intros H. apply rbind_Ok in H as (ix' & Hix & H).
  pose proof (check_indexer_Ok _ _ _ Hix) as ->. done.
Qed.

(** What [self[ix]] is for an indexer that is valid: a column of the
    rows selected, in the order selected. *)
Lemma getitem_sel h (self : TensorArray) ix ps :
  targets (TensorArray.__len__ self) (KSel ix) = Ok ps ->
  exists c h',
    TensorArray.__getitem__ self (KSel ix) h = Ok (TensorArray.Column c, h') /\
    view_rows h' (_tensor c) = map (view_row h (_tensor self)) ps /\
    len (_tensor c) = length ps /\
    rshape (_tensor c) = rshape (_tensor self) /\
    dtype_ (_tensor c) = dtype_ (_tensor self) /\
    extends h h' /\
    (base (_tensor self) < length h -> base (_tensor c) < length h').
Proof.
  intros Ht. apply targets_sel in Ht as [Hchk Hps].
  pose proof (index_positions_lt _ _ _ Hps) as Hlt.
  unfold TensorArray.__len__ in *. set (t := _tensor self) in *.
  unfold TensorArray.__getitem__, TensorArray.__len__. fold t.
  unfold bind at 1. unfold lift at 1. rewrite Hchk.
  unfold bind at 1.
  assert (forall a, view_rows h a = map (view_row h t) ps ->
            len a = length ps -> rshape a = rshape t -> dtype_ a = dtype_ t ->
            base a = base t ->
            exists c h',
              (c <- TensorArray.__init__ (VArr a) true ;;
               ret (TensorArray.Column c)) h = Ok (TensorArray.Column c, h') /\
              view_rows h' (_tensor c) = map (view_row h t) ps /\
              len (_tensor c) = length ps /\ rshape (_tensor c) = rshape t /\
              dtype_ (_tensor c) = dtype_ t /\ extends h h' /\
              (base t < length h -> base (_tensor c) < length h')) as Hview.
  { intros a Hrows Hlen Hrs Hd Hbase. unfold bind. rewrite init_array.
    destruct (c_contiguous a); unfold ret; eexists _, _;
      (split; [reflexivity|]); cbn [_tensor].
    - split; [done|]. split; [done|]. split; [done|]. split; [done|].
      split; [apply extends_refl|]. by rewrite Hbase.
    - split.
      { rewrite <- (length_view_rows h a). rewrite view_rows_alloc. done. }
      split; [unfold len; cbn [rows]; by rewrite length_seq|].
      split; [done|]. split; [done|]. split; [apply extends_app|].
      intros _. rewrite length_app. simpl. lia. }
  assert (forall hh : heap,
            exists c h',
              (c <- TensorArray.__init__
                      (VArr {| base := length hh; rows := seq 0 (length ps);
                               rshape := rshape t; dtype_ := dtype_ t |}) true ;;
               ret (TensorArray.Column c)) (hh ++ [map (view_row hh t) ps])
              = Ok (TensorArray.Column c, h') /\
              view_rows h' (_tensor c) = map (view_row hh t) ps /\
              len (_tensor c) = length ps /\ rshape (_tensor c) = rshape t /\
              dtype_ (_tensor c) = dtype_ t /\ extends hh h' /\
              (base t < length hh -> base (_tensor c) < length h')) as Hnew.
  { intros hh. unfold bind.
    rewrite init_contiguous by apply c_contiguous_seq. unfold ret.
    eexists _, _. split; [reflexivity|]. cbn [_tensor].
    split.
    { rewrite <- (length_map (view_row hh t) ps) at 1. apply view_rows_alloc. }
    split; [unfold len; cbn [rows]; by rewrite length_seq|].
    split; [done|]. split; [done|]. split; [apply extends_app|].
    intros _. rewrite length_app. simpl. lia. }
  unfold np_getitem. unfold bind at 1. unfold lift at 1. rewrite Hps.
  destruct ix as [start stop step|l|m|].
  - unfold ret at 1. apply Hview; [by apply view_rows_sub_view| |done|done|done].
    unfold len. cbn [sub_view rows]. by rewrite length_map.
  - unfold bind at 1. unfold get_heap. unfold alloc_rows.
    rewrite length_map. apply Hnew.
  - unfold bind at 1. unfold get_heap. unfold alloc_rows.
    rewrite length_map. apply Hnew.
  - unfold ret at 1. apply Hview; [by apply view_rows_sub_view| |done|done|done].
    unfold len. cbn [sub_view rows]. by rewrite length_map.
Qed.

Lemma getitem_sel_error h (self : TensorArray) ix e :
  targets (TensorArray.__len__ self) (KSel ix) = Raise e ->
  TensorArray.__getitem__ self (KSel ix) h = Raise e.
Proof.
  simpl. intros Ht. unfold TensorArray.__getitem__.
  unfold bind at 1. unfold lift at 1.
  destruct (check_indexer _ ix) as [ix'|e'] eqn:Hchk; [|by injection Ht as ->].
  pose proof (check_indexer_Ok _ _ _ Hchk) as ->. simpl in Ht.
  unfold bind at 1. unfold np_getitem.
  unfold bind at 1. unfold lift at 1. unfold TensorArray.__len__ in Ht.
  by rewrite Ht.
Qed.

(** * Slices that are ranges *)

Lemma slice_range_positions (s e : nat) :
  s <= e ->
  map (fun k => Z.to_nat (Z.of_nat s + Z.of_nat k * 1))
      (seq 0 (slice_length (Z.of_nat s) (Z.of_nat e) 1))
  = seq s (e - s).
Proof.
  intros Hse.
  assert (slice_length (Z.of_nat s) (Z.of_nat e) 1 = e - s) as ->.
  { unfold slice_length. simpl.
    destruct (Z.ltb_spec (Z.of_nat s) (Z.of_nat e)); [|lia].
    rewrite Z.div_1_r. lia. }
  apply list_eq. intros i. rewrite list_lookup_fmap.
  destruct (decide (i < e - s)) as [Hi|Hi].
  - rewrite !lookup_seq_lt by done. simpl. f_equal. lia.
  - by rewrite !lookup_seq_ge by lia.
Qed.

Lemma slice_positions_all n : slice_positions n None None None = Ok (seq 0 n).
Proof.
  unfold slice_positions, slice_indices. simpl.
  change 0%Z with (Z.of_nat 0).
  rewrite (slice_range_positions 0 n) by lia. by rewrite Nat.sub_0_r.
Qed.

Lemma slice_positions_upto n k :
  k <= n -> slice_positions n None (Some (Z.of_nat k)) None = Ok (seq 0 k).
Proof.
  intros Hk. unfold slice_positions, slice_indices. simpl.
  destruct (Z.ltb_spec (Z.of_nat k) 0); [lia|].
  rewrite Z.min_l by lia.
  change 0%Z with (Z.of_nat 0).
  rewrite (slice_range_positions 0 k) by lia. by rewrite Nat.sub_0_r.
Qed.

Lemma slice_positions_from n k :
  k <= n -> slice_positions n (Some (Z.of_nat k)) None None = Ok (seq k (n - k)).
Proof.
  intros Hk. unfold slice_positions, slice_indices. simpl.
  destruct (Z.ltb_spec (Z.of_nat k) 0); [lia|].
  rewrite Z.min_l by lia.
  by rewrite (slice_range_positions k n) by lia.
Qed.

(** X3: [self[ix]] for a slice, a sequence of positions, a mask or
    [...] returns a column of the rows the indexer selects, in the
    order it selects them, with the row shape and dtype of the source,
    and changes no existing buffer; when the indexer is not valid the
    error of the indexer is raised. In particular [self[:]] has all the
    rows, a mask whose length is not the length of the column is an
    [IndexError], a slice of step 0 a [ValueError], and a sequence with
    a position outside [-n, n) an [IndexError]. *)
Theorem getitem_selects_rows h (self : TensorArray) :
  let n := TensorArray.__len__ self in
  let t := _tensor self in
  (forall ix ps,
     targets n (KSel ix) = Ok ps ->
     exists c h',
       TensorArray.__getitem__ self (KSel ix) h = Ok (TensorArray.Column c, h') /\
       view_rows h' (_tensor c) = map (view_row h t) ps /\
       TensorArray.__len__ c = length ps /\
       rshape (_tensor c) = rshape t /\ dtype_ (_tensor c) = dtype_ t /\
       extends h h') /\
  (forall ix e,
     targets n (KSel ix) = Raise e ->
     TensorArray.__getitem__ self (KSel ix) h = Raise e) /\
  (exists c h',
     TensorArray.__getitem__ self (KSel (KSlice None None None)) h
       = Ok (TensorArray.Column c, h') /\
     view_rows h' (_tensor c) = view_rows h t) /\
  (forall m, length m <> n ->
     TensorArray.__getitem__ self (KSel (KMask m)) h = Raise IndexError) /\
  (forall start stop,
     TensorArray.__getitem__ self (KSel (KSlice start stop (Some 0%Z))) h
       = Raise ValueError) /\
  (forall l,
     Exists (fun i => (i < - Z.of_nat n \/ Z.of_nat n <= i)%Z) l ->
     TensorArray.__getitem__ self (KSel (KIdx l)) h = Raise IndexError).
Proof.
  intros n t. split; [|split; [|split; [|split; [|split]]]].
  - intros ix ps Ht.
    destruct (getitem_sel h self ix ps Ht)
      as (c & h' & Hrun & Hrows & Hlen & Hrs & Hd & Hext & _).
    by exists c, h'.
  - intros ix e Ht. by apply getitem_sel_error.
  - destruct (getitem_sel h self (KSlice None None None) (seq 0 n))
      as (c & h' & Hrun & Hrows & _).
    { simpl. by rewrite slice_positions_all. }
    exists c, h'. split; [done|]. rewrite Hrows.
    symmetry. apply view_rows_seq.
  - intros m Hm. apply getitem_sel_error. simpl.
    by destruct (Nat.eqb_spec (length m) (TensorArray.__len__ self)).
  - intros start stop. by apply getitem_sel_error.
  - intros l Hl. apply getitem_sel_error. simpl.
    by apply rmapM_norm_index_out.
Qed.

Lemma getitem_selects_rows_witness :
  exists c h',
    TensorArray.__getitem__ nan_col (KSel (KMask [true; false; true])) nan_heap
      = Ok (TensorArray.Column c, h') /\
    view_rows h' (_tensor c) = map (view_row nan_heap (_tensor nan_col)) [0; 2] /\
    TensorArray.__len__ c = 2 /\
    rshape (_tensor c) = [2] /\ dtype_ (_tensor c) = float64 /\
    extends nan_heap h'.
Proof.
  destruct (getitem_selects_rows nan_heap nan_col) as (Hsel & _).
  apply (Hsel (KMask [true; false; true]) [0; 2]). reflexivity.
Defined.

(** X5: integer access by a forward position: on a well-formed column
    of n rows, [self[i]] for 0 <= i < n is the row view of row i and
    leaves the heap as it was, and for i outside [-n, n) (every i when
    the column is empty) it raises an [IndexError]. *)
Theorem getitem_int_bounds h (self : TensorArray) (i : Z) :
  wf_array h (_tensor self) = true ->
  let n := TensorArray.__len__ self in
  ((0 <= i < Z.of_nat n)%Z ->
   exists e,
     TensorArray.__getitem__ self (KInt i) h = Ok (TensorArray.Element e, h) /\
     npval_value h (_etensor e) =
       {| tdtype := dtype_ (_tensor self); tshape := rshape (_tensor self);
          tdata := view_row h (_tensor self) (Z.to_nat i) |}) /\
  ((i < - Z.of_nat n \/ Z.of_nat n <= i)%Z ->
   TensorArray.__getitem__ self (KInt i) h = Raise IndexError).
Proof.
  intros Hwf n. unfold n, TensorArray.__len__. split.
  - intros Hi. eexists. split.
    + unfold TensorArray.__getitem__. unfold bind.
      rewrite (np_getitem_int_eq _ i h (Z.to_nat i))
        by (by apply norm_index_nonneg).
      reflexivity.
    + cbn [_etensor]. apply row_item_value; [done|lia].
  - intros Hi. unfold TensorArray.__getitem__, np_getitem_int.
    unfold bind, lift. by rewrite norm_index_out.
Qed.

Lemma getitem_int_bounds_witness :
  (exists e,
     TensorArray.__getitem__ nan_col (KInt 1) nan_heap
       = Ok (TensorArray.Element e, nan_heap) /\
     npval_value nan_heap (_etensor e) =
       {| tdtype := float64; tshape := [2]; tdata := [NaN; NaN] |}) /\
  TensorArray.__getitem__ nan_col (KInt 3) nan_heap = Raise IndexError.
Proof.
  destruct (getitem_int_bounds nan_heap nan_col 1 eq_refl) as (Hin & _).
  destruct (getitem_int_bounds nan_heap nan_col 3 eq_refl) as (_ & Hout).
  split.
  - apply Hin. unfold TensorArray.__len__, len. simpl. lia.
  - apply Hout. unfold TensorArray.__len__, len. simpl. lia.
Defined.

(** * Concatenation and construction from rows *)

Lemma result_type_same d l :
  l <> [] -> Forall (eq d) l -> result_type l = d.
Proof.
  intros Hne Hall. induction Hall as [|x l <- Hl IH]; [done|].
  unfold result_type. simpl. destruct l as [|y l].
  - simpl. apply promote_bool_r.
  - unfold result_type in IH. rewrite IH by done. apply promote_same.
Qed.

Lemma length_concat_views h (f : list scalar -> list scalar) (l : list TensorArray) :
  length (concat (map (fun c => map f (view_rows h (_tensor c))) l))
  = sum_list (map TensorArray.__len__ l).
Proof.
  induction l as [|c l IH]; simpl; [done|].
  rewrite length_app, length_map, length_view_rows, IH. done.
Qed.

(** What [_concat_same_type] returns when the row shapes agree. *)
Lemma concat_eq h (c0 : TensorArray) (rest : list TensorArray) :
  Forall (fun c => rshape (_tensor c) = rshape (_tensor c0)) rest ->
  TensorArray._concat_same_type (c0 :: rest) h =
    let d := result_type (map (fun c => dtype_ (_tensor c)) (c0 :: rest)) in
    let rws := concat (map (fun c => map (map (cast d)) (view_rows h (_tensor c)))
                           (c0 :: rest)) in
    Ok ({| _tensor := {| base := length h; rows := seq 0 (length rws);
                         rshape := rshape (_tensor c0); dtype_ := d |} |},
        h ++ [rws]).
Proof.
  intros Hall. unfold TensorArray._concat_same_type, np_concatenate.
  cbn [map].
  assert (forallb (fun a => bool_decide (rshape a = rshape (_tensor c0)))
            (_tensor c0 :: map _tensor rest) = true) as ->.
  { cbn [forallb]. rewrite bool_decide_eq_true_2 by done. simpl.
    apply forallb_forall. intros a Ha. apply in_map_iff in Ha as (c & <- & Hc).
    apply bool_decide_eq_true_2.
    apply list_elem_of_In in Hc. by eapply Forall_forall in Hall. }
  unfold bind at 1. unfold bind at 1. unfold get_heap, alloc_rows.
  rewrite init_contiguous by apply c_contiguous_seq.
  cbv zeta. rewrite !map_map. done.
Qed.

Lemma concat_mismatch h (c0 : TensorArray) (rest : list TensorArray) :
  Exists (fun c => rshape (_tensor c) <> rshape (_tensor c0)) rest ->
  TensorArray._concat_same_type (c0 :: rest) h = Raise ValueError.
Proof.
  intros Hex. unfold TensorArray._concat_same_type, np_concatenate.
  cbn [map].
  assert (forallb (fun a => bool_decide (rshape a = rshape (_tensor c0)))
            (_tensor c0 :: map _tensor rest) = false) as ->; [|done].
  apply not_true_is_false. intros Hall.
  rewrite forallb_forall in Hall.
  apply Exists_exists in Hex as (c & Hc & Hne). apply Hne.
  eapply bool_decide_eq_true_1, Hall. right. apply in_map.
  by apply list_elem_of_In.
Qed.

Lemma concat_map_cast_same h d (l : list TensorArray) :
  Forall (fun c => wf_array h (_tensor c) = true /\ dtype_ (_tensor c) = d) l ->
  concat (map (fun c => map (map (cast d)) (view_rows h (_tensor c))) l)
  = concat (map (fun c => view_rows h (_tensor c)) l).
Proof.
  induction 1 as [|c l [Hwf Hd] _ IH]; simpl; [done|].
  rewrite IH. f_equal.
  rewrite <- (map_id (view_rows h (_tensor c))) at 2.
  apply Forall_fmap_ext_1.
  eapply Forall_impl; [by apply wf_array_rows|].
  intros r Hr. simpl in Hr. apply wf_row_spec in Hr as [_ Hr].
  apply map_cast_same. by rewrite <- Hd.
Qed.

(** X6: [_concat_same_type] of a non-empty list of columns whose row
    shapes agree returns a column on a new buffer whose rows are the
    rows of the columns one after the other, in the order of the list,
    each converted to the common dtype of the columns; its length is
    the sum of the lengths; when the columns are well formed and of one
    dtype the rows are the source rows themselves. It raises a
    [ValueError] when a column has another row shape than the first,
    and when the list is empty. *)
Theorem concat_rows h (c0 : TensorArray) (rest : list TensorArray) :
  let l := c0 :: rest in
  let d := result_type (map (fun c => dtype_ (_tensor c)) l) in
  (Forall (fun c => rshape (_tensor c) = rshape (_tensor c0)) rest ->
   exists r h',
     TensorArray._concat_same_type l h = Ok (r, h') /\
     view_rows h' (_tensor r)
       = concat (map (fun c => map (map (cast d)) (view_rows h (_tensor c))) l) /\
     TensorArray.__len__ r = sum_list (map TensorArray.__len__ l) /\
     rshape (_tensor r) = rshape (_tensor c0) /\
     dtype_ (_tensor r) = d /\
     fresh_in h (_tensor r) /\ extends h h' /\
     (Forall (fun c => wf_array h (_tensor c) = true /\
                       dtype_ (_tensor c) = dtype_ (_tensor c0)) l ->
      dtype_ (_tensor r) = dtype_ (_tensor c0) /\
      view_rows h' (_tensor r) = concat (map (fun c => view_rows h (_tensor c)) l))) /\
  (Exists (fun c => rshape (_tensor c) <> rshape (_tensor c0)) rest ->
   TensorArray._concat_same_type l h = Raise ValueError) /\
  TensorArray._concat_same_type [] h = Raise ValueError.
Proof.
  intros l d. subst l. split; [|split]; [|apply concat_mismatch|done].
  intros Hall. rewrite concat_eq by done. cbv zeta. fold d.
  eexists _, _. split; [reflexivity|]. cbn [_tensor].
  split; [apply view_rows_alloc|].
  split.
  { unfold TensorArray.__len__ at 1, len. cbn [_tensor rows].
    rewrite length_seq. apply length_concat_views. }
  split; [done|]. split; [done|].
  split; [unfold fresh_in; simpl; lia|].
  split; [apply extends_app|].
  intros Hwf.
  assert (d = dtype_ (_tensor c0)) as Hd.
  { unfold d. apply result_type_same; [done|].
    apply Forall_fmap. eapply Forall_impl; [exact Hwf|].
    intros c [_ Hc]. simpl. by rewrite Hc. }
  split; [done|].
  rewrite view_rows_alloc. rewrite Hd. by apply concat_map_cast_same.
Qed.

Lemma concat_rows_witness :
  exists r h',
    TensorArray._concat_same_type [nan_col; nan_col] nan_heap = Ok (r, h') /\
    view_rows h' (_tensor r)
      = concat (map (fun c => map (map (cast float64)) (view_rows nan_heap (_tensor c)))
                    [nan_col; nan_col]) /\
    TensorArray.__len__ r = 6 /\
    rshape (_tensor r) = [2] /\
    dtype_ (_tensor r) = float64 /\
    fresh_in nan_heap (_tensor r) /\ extends nan_heap h' /\
    (Forall (fun c => wf_array nan_heap (_tensor c) = true /\
                      dtype_ (_tensor c) = float64) [nan_col; nan_col] ->
     dtype_ (_tensor r) = float64 /\
     view_rows h' (_tensor r)
       = concat (map (fun c => view_rows nan_heap (_tensor c)) [nan_col; nan_col])).
Proof.
  destruct (concat_rows nan_heap nan_col [nan_col]) as (Hok & _).
  apply Hok. repeat constructor.
Defined.

(** X7: the constructor on a sequence of arrays and on a sequence of
    scalars. Given a non-empty sequence of arrays of one shape it
    returns a column on a new buffer with one row per array, in order:
    row k holds the elements of array k, converted to the common dtype
    of the arrays, and the row shape is the shape of the arrays. Given
    a non-empty sequence of bare scalars (that numpy holds in one of
    its dtypes) it returns a column of shape (n, 1) on a new buffer
    whose row k holds scalar k converted to the common dtype of the
    scalars. *)
Theorem init_sequence_rows h mc :
  (forall (a0 : ndarray) (rest : list ndarray),
     Forall (fun a => shape a = shape a0) rest ->
     let l := a0 :: rest in
     let d := result_type (map dtype_ l) in
     exists c h',
       TensorArray.__init__ (VSeq (map RArr l)) mc h = Ok (c, h') /\
       view_rows h' (_tensor c)
         = map (fun a => map (cast d) (concat (view_rows h a))) l /\
       TensorArray.__len__ c = length l /\
       rshape (_tensor c) = shape a0 /\
       dtype_ (_tensor c) = d /\
       fresh_in h (_tensor c) /\ extends h h') /\
  (forall (s0 : scalar) (rest : list scalar),
     let l := s0 :: rest in
     let d := result_type (map dtype_of l) in
     Forall (fun s => storable (dtype_of s) s = true) l ->
     exists c h',
       TensorArray.__init__ (VSeq (map RScalar l)) mc h = Ok (c, h') /\
       view_rows h' (_tensor c) = map (fun s => [cast d s]) l /\
       shape (_tensor c) = [length l; 1] /\
       dtype_ (_tensor c) = d /\
       fresh_in h (_tensor c) /\ extends h h').
Proof.
  split.
  - intros a0 rest Hall l d. subst l.
    cbn [map]. rewrite init_sequence_eq.
    2:{ apply Forall_fmap. eapply Forall_impl; [exact Hall|]. by intros a Ha. }
    cbv zeta. cbn [map TensorArray.coerce_row value_of tdtype tdata tshape].
    rewrite !map_map. cbn [value_of tdtype tdata]. fold d.
    eexists _, _. split; [reflexivity|]. cbn [_tensor].
    split.
    { rewrite length_map.
      rewrite <- (length_map (fun a => map (cast d) (concat (view_rows h a))) rest).
      apply (view_rows_alloc h d _
               (map (fun a => map (cast d) (concat (view_rows h a))) (a0 :: rest))). }
    split; [unfold TensorArray.__len__, len; cbn [_tensor rows length];
            by rewrite length_seq, length_map|].
    split; [done|]. split; [done|].
    split; [unfold fresh_in; simpl; lia|]. apply extends_app.
  - intros s0 rest l d _. subst l.
    cbn [map]. rewrite init_sequence_eq.
    2:{ apply Forall_fmap. by apply Forall_true. }
    cbv zeta. cbn [map TensorArray.coerce_row tdtype tdata tshape].
    rewrite !map_map. cbn [tdtype tdata map]. fold d.
    eexists _, _. split; [reflexivity|]. cbn [_tensor].
    assert (view_rows (h ++ [[cast d s0] :: map (fun s => [cast d s]) rest])
              {| base := length h; rows := seq 0 (S (length (map RScalar rest)));
                 rshape := [1]; dtype_ := d |}
            = [cast d s0] :: map (fun s => [cast d s]) rest) as Hv.
    { rewrite length_map.
      rewrite <- (length_map (fun s => [cast d s]) rest).
      apply (view_rows_alloc h d _ (map (fun s => [cast d s]) (s0 :: rest))). }
    split; [exact Hv|].
    split; [unfold shape, len; cbn [rows rshape length];
            by rewrite length_seq, length_map|].
    split; [done|].
    split; [unfold fresh_in; simpl; lia|]. apply extends_app.
Qed.

Lemma init_sequence_rows_witness :
  (exists c h',
     TensorArray.__init__ (VSeq [RArr (_tensor one_col); RArr (_tensor one_col)])
       true one_heap = Ok (c, h') /\
     view_rows h' (_tensor c) = [irow [1; 2]; irow [1; 2]]%Z /\
     TensorArray.__len__ c = 2 /\
     rshape (_tensor c) = [1; 2] /\
     dtype_ (_tensor c) = int64 /\
     fresh_in one_heap (_tensor c) /\ extends one_heap h') /\
  (exists c h',
     TensorArray.__init__ (VSeq [RScalar (SInt 1); RScalar (SFloat 2.5)]) true nan_heap
       = Ok (c, h') /\
     view_rows h' (_tensor c) = [[SFloat 1]; [SFloat 2.5]] /\
     shape (_tensor c) = [2; 1] /\
     dtype_ (_tensor c) = float64 /\
     fresh_in nan_heap (_tensor c) /\ extends nan_heap h').
Proof.
  split.
  - destruct (init_sequence_rows one_heap true) as (Harr & _).
    apply (Harr (_tensor one_col) [_tensor one_col]). by repeat constructor.
  - destruct (init_sequence_rows nan_heap true) as (_ & Hsc).
    apply (Hsc (SInt 1) [SFloat 2.5]). by repeat constructor.
Defined.

(** * Round trips *)

Lemma init_sequence_shape h (l : list row_arg) s mc :
  l <> [] ->
  Forall (fun v => tshape (TensorArray.coerce_row h v) = s) l ->
  TensorArray.__init__ (VSeq l) mc h =
    let items := map (TensorArray.coerce_row h) l in
    let d := result_type (map tdtype items) in
    Ok ({| _tensor := {| base := length h; rows := seq 0 (length l);
                         rshape := s; dtype_ := d |} |},
        h ++ [map (fun t => map (cast d) (tdata t)) items]).
Proof.
  intros Hne Hall. destruct l as [|v0 rest]; [done|].
  apply Forall_cons in Hall as [Hv0 Hrest].
  rewrite init_sequence_eq.
  - cbv zeta. by rewrite Hv0.
  - eapply Forall_impl; [exact Hrest|]. intros v Hv. simpl in Hv. congruence.
Qed.

Lemma Forall2_map_eq {A B C} (P : A -> B -> Prop) (f : B -> C) (g : A -> C) l es :
  Forall2 P l es ->
  (forall i e, i ∈ l -> P i e -> f e = g i) ->
  map f es = map g l.
Proof.
  induction 1 as [|i e l es Hie _ IH]; intros Hfg; simpl; [done|].
  rewrite (Hfg i e) by (done || apply elem_of_cons; by left).
  f_equal. apply IH. intros i' e' Hi'. apply Hfg. apply elem_of_cons. by right.
Qed.

Lemma map_cast_view_rows h t ps :
  wf_array h t = true -> Forall (fun p => p < len t) ps ->
  map (fun p => map (cast (dtype_ t)) (view_row h t p)) ps = map (view_row h t) ps.
Proof.
  intros Hwf Hps. apply Forall_fmap_ext_1.
  eapply Forall_impl; [exact Hps|]. intros p Hp. simpl.
  apply map_cast_same. by apply wf_view_row.
Qed.

Lemma Forall_seq_lt s n m : s + n <= m -> Forall (fun p => p < m) (seq s n).
Proof. intros H. apply Forall_forall. intros p Hp. apply elem_of_seq in Hp. lia. Qed.

(** X8: the rows of a column make the column again: when [es] are the
    rows [self[0], ..., self[n-1]] of a well-formed column that is not
    empty, the constructor on the sequence [es] returns a column on a
    new buffer with the value of [self]: same dtype, same shape, same
    elements. *)
Theorem rows_round_trip h (self : TensorArray) (es : list TensorElement) :
  wf_array h (_tensor self) = true ->
  0 < TensorArray.__len__ self ->
  Forall2 (fun i e => TensorArray.__getitem__ self (KInt (Z.of_nat i)) h
                      = Ok (TensorArray.Element e, h))
          (seq 0 (TensorArray.__len__ self)) es ->
  exists c h',
    TensorArray.__init__ (VSeq (map RElem es)) true h = Ok (c, h') /\
    value_of h' (_tensor c) = value_of h (_tensor self) /\
    fresh_in h (_tensor c) /\ extends h h'.
Proof.
  unfold TensorArray.__len__. set (t := _tensor self).
  intros Hwf Hn Hes.
  pose proof (Forall2_length _ _ _ Hes) as Hlen. rewrite length_seq in Hlen.
  assert (map (TensorArray.coerce_row h) (map RElem es)
          = map (fun i => {| tdtype := dtype_ t; tshape := rshape t;
                             tdata := view_row h t i |}) (seq 0 (len t))) as Hitems.
  { rewrite map_map. eapply Forall2_map_eq; [exact Hes|].
    intros i e Hi Hget. apply elem_of_seq in Hi.
    unfold TensorArray.__getitem__ in Hget. unfold bind in Hget. fold t in Hget.
    rewrite (np_getitem_int_eq t _ h i) in Hget
      by (rewrite <- (Nat2Z.id i) at 2; apply norm_index_nonneg; lia).
    unfold ret in Hget. injection Hget as <-.
    simpl. unfold asarray_elem. cbn [_etensor].
    apply row_item_value; [done|lia]. }
  rewrite (init_sequence_shape h _ (rshape t)).
  2: { destruct es; [simpl in Hlen; lia|done]. }
  2: { apply Forall_forall. intros v Hv.
       assert (TensorArray.coerce_row h v ∈ map (TensorArray.coerce_row h) (map RElem es))
         as Hin by (by apply list_elem_of_fmap_2).
       rewrite Hitems in Hin. apply list_elem_of_fmap in Hin as (i & -> & _). done. }
  cbv zeta. rewrite Hitems. rewrite !map_map. cbn [tdtype tdata].
  rewrite length_map.
  assert (result_type (map (fun _ : nat => dtype_ t) (seq 0 (len t))) = dtype_ t) as ->.
  { apply result_type_same.
    - destruct (len t); [lia|done].
    - apply Forall_fmap, Forall_forall. by intros. }
  rewrite (map_cast_view_rows h t) by (done || (apply Forall_seq_lt; lia)).
  rewrite <- view_rows_seq.
  eexists _, _. split; [reflexivity|]. cbn [_tensor].
  split; [|split; [unfold fresh_in; simpl; lia|apply extends_app]].
  unfold value_of. f_equal.
  - unfold shape, len. cbn [rows rshape]. rewrite length_seq. by rewrite <- Hlen.
  - rewrite <- Hlen. rewrite <- (length_view_rows h t). by rewrite view_rows_alloc.
Qed.

Lemma rows_round_trip_witness :
  exists c h',
    TensorArray.__init__
      (VSeq (map RElem [ {| _etensor := NRow 0 0 [2] float64 |};
                         {| _etensor := NRow 0 1 [2] float64 |};
                         {| _etensor := NRow 0 2 [2] float64 |} ])) true nan_heap
      = Ok (c, h') /\
    value_of h' (_tensor c) = value_of nan_heap (_tensor nan_col) /\
    fresh_in nan_heap (_tensor c) /\ extends nan_heap h'.
Proof.
  apply (rows_round_trip nan_heap nan_col).
  - reflexivity.
  - unfold TensorArray.__len__, len. simpl. lia.
  - repeat constructor.
Defined.

(** X9: a column cut in two and put together again is the column: for
    every k up to the length of a well-formed column,
    [_concat_same_type([self[:k], self[k:]])] succeeds and returns a
    column with the value of [self]. *)
Theorem split_concat_round_trip h (self : TensorArray) (k : nat) :
  wf_array h (_tensor self) = true ->
  k <= TensorArray.__len__ self ->
  exists a b c h1 h2 h3,
    TensorArray.__getitem__ self (KSel (KSlice None (Some (Z.of_nat k)) None)) h
      = Ok (TensorArray.Column a, h1) /\
    TensorArray.__getitem__ self (KSel (KSlice (Some (Z.of_nat k)) None None)) h1
      = Ok (TensorArray.Column b, h2) /\
    TensorArray._concat_same_type [a; b] h2 = Ok (c, h3) /\
    TensorArray.__len__ a = k /\
    TensorArray.__len__ b = TensorArray.__len__ self - k /\
    value_of h3 (_tensor c) = value_of h (_tensor self).
Proof.
  unfold TensorArray.__len__. set (t := _tensor self). intros Hwf Hk.
  pose proof (wf_array_base _ _ Hwf) as Hbase.
  destruct (getitem_sel h self (KSlice None (Some (Z.of_nat k)) None) (seq 0 k))
    as (a & h1 & Ha & Hra & Hla & Hrsa & Hda & [k1 ->] & Hba).
  { simpl. by apply slice_positions_upto. }
  destruct (getitem_sel (h ++ k1) self (KSlice (Some (Z.of_nat k)) None None)
              (seq k (len t - k)))
    as (b & h2 & Hb & Hrb & Hlb & Hrsb & Hdb & [k2 ->] & Hbb).
  { simpl. by apply slice_positions_from. }
  fold t in Hra, Hrsa, Hda, Hba, Hrb, Hrsb, Hdb, Hbb.
  rewrite length_seq in Hla, Hlb.
  exists a, b. eexists _, _, _, _.
  split; [exact Ha|]. split; [exact Hb|].
  rewrite concat_eq by (constructor; [congruence|constructor]).
  cbv zeta. split; [reflexivity|].
  split; [done|]. split; [done|].
  cbn [map]. rewrite Hda, Hdb.
  assert (result_type [dtype_ t; dtype_ t] = dtype_ t) as ->.
  { apply result_type_same; [done|]. by repeat constructor. }
  rewrite Hrb.
  rewrite (view_rows_app (h ++ k1) k2 (_tensor a))
    by (apply Hba; exact Hbase).
  rewrite Hra.
  assert (map (view_row (h ++ k1) t) (seq k (len t - k))
          = map (view_row h t) (seq k (len t - k))) as ->.
  { apply map_ext. intros i. by apply view_row_app. }
  rewrite !map_map.
  rewrite !(map_cast_view_rows h t) by (done || (apply Forall_seq_lt; lia)).
  cbn [concat]. rewrite app_nil_r. rewrite <- map_app.
  replace (seq 0 k ++ seq k (len t - k)) with (seq 0 (k + (len t - k)))
    by (by rewrite seq_app).
  replace (k + (len t - k)) with (len t) by lia.
  rewrite <- !view_rows_seq.
  unfold value_of. cbn [_tensor dtype_]. f_equal.
  - unfold shape, len at 1. cbn [rows rshape]. rewrite length_seq.
    rewrite length_view_rows. by rewrite Hrsa.
  - by rewrite view_rows_alloc.
Qed.

Lemma split_concat_round_trip_witness :
  exists a b c h1 h2 h3,
    TensorArray.__getitem__ nan_col (KSel (KSlice None (Some 1%Z) None)) nan_heap
      = Ok (TensorArray.Column a, h1) /\
    TensorArray.__getitem__ nan_col (KSel (KSlice (Some 1%Z) None None)) h1
      = Ok (TensorArray.Column b, h2) /\
    TensorArray._concat_same_type [a; b] h2 = Ok (c, h3) /\
    TensorArray.__len__ a = 1 /\
    TensorArray.__len__ b = TensorArray.__len__ nan_col - 1 /\
    value_of h3 (_tensor c) = value_of nan_heap (_tensor nan_col).
Proof.
  apply (split_concat_round_trip nan_heap nan_col 1).
  - reflexivity.
  - unfold TensorArray.__len__, len. simpl. lia.
Defined.

(** * Assigning a value *)

(** A scalar assigned at a valid key is written, cast, all over every
    targeted row. *)
Lemma np_setitem_scalar t k ps s h :
  targets (len t) k = Ok ps ->
  np_setitem t k {| tdtype := dtype_of s; tshape := []; tdata := [s] |} h
  = Ok (tt, alter (fun buf =>
                     foldl (fun b q => <[q := replicate (prod (rshape t)) (cast (dtype_ t) s)]> b)
                           buf (map (fun p => rows t !!! p) ps))
                  (base t) h).
Proof.
  intros Ht. unfold np_setitem. destruct k as [i|ix]; simpl in Ht.
  - apply rbind_Ok in Ht as (p & Hp & Ht). injection Ht as <-.
    unfold bind, lift. rewrite Hp. cbn [tshape tdata].
    rewrite broadcast_to_scalar.
    unfold write_rows. cbn [zip zip_with foldl map fst snd].
    by rewrite fmap_replicate.
  - apply rbind_Ok in Ht as (ix' & Hix & Ht).
    apply check_indexer_Ok in Hix as ->.
    unfold bind, lift. rewrite Ht. cbn [tshape tdata].
    rewrite broadcast_to_scalar.
    unfold write_rows. cbn [prod foldr]. fold (prod (rshape t)).
    rewrite chunks_replicate. f_equal. f_equal.
    apply list_alter_ext; [|done]. intros buf _.
    rewrite (foldl_insert_const (fun p => rows t !!! p) (map (cast (dtype_ t)))).
    by rewrite fmap_replicate.
Qed.

(** A value of the row shape assigned at a valid integer key is
    written, cast, at the row of the key. *)
Lemma np_setitem_row t i p v h :
  norm_index (len t) i = Ok p ->
  tshape v = rshape t -> length (tdata v) = prod (rshape t) ->
  np_setitem t (KInt i) v h
  = Ok (tt, alter (fun buf =>
                     foldl (fun b q => <[q := map (cast (dtype_ t)) (tdata v)]> b)
                           buf (map (fun p => rows t !!! p) [p]))
                  (base t) h).
Proof.
  intros Hp Hs Hlen. unfold np_setitem, bind, lift. rewrite Hp.
  rewrite Hs, broadcast_to_same by done. done.
Qed.

(** What [__setitem__] does with a value that is there, at a key that
    is not [...]. *)
Lemma setitem_value_eq h (self : TensorArray) k value v :
  TensorArray.is_empty_value value = false ->
  k <> KSel KEllipsis ->
  check_array_indexer (TensorArray.__len__ self) k = Ok k ->
  TensorArray.assigned_value h value = Ok v ->
  TensorArray.__setitem__ self k value h = np_setitem (_tensor self) k v h.
Proof.
  intros Hempty Hk Hchk Hv. unfold TensorArray.__setitem__.
  unfold bind at 1. unfold lift at 1. rewrite Hchk, Hempty.
  destruct k as [i|[| | |]]; try done;
    unfold bind, get_heap, lift; by rewrite Hv.
Qed.

(** X10: assigning a scalar: on a well-formed column, [self[key] = s]
    for a scalar [s] the column can store and a valid key that is an
    integer, a slice, a sequence of positions or a mask does not raise;
    every targeted row becomes a row of [s] converted to the dtype of
    the column, every other row is left as it was, and the column stays
    well formed. *)
Theorem setitem_scalar_broadcast h (self : TensorArray) k (s : scalar) ps :
  wf_array h (_tensor self) = true ->
  k <> KSel KEllipsis ->
  targets (TensorArray.__len__ self) k = Ok ps ->
  storable (dtype_ (_tensor self)) s = true ->
  let t := _tensor self in
  exists h',
    TensorArray.__setitem__ self k (TensorArray.SScalar s) h = Ok (tt, h') /\
    wf_array h' t = true /\
    forall i, i < len t ->
      view_row h' t i =
        if decide (i ∈ ps) then replicate (prod (rshape t)) (cast (dtype_ t) s)
        else view_row h t i.
Proof.
  intros Hwf Hk Ht _ t. unfold TensorArray.__len__ in Ht. fold t in Ht, Hwf.
  rewrite (setitem_value_eq h self k _
             {| tdtype := dtype_of s; tshape := []; tdata := [s] |});
    [|done|done|by eapply check_array_indexer_targets|done].
  fold t. rewrite (np_setitem_scalar t k ps s h Ht).
  eexists. split; [reflexivity|].
  split.
  - rewrite <- (app_nil_r h).
    apply written_wf; [done|]. apply wf_row_replicate, dtype_of_cast.
  - intros i Hi. rewrite <- (app_nil_r h) at 1.
    apply written_view_row; [done| |done].
    by eapply targets_lt.
Qed.

Lemma setitem_scalar_broadcast_witness :
  exists h',
    TensorArray.__setitem__ int_col (KSel (KSlice (Some 1%Z) None None))
      (TensorArray.SScalar (SFloat 7.5)) int_heap = Ok (tt, h') /\
    wf_array h' (_tensor int_col) = true /\
    forall i, i < 3 ->
      view_row h' (_tensor int_col) i =
        if decide (i ∈ [1; 2]) then replicate 2 (SInt 7)
        else view_row int_heap (_tensor int_col) i.
Proof.
  apply (setitem_scalar_broadcast int_heap int_col
           (KSel (KSlice (Some 1%Z) None None)) (SFloat 7.5) [1; 2]).
  - reflexivity.
  - discriminate.
  - reflexivity.
  - reflexivity.
Defined.

(** X11: assignment and access at an integer key agree: on a
    well-formed column, when [value] is not empty and numpy reads it as
    a value [v] of the row shape whose elements the column can store,
    [self[i] = value] for a valid integer [i] does not raise, the
    column stays well formed, [self[i]] afterwards is [v] converted to
    the dtype of the column, and every other row is left as it was. *)
Theorem setitem_getitem_round_trip h (self : TensorArray) i p value v :
  wf_array h (_tensor self) = true ->
  norm_index (TensorArray.__len__ self) i = Ok p ->
  TensorArray.is_empty_value value = false ->
  TensorArray.assigned_value h value = Ok v ->
  tshape v = rshape (_tensor self) ->
  length (tdata v) = prod (rshape (_tensor self)) ->
  forallb (storable (dtype_ (_tensor self))) (tdata v) = true ->
  let t := _tensor self in
  exists h',
    TensorArray.__setitem__ self (KInt i) value h = Ok (tt, h') /\
    wf_array h' t = true /\
    (exists e,
       TensorArray.__getitem__ self (KInt i) h' = Ok (TensorArray.Element e, h') /\
       npval_value h' (_etensor e) =
         {| tdtype := dtype_ t; tshape := rshape t;
            tdata := map (cast (dtype_ t)) (tdata v) |}) /\
    (forall j, j < len t -> j <> p -> view_row h' t j = view_row h t j).
Proof.
  intros Hwf Hp Hempty Hv Hs Hlen _ t. unfold TensorArray.__len__ in Hp.
  fold t in Hwf, Hp, Hs, Hlen.
  rewrite (setitem_value_eq h self (KInt i) value v) by done.
  fold t. rewrite (np_setitem_row t i p v h Hp Hs Hlen).
  pose proof (norm_index_Ok _ _ _ Hp) as (_ & _ & Hlt).
  set (h' := alter _ (base t) h).
  assert (wf_array h' t = true) as Hwf'.
  { unfold h'. rewrite <- (app_nil_r h).
    apply written_wf; [done|]. by apply wf_row_map_cast. }
  assert (forall j, j < len t ->
            view_row h' t j = if decide (j ∈ [p]) then map (cast (dtype_ t)) (tdata v)
                              else view_row h t j) as Hrows.
  { intros j Hj. unfold h'. rewrite <- (app_nil_r h) at 1.
    apply written_view_row; [done| |done]. by repeat constructor. }
  exists h'. split; [done|]. split; [done|]. split.
  - eexists. split.
    + unfold TensorArray.__getitem__, bind. fold t.
      rewrite (np_getitem_int_eq t i h' p Hp). reflexivity.
    + cbn [_etensor]. rewrite row_item_value by done.
      f_equal. rewrite Hrows by done.
      rewrite decide_True; [done|]. apply elem_of_cons. by left.
  - intros j Hj Hne. rewrite Hrows by done.
    rewrite decide_False; [done|]. intros Hin.
    apply elem_of_cons in Hin as [?|Hin]; [done|by apply elem_of_nil in Hin].
Qed.

Lemma setitem_getitem_round_trip_witness :
  exists h',
    TensorArray.__setitem__ int_col (KInt (-1))
      (TensorArray.SList [RScalar (SFloat 1.5); RScalar (SInt 4)]) int_heap
      = Ok (tt, h') /\
    wf_array h' (_tensor int_col) = true /\
    (exists e,
       TensorArray.__getitem__ int_col (KInt (-1)) h' = Ok (TensorArray.Element e, h') /\
       npval_value h' (_etensor e) =
         {| tdtype := int64; tshape := [2]; tdata := [SInt 1; SInt 4] |}) /\
    (forall j, j < 3 -> j <> 2 ->
       view_row h' (_tensor int_col) j = view_row int_heap (_tensor int_col) j).
Proof.
  apply (setitem_getitem_round_trip int_heap int_col (-1) 2
           (TensorArray.SList [RScalar (SFloat 1.5); RScalar (SInt 4)])
           {| tdtype := float64; tshape := [2]; tdata := [SFloat 1.5; SInt 4] |});
    reflexivity.
Defined.

(** X12: what [__setitem__] refuses. A mask whose length is not the
    length of the column raises an [IndexError] whatever the value.
    With an empty value ([None] or an empty sequence) a key that is not
    valid raises the error of the key: an [IndexError] for an integer
    outside [-n, n) and for a sequence with a position outside [-n, n),
    a [ValueError] for a slice of step 0. With a value numpy can read,
    an integer outside [-n, n) raises an [IndexError] and a slice of
    step 0 a [ValueError]. A value that is not empty assigned at [...]
    raises a [NotImplementedError]. On a column of vectors of d
    elements, a vector of m elements the column can store, m other
    than d and 1, assigned at a valid integer key raises a
    [ValueError]. *)
Theorem setitem_refused h (self : TensorArray) :
  let n := TensorArray.__len__ self in
  let t := _tensor self in
  (forall m value, length m <> n ->
     TensorArray.__setitem__ self (KSel (KMask m)) value h = Raise IndexError) /\
  (forall k value e,
     targets n k = Raise e ->
     TensorArray.is_empty_value value = true ->
     TensorArray.__setitem__ self k value h = Raise e) /\
  (forall i, (i < - Z.of_nat n \/ Z.of_nat n <= i)%Z ->
     targets n (KInt i) = Raise IndexError) /\
  (forall l, Exists (fun i => (i < - Z.of_nat n \/ Z.of_nat n <= i)%Z) l ->
     targets n (KSel (KIdx l)) = Raise IndexError) /\
  (forall start stop,
     targets n (KSel (KSlice start stop (Some 0%Z))) = Raise ValueError) /\
  (forall i value v,
     (i < - Z.of_nat n \/ Z.of_nat n <= i)%Z ->
     TensorArray.assigned_value h value = Ok v ->
     TensorArray.__setitem__ self (KInt i) value h = Raise IndexError) /\
  (forall start stop value v,
     TensorArray.assigned_value h value = Ok v ->
     TensorArray.__setitem__ self (KSel (KSlice start stop (Some 0%Z))) value h
       = Raise ValueError) /\
  (forall value,
     TensorArray.is_empty_value value = false ->
     TensorArray.__setitem__ self (KSel KEllipsis) value h
       = Raise NotImplementedError) /\
  (forall i p value v d m,
     norm_index n i = Ok p ->
     TensorArray.is_empty_value value = false ->
     TensorArray.assigned_value h value = Ok v ->
     forallb (storable (dtype_ t)) (tdata v) = true ->
     rshape t = [d] -> tshape v = [m] -> m <> d -> m <> 1 ->
     TensorArray.__setitem__ self (KInt i) value h = Raise ValueError).
Proof.
  intros n t. unfold n, TensorArray.__len__. fold t.
  assert (forall k value e,
            targets (len t) k = Raise e ->
            TensorArray.is_empty_value value = true \/
              (exists v, TensorArray.assigned_value h value = Ok v) ->
            (forall l, k <> KSel (KIdx l)) \/ TensorArray.is_empty_value value = true ->
            TensorArray.__setitem__ self k value h = Raise e) as Hkey.
  { intros k value e Ht Hvalue _.
    unfold TensorArray.__setitem__, TensorArray.__len__. fold t.
    destruct k as [i|ix]; simpl in Ht.
    - destruct (norm_index (len t) i) as [p|e'] eqn:Hp; [done|].
      injection Ht as ->.
      unfold bind at 1. unfold lift at 1. cbn [check_array_indexer].
      destruct (TensorArray.is_empty_value value).
      + unfold bind at 1. unfold np_getitem_int. unfold bind at 1.
        unfold lift at 1. by rewrite Hp.
      + destruct Hvalue as [?|[v Hv]]; [done|].
        unfold bind, get_heap, lift. rewrite Hv.
        unfold np_setitem, bind, lift. by rewrite Hp.
    - unfold bind at 1. unfold lift at 1. cbn [check_array_indexer].
      destruct (check_indexer (len t) ix) as [ix'|e'] eqn:Hix;
        [|by injection Ht as ->].
      apply check_indexer_Ok in Hix as ->. cbn [rbind] in Ht |- *.
      destruct (TensorArray.is_empty_value value).
      + unfold bind at 1. unfold bind at 1. unfold np_getitem.
        unfold bind at 1. unfold lift at 1. by rewrite Ht.
      + destruct Hvalue as [?|[v Hv]]; [done|].
        destruct ix as [start stop step|l|m|];
          [| | |by (simpl in Ht)];
          unfold bind, get_heap, lift; rewrite Hv;
          unfold np_setitem, bind, lift; by rewrite Ht. }
  split; [|split; [|split; [|split; [|split; [|split; [|split; [|split]]]]]]].
  - intros m value Hm. unfold TensorArray.__setitem__, TensorArray.__len__.
    fold t. unfold bind, lift. cbn [check_array_indexer check_indexer].
    by destruct (Nat.eqb_spec (length m) (len t)).
  - intros k value e Ht Hempty. apply Hkey; [done|by left|by right].
  - intros i Hi. simpl. by rewrite norm_index_out.
  - intros l Hl. simpl. by apply rmapM_norm_index_out.
  - done.
  - intros i value v Hi Hv. apply Hkey.
    + simpl. by rewrite norm_index_out.
    + right. by exists v.
    + left. discriminate.
  - intros start stop value v Hv. apply Hkey.
    + done.
    + right. by exists v.
    + left. discriminate.
  - intros value Hempty. unfold TensorArray.__setitem__.
    unfold bind, lift. cbn [check_array_indexer check_indexer rbind].
    by rewrite Hempty.
  - intros i p value v d m Hp Hempty Hv _ Hrs Hs Hmd Hm1.
    rewrite (setitem_value_eq h self (KInt i) value v) by done.
    fold t. unfold np_setitem, bind, lift. rewrite Hp, Hrs, Hs.
    unfold broadcast_to. cbn [length Nat.leb Nat.sub replicate app bcast].
    destruct (Nat.eqb_spec m d); [done|].
    by destruct (Nat.eqb_spec m 1).
Qed.

Lemma setitem_refused_witness :
  TensorArray.__setitem__ nan_col (KInt 3) (TensorArray.SScalar (SInt 0)) nan_heap
    = Raise IndexError /\
  TensorArray.__setitem__ nan_col (KInt 0)
    (TensorArray.SList [RScalar (SInt 1); RScalar (SInt 2); RScalar (SInt 3)])
    nan_heap = Raise ValueError.
Proof.
  destruct (setitem_refused nan_heap nan_col)
    as (_ & _ & _ & _ & _ & Hint & _ & _ & Hshape).
  split.
  - eapply Hint; [|reflexivity]. unfold TensorArray.__len__, len. simpl. lia.
  - eapply (Hshape 0%Z 0 _ _ 2 3); try reflexivity; lia.
Defined.

(** * Conversions to arrays *)

(** The array a conversion allocates: the rows of the source, cast. *)
Lemma alloc_cast_spec h t d :
  let a := {| base := length h; rows := seq 0 (len t);
              rshape := rshape t; dtype_ := d |} in
  let h' := h ++ [map (map (cast d)) (view_rows h t)] in
  view_rows h' a = map (map (cast d)) (view_rows h t) /\
  shape a = shape t /\ dtype_ a = d /\ fresh_in h a /\ extends h h' /\
  (wf_array h t = true -> d = dtype_ t -> value_of h' a = value_of h t).
Proof.
  intros a h'.
  assert (view_rows h' a = map (map (cast d)) (view_rows h t)) as Hv.
  { unfold a, h'.
    rewrite <- (length_view_rows h t), <- (length_map (map (cast d)) (view_rows h t)).
    apply view_rows_alloc. }
  split; [done|].
  assert (shape a = shape t) as Hs.
  { unfold shape, len. cbn [a rows rshape]. by rewrite length_seq. }
  split; [done|]. split; [done|].
  split; [unfold fresh_in; simpl; lia|]. split; [apply extends_app|].
  intros Hwf ->. unfold value_of. rewrite Hv, Hs. cbn [a dtype_]. f_equal. f_equal.
  rewrite <- (map_id (view_rows h t)) at 2. apply Forall_fmap_ext_1.
  eapply Forall_impl; [by apply wf_array_rows|]. intros r Hr. simpl in Hr.
  apply wf_row_spec in Hr as [_ Hr]. by apply map_cast_same.
Qed.

Lemma np_astype_alloc t d copy h :
  copy = true \/ dtype_ t <> d ->
  np_astype t d copy h =
    Ok ({| base := length h; rows := seq 0 (len t); rshape := rshape t; dtype_ := d |},
        h ++ [map (map (cast d)) (view_rows h t)]).
Proof.
  intros Hc. unfold np_astype.
  assert (negb copy && dtype_eqb (dtype_ t) d = false) as ->.
  { destruct Hc as [->|Hne]; [done|].
    apply andb_false_iff. right. by destruct (dtype_ t), d. }
  unfold bind, get_heap, alloc_rows. by rewrite !length_map, length_view_rows.
Qed.

Lemma np_astype_same t copy h :
  np_astype t (dtype_ t) copy h = if copy then np_astype t (dtype_ t) true h else Ok (t, h).
Proof.
  destruct copy; [done|]. unfold np_astype.
  assert (dtype_eqb (dtype_ t) (dtype_ t) = true) as -> by (by destruct (dtype_ t)).
  done.
Qed.

(** X13: [to_numpy]. Without a dtype and without [copy] it returns the
    array of the column itself, so the caller shares the memory of the
    column; in every other case it returns an array on a new buffer
    with the shape of the column and leaves every existing buffer as it
    was: with [copy] and no dtype the rows are those of the column,
    with a dtype [d] they are the rows converted to [d], whether or not
    [copy] is set (and the value of the column when it is well formed
    and [d] is its dtype). *)
Theorem to_numpy_result h (self : TensorArray) :
  let t := _tensor self in
  TensorArray.to_numpy self None false h = Ok (t, h) /\
  (exists a h',
     TensorArray.to_numpy self None true h = Ok (a, h') /\
     view_rows h' a = view_rows h t /\
     shape a = shape t /\ dtype_ a = dtype_ t /\
     fresh_in h a /\ extends h h') /\
  (forall d copy,
     exists a h',
       TensorArray.to_numpy self (Some d) copy h = Ok (a, h') /\
       view_rows h' a = map (map (cast d)) (view_rows h t) /\
       shape a = shape t /\ dtype_ a = d /\
       fresh_in h a /\ extends h h' /\
       (wf_array h t = true -> d = dtype_ t -> value_of h' a = value_of h t)).
Proof.
  intros t. split; [done|]. split.
  - unfold TensorArray.to_numpy, np_copy, bind, get_heap, alloc_rows. fold t.
    eexists _, _. split; [reflexivity|].
    split; [apply view_rows_alloc|].
    split; [unfold shape, len; cbn [rows rshape];
            by rewrite length_seq, length_view_rows|].
    split; [done|]. split; [unfold fresh_in; simpl; lia|apply extends_app].
  - intros d copy.
    assert (TensorArray.to_numpy self (Some d) copy h =
              Ok ({| base := length h; rows := seq 0 (len t);
                     rshape := rshape t; dtype_ := d |},
                  h ++ [map (map (cast d)) (view_rows h t)])) as ->.
    { unfold TensorArray.to_numpy. fold t. destruct copy.
      - unfold np_array, bind, get_heap, alloc_rows.
        by rewrite !length_map, length_view_rows.
      - apply np_astype_alloc. by left. }
    eexists _, _. split; [reflexivity|]. apply alloc_cast_spec.
Qed.

(** X14: [astype] to a numeric dtype and [__array__]. [astype(d,
    copy)] returns the array of the column itself when [copy] is false
    and [d] is the dtype of the column, and otherwise an array on a new
    buffer whose rows are the rows of the column converted to [d];
    [__array__(dtype)] is [astype(dtype, copy=False)], and the array of
    the column itself when no dtype is given. *)
Theorem astype_dtype_result h (self : TensorArray) :
  let t := _tensor self in
  TensorArray.astype self (TensorArray.ToDtype (dtype_ t)) false h
    = Ok (TensorArray.AsArray t, h) /\
  (forall d copy,
     copy = true \/ dtype_ t <> d ->
     exists a h',
       TensorArray.astype self (TensorArray.ToDtype d) copy h
         = Ok (TensorArray.AsArray a, h') /\
       view_rows h' a = map (map (cast d)) (view_rows h t) /\
       shape a = shape t /\ dtype_ a = d /\
       fresh_in h a /\ extends h h' /\
       (wf_array h t = true -> d = dtype_ t -> value_of h' a = value_of h t)) /\
  TensorArray.__array__ self None h = Ok (t, h) /\
  (forall d,
     TensorArray.astype self (TensorArray.ToDtype d) false h =
       match TensorArray.__array__ self (Some d) h with
       | Ok (a, h') => Ok (TensorArray.AsArray a, h')
       | Raise e => Raise e
       end).
Proof.
  intros t. split; [|split; [|split]].
  - unfold TensorArray.astype, bind. fold t. by rewrite np_astype_same.
  - intros d copy Hc. unfold TensorArray.astype, bind. fold t.
    rewrite np_astype_alloc by done. unfold ret.
    eexists _, _. split; [reflexivity|]. apply alloc_cast_spec.
  - done.
  - intros d. unfold TensorArray.astype, TensorArray.__array__, np_asarray, bind.
    by destruct (np_astype _ d false h) as [[a h']|e].
Qed.

Lemma astype_dtype_result_witness :
  exists a h',
    TensorArray.astype int_col (TensorArray.ToDtype float64) false int_heap
      = Ok (TensorArray.AsArray a, h') /\
    view_rows h' a = map (map (cast float64)) (view_rows int_heap (_tensor int_col)) /\
    shape a = [3; 2] /\ dtype_ a = float64 /\
    fresh_in int_heap a /\ extends int_heap h' /\
    (wf_array int_heap (_tensor int_col) = true -> float64 = int64 ->
     value_of h' a = value_of int_heap (_tensor int_col)).
Proof.
  destruct (astype_dtype_result int_heap int_col) as (_ & Hconv & _).
  apply (Hconv float64 false). right. discriminate.
Defined.

(** * Missing rows made by a gather with fill *)

(** X15: the rows [take] marks as missing are the rows [isna] reports:
    on a well-formed float64 column of vectors, [take] with
    [allow_fill] and the default fill value succeeds for indices in
    [-1, n), and [isna] of the result has one entry for each index:
    true when the index is -1, and otherwise what [isna] says of the
    source row at that index. *)
Theorem take_fill_isna h (self : TensorArray) (indices : list Z) d :
  wf_array h (_tensor self) = true ->
  dtype_ (_tensor self) = float64 ->
  rshape (_tensor self) = [d] ->
  Forall (fun i => (-1 <= i < Z.of_nat (TensorArray.__len__ self))%Z) indices ->
  exists c h',
    TensorArray.take self indices true None h = Ok (c, h') /\
    TensorArray.isna c h' =
      Ok ({| tdtype := bool_; tshape := [length indices];
             tdata := map (fun idx =>
                             SBool (if (idx <? 0)%Z then true
                                    else all_nan (view_row h (_tensor self) (Z.to_nat idx))))
                          indices |}, h').
Proof.
  intros Hwf Hd Hrs Hin. set (t := _tensor self) in *.
  rewrite take_filled_eq by done. cbn [default]. fold t.
  eexists _, _. split; [reflexivity|].
  set (rws := map (take_fill_row h t NaN) indices).
  assert (wf_array (h ++ [rws])
            {| base := length h; rows := seq 0 (length indices);
               rshape := rshape t; dtype_ := dtype_of NaN |} = true) as Hwf'.
  { rewrite <- (length_map (take_fill_row h t NaN) indices). apply wf_alloc.
    apply Forall_fmap. eapply Forall_impl; [exact Hin|]. intros idx Hidx. simpl.
    apply take_fill_row_wf; [done|]. unfold TensorArray.__len__ in Hidx.
    fold t in Hidx. lia. }
  rewrite (isna_rows_eq (h ++ [rws])
             {| _tensor := {| base := length h; rows := seq 0 (length indices);
                              rshape := rshape t; dtype_ := dtype_of NaN |} |}
             d Hwf') by done.
  unfold TensorArray.__len__, len. cbn [_tensor rows]. rewrite length_seq.
  f_equal. f_equal. f_equal.
  rewrite <- (length_map (take_fill_row h t NaN) indices).
  rewrite view_rows_alloc. unfold rws. rewrite map_map.
  apply Forall_fmap_ext_1. eapply Forall_impl; [exact Hin|].
  intros idx Hidx. simpl. f_equal. unfold take_fill_row.
  destruct (Z.leb_spec 0 idx) as [Hle|Hlt].
  - destruct (Z.ltb_spec idx 0); [lia|]. f_equal.
    apply map_cast_same. cbn [NaN dtype_of]. rewrite <- Hd.
    apply (wf_view_row h t); [done|]. unfold TensorArray.__len__ in Hidx.
    fold t in Hidx. lia.
  - destruct (Z.ltb_spec idx 0); [|lia]. apply all_nan_replicate.
Qed.

Lemma take_fill_isna_witness :
  exists c h',
    TensorArray.take nan_col [2; -1; 1]%Z true None nan_heap = Ok (c, h') /\
    TensorArray.isna c h' =
      Ok ({| tdtype := bool_; tshape := [3];
             tdata := map (fun idx =>
                             SBool (if (idx <? 0)%Z then true
                                    else all_nan (view_row nan_heap (_tensor nan_col)
                                                           (Z.to_nat idx))))
                          [2; -1; 1]%Z |}, h').
Proof.
  apply (take_fill_isna nan_heap nan_col [2; -1; 1]%Z 2); try reflexivity.
  unfold TensorArray.__len__, len. simpl. repeat constructor; lia.
Defined.

(** * Comparison *)

Lemma equal_self s : equal s s = SBool (negb (isnan s)).
Proof.
  destruct s as [b|z|f]; unfold equal; simpl.
  - by destruct b.
  - by rewrite Z.eqb_refl.
  - unfold PrimFloat.is_nan. by rewrite negb_involutive.
Qed.

Lemma zip_with_self {A B} (f : A -> A -> B) l :
  zip_with f l l = map (fun x => f x x) l.
Proof. induction l as [|x l IH]; simpl; [done|]. by rewrite IH. Qed.

(** X17: a column compared with itself: on a well-formed column
    [self == self] returns a boolean column of the shape of [self], on
    a new buffer, that is true at an element exactly when the element
    is not NaN (so it is true everywhere on a column of integers or
    booleans). *)
Theorem eq_self_not_nan h (self : TensorArray) :
  wf_array h (_tensor self) = true ->
  exists c h',
    __eq__ TensorArray self (OfColumn self) h = Ok (c, h') /\
    view_rows h' (_tensor c)
      = map (map (fun s => SBool (negb (isnan s)))) (view_rows h (_tensor self)) /\
    shape (_tensor c) = shape (_tensor self) /\
    dtype_ (_tensor c) = bool_ /\
    fresh_in h (_tensor c) /\ extends h h'.
Proof.
  intros Hwf. set (t := _tensor self) in *.
  pose proof (value_of_size h t Hwf) as Hsize.
  edestruct (create_method_array (Equality np_equal false) self (OfColumn self) h
               {| tdtype := bool_; tshape := shape t;
                  tdata := zip_with equal (concat (view_rows h t))
                                          (concat (view_rows h t)) |}
               (len t) (rshape t))
    as (Hrun & Hv & _); [|done| |].
  { cbn [raw_operand npval_value]. fold t. apply np_binop_equality.
    unfold np_equal. by rewrite np_elementwise_same_shape. }
  { cbn [tdata tshape]. rewrite length_zip_with. unfold value_of in Hsize.
    cbn [tdata tshape] in Hsize. lia. }
  cbn [tshape tdtype tdata] in Hrun, Hv.
  eexists _, _. split; [exact Hrun|]. cbn [_tensor].
  split.
  { rewrite Hv. rewrite <- (length_view_rows h t) at 1.
    rewrite chunks_zip_with_concat by (done || by apply wf_rows_length).
    rewrite zip_with_self. apply map_ext. intros r.
    rewrite zip_with_self. apply map_ext. intros s. apply equal_self. }
  split; [unfold shape, len at 1; cbn [rows rshape]; by rewrite length_seq|].
  split; [done|]. split; [unfold fresh_in; simpl; lia|apply extends_app].
Qed.

Lemma eq_self_not_nan_witness :
  exists c h',
    __eq__ TensorArray nan_col (OfColumn nan_col) nan_heap = Ok (c, h') /\
    view_rows h' (_tensor c)
      = [[SBool true; SBool true]; [SBool false; SBool false];
         [SBool true; SBool false]] /\
    shape (_tensor c) = [3; 2] /\
    dtype_ (_tensor c) = bool_ /\
    fresh_in nan_heap (_tensor c) /\ extends nan_heap h'.
Proof. apply (eq_self_not_nan nan_heap nan_col). reflexivity. Defined.

(** * What leaves the buffers alone *)

Lemma alloc_rows_extends d rs rws h a h' :
  alloc_rows d rs rws h = Ok (a, h') -> extends h h'.
Proof. unfold alloc_rows. intros [= _ <-]. apply extends_app. Qed.

Lemma np_copy_extends a h r h' : np_copy a h = Ok (r, h') -> extends h h'.
Proof.
  unfold np_copy, bind, get_heap. by apply alloc_rows_extends.
Qed.

Lemma np_astype_extends a d copy h r h' :
  np_astype a d copy h = Ok (r, h') -> extends h h'.
Proof.
  unfold np_astype. destruct (negb copy && dtype_eqb (dtype_ a) d).
  - intros [= _ <-]. apply extends_refl.
  - unfold bind, get_heap. by apply alloc_rows_extends.
Qed.

Lemma alloc_value_extends t h r h' :
  alloc_value t h = Ok (r, h') -> extends h h'.
Proof.
  unfold alloc_value. destruct (tshape t) as [|n rs].
  - intros [= _ <-]. apply extends_refl.
  - unfold bind, alloc_rows, ret. intros [= _ <-]. apply extends_app.
Qed.

(** The constructor changes no buffer that exists. *)
Lemma init_extends values mc h c h' :
  TensorArray.__init__ values mc h = Ok (c, h') -> extends h h'.
Proof.
  unfold TensorArray.__init__. intros H.
  apply bind_Ok in H as (t & h1 & Ht & H).
  apply bind_Ok in H as (t' & h2 & Ht' & H).
  unfold ret in H. injection H as _ <-.
  apply (extends_trans h h1 h2).
  - destruct values as [a|l|e|s|c0|].
    + unfold ret in Ht. injection Ht as _ <-. apply extends_refl.
    + destruct (length l =? 0).
      * by eapply alloc_rows_extends.
      * unfold bind, get_heap in Ht. by apply np_stack_Ok in Ht as (_ & _ & _ & ? & _).
    + unfold bind, get_heap in Ht. by apply np_stack_Ok in Ht as (_ & _ & _ & ? & _).
    + by eapply alloc_rows_extends.
    + discriminate.
    + discriminate.
  - destruct (negb (c_contiguous t) && mc).
    + unfold np_ascontiguousarray in Ht'. destruct (c_contiguous t).
      * unfold ret in Ht'. injection Ht' as _ <-. apply extends_refl.
      * by eapply np_copy_extends.
    + unfold ret in Ht'. injection Ht' as _ <-. apply extends_refl.
Qed.

(** X18: only assignment writes. Whatever a well-formed column is
    asked other than [__setitem__] - [isna], [__getitem__], [take],
    [copy], concatenation, [astype], [to_numpy], [__array__],
    [_reduce], a binary operator, [_from_sequence] - when it returns,
    the heap is the heap before with, at most, new buffers added
    ([isna] and [self[i]] for an integer add none), so the column is
    still well formed and has the value it had. *)
Theorem only_setitem_writes h (self : TensorArray) :
  wf_array h (_tensor self) = true ->
  (forall r h', TensorArray.isna self h = Ok (r, h') -> h' = h) /\
  (forall i r h', TensorArray.__getitem__ self (KInt i) h = Ok (r, h') -> h' = h) /\
  (forall ix r h', TensorArray.__getitem__ self (KSel ix) h = Ok (r, h') -> extends h h') /\
  (forall indices allow_fill fv c h',
     TensorArray.take self indices allow_fill fv h = Ok (c, h') -> extends h h') /\
  (forall c h', TensorArray.copy self h = Ok (c, h') -> extends h h') /\
  (forall others c h',
     TensorArray._concat_same_type (self :: others) h = Ok (c, h') -> extends h h') /\
  (forall target copy r h',
     TensorArray.astype self target copy h = Ok (r, h') -> extends h h') /\
  (forall d copy a h',
     TensorArray.to_numpy self d copy h = Ok (a, h') -> extends h h') /\
  (forall d a h', TensorArray.__array__ self d h = Ok (a, h') -> extends h h') /\
  (forall name c h', TensorArray._reduce self name h = Ok (c, h') -> extends h h') /\
  (forall op other c h',
     _create_method TensorArray op self other h = Ok (c, h') -> extends h h') /\
  (forall copy c h',
     TensorArray._from_sequence (VCol self) copy h = Ok (c, h') -> extends h h') /\
  (forall h', extends h h' ->
     wf_array h' (_tensor self) = true /\
     value_of h' (_tensor self) = value_of h (_tensor self)).
Proof.
  intros Hwf.
  repeat match goal with |- _ /\ _ => split end.
  - unfold TensorArray.isna, bind, get_heap, ret. by intros r h' [= _ <-].
  - intros i r h' H. unfold TensorArray.__getitem__ in H.
    apply bind_Ok in H as (v & h1 & Hv & H).
    apply np_getitem_int_heap in Hv as ->. unfold ret in H. by injection H as _ <-.
  - intros ix r h' H. unfold TensorArray.__getitem__ in H.
    apply bind_Ok in H as (ix' & h1 & Hix & H). apply lift_Ok in Hix as [_ ->].
    apply bind_Ok in H as (a & h1 & Ha & H).
    apply bind_Ok in H as (c & h2 & Hc & H).
    unfold ret in H. injection H as _ <-.
    eapply extends_trans; [by eapply np_getitem_extends|by eapply init_extends].
  - intros indices allow_fill fv c h' H. by eapply take_fresh.
  - intros c h' H. unfold TensorArray.copy in H.
    apply bind_Ok in H as (a & h1 & Ha & H).
    eapply extends_trans; [by eapply np_copy_extends|by eapply init_extends].
  - intros others c h' H. by eapply concat_fresh.
  - intros target copy r h' H. unfold TensorArray.astype in H.
    destruct target as [|d].
    + apply bind_Ok in H as (a & h1 & Ha & H).
      apply bind_Ok in H as (c & h2 & Hc & H).
      unfold ret in H. injection H as _ <-.
      eapply extends_trans; [|by eapply init_extends].
      destruct copy; [by eapply np_copy_extends|].
      unfold ret in Ha. injection Ha as _ <-. apply extends_refl.
    + apply bind_Ok in H as (a & h1 & Ha & H).
      unfold ret in H. injection H as _ <-. by eapply np_astype_extends.
  - intros d copy a h' H. unfold TensorArray.to_numpy in H.
    destruct d as [d|], copy.
    + unfold np_array, bind, get_heap in H. by eapply alloc_rows_extends.
    + by eapply np_astype_extends.
    + by eapply np_copy_extends.
    + unfold ret in H. injection H as _ <-. apply extends_refl.
  - intros d a h' H. unfold TensorArray.__array__, np_asarray in H.
    destruct d as [d|].
    + by eapply np_astype_extends.
    + unfold ret in H. injection H as _ <-. apply extends_refl.
  - intros name c h' H. unfold TensorArray._reduce in H.
    destruct (String.eqb name "sum"); [|discriminate].
    apply bind_Ok in H as (s & h1 & Hs & H).
    unfold np_sum0, bind, get_heap in Hs.
    eapply extends_trans; [by eapply alloc_value_extends|by eapply init_extends].
  - intros op other c h' H. rewrite create_method_unfold in H.
    destruct (np_binop op _ _) as [[t|q r]|e]; [| |discriminate].
    + apply bind_Ok in H as (res & h1 & Hres & H).
      cbn [construct TensorArray_ops] in H.
      eapply extends_trans; [by eapply alloc_value_extends|by eapply init_extends].
    + apply bind_Ok in H as (q' & h1 & Hq & H).
      apply bind_Ok in H as (r' & h2 & Hr & H).
      cbn [construct TensorArray_ops] in H.
      eapply extends_trans; [by eapply alloc_value_extends|].
      eapply extends_trans; [by eapply alloc_value_extends|by eapply init_extends].
  - intros copy c h' H. unfold TensorArray._from_sequence in H.
    apply bind_Ok in H as (v & h1 & Hv & H).
    eapply extends_trans; [|by eapply init_extends].
    destruct copy.
    + apply bind_Ok in Hv as (a & h2 & Ha & Hv).
      unfold ret in Hv. injection Hv as _ <-. by eapply np_copy_extends.
    + unfold ret in Hv. injection Hv as _ <-. apply extends_refl.
  - intros h' [k ->]. split; [by apply wf_array_app|].
    unfold value_of. rewrite view_rows_app; [done|]. by eapply wf_array_base.
Qed.

Lemma only_setitem_writes_witness :
  wf_array (nan_heap ++ [[]]) (_tensor nan_col) = true /\
  value_of (nan_heap ++ [[]]) (_tensor nan_col) = value_of nan_heap (_tensor nan_col).
Proof.
  destruct (only_setitem_writes nan_heap nan_col eq_refl)
    as (_ & _ & _ & _ & _ & _ & _ & _ & _ & _ & _ & _ & Hlast).
  apply Hlast. apply extends_app.
Defined.
